(** * CollegeScraped: the scraping service of [app.py], embedded and verified

    The service fetches pages of one upstream site, extracts records from the
    parsed HTML, keeps the results in a bounded expiring cache and serves them
    as JSON.  This development embeds [app.py] function by function:

    - Python values that may raise are computations in the [result] monad;
    - a parsed document (what [BeautifulSoup(..., 'lxml')] returns) is a
      [node] tree, and the [find_all] / [find] / [find_parent] / [find_next] /
      [next_sibling] navigation used by the source is defined on it;
    - the libraries the source calls ([urljoin], the HTML parser, the HTTP
      client, [asyncio.gather]) are parameters of the handlers or small
      models of their documented behaviour;
    - the process-wide [cache] is a state threaded through the handlers, and
      upstream calls are recorded in a trace.

    Text is modelled by [string]; the case and whitespace functions
    ([title], [upper], [strip]) are the ASCII ones. *)

From Stdlib Require Import ZArith Ascii String.
From stdpp Require Import base option list gmap strings sorting pretty.

Local Open Scope Z_scope.

(** ** Exceptions and the [result] monad *)

Inductive exn :=
  | KeyError (key : string)        (* a missing subscript: [tag['href']], [cache[key]] *)
  | IndexError                     (* a list index out of range *)
  | AttributeError                 (* a method called on [None] *)
  | ValueError (msg : string)
  | TransportError (msg : string). (* raised by the HTTP client *)

Inductive result (A : Type) :=
  | Ok (a : A)
  | Raise (e : exn).
Arguments Ok {A} a.
Arguments Raise {A} e.

#[global] Instance result_ret : MRet result := fun _ a => Ok a.
#[global] Instance result_bind : MBind result := fun _ _ f m =>
  match m with Ok a => f a | Raise e => Raise e end.
#[global] Instance result_fmap : FMap result := fun _ _ f m =>
  match m with Ok a => Ok (f a) | Raise e => Raise e end.

Definition returns {A} (m : result A) : Prop := exists a, m = Ok a.

(** ** Python string methods (ASCII) *)

Module Py.

Definition startswith (s pre : string) : bool := String.prefix pre s.

(** [needle in s] *)
Fixpoint contains (needle s : string) : bool :=
  String.prefix needle s ||
  match s with
  | EmptyString => false
  | String _ s' => contains needle s'
  end.

Definition isspace (c : ascii) : bool :=
  let n := N_of_ascii c in
  ((9 <=? n) && (n <=? 13) || (28 <=? n) && (n <=? 32))%N.

Fixpoint lstrip (s : string) : string :=
  match s with
  | String c s' => if isspace c then lstrip s' else s
  | EmptyString => EmptyString
  end.

Definition strip (s : string) : string :=
  String.rev (lstrip (String.rev (lstrip s))).

Definition islower (c : ascii) : bool :=
  let n := N_of_ascii c in ((97 <=? n) && (n <=? 122))%N.
Definition isupper (c : ascii) : bool :=
  let n := N_of_ascii c in ((65 <=? n) && (n <=? 90))%N.
Definition to_upper (c : ascii) : ascii :=
  if islower c then ascii_of_N (N_of_ascii c - 32) else c.
Definition to_lower (c : ascii) : ascii :=
  if isupper c then ascii_of_N (N_of_ascii c + 32) else c.

Fixpoint upper (s : string) : string :=
  match s with
  | EmptyString => EmptyString
  | String c s' => String (to_upper c) (upper s')
  end.

(** [s.title()]: a cased character is upper-cased when the character before
    it is not cased, and lower-cased otherwise. *)
Fixpoint title_go (previous_is_cased : bool) (s : string) : string :=
  match s with
  | EmptyString => EmptyString
  | String c s' =>
      if islower c then
        String (if previous_is_cased then c else to_upper c) (title_go true s')
      else if isupper c then
        String (if previous_is_cased then to_lower c else c) (title_go true s')
      else String c (title_go false s')
  end.
Definition title : string -> string := title_go false.

(** [s.replace(old, new)] for a non-empty [old]: the occurrences of [old]
    are replaced from the left and do not overlap.  [skip] counts the
    characters of a matched occurrence still to be dropped. *)
Fixpoint replace_go (old new : string) (skip : nat) (s : string) : string :=
  match s with
  | EmptyString => EmptyString
  | String c s' =>
      match skip with
      | S k => replace_go old new k s'
      | O =>
          if String.prefix old s
          then new +:+ replace_go old new (Nat.pred (String.length old)) s'
          else String c (replace_go old new O s')
      end
  end.
Definition replace (s old new : string) : string := replace_go old new O s.

(** [str(b)] for a [bool], as an f-string formats it *)
Definition str_bool (b : bool) : string := if b then "True" else "False".

End Py.

(** ** Parsed documents

    What [BeautifulSoup(text, 'lxml')] returns: a tree of tags and text
    nodes.  The soup object itself is the root tag. *)

#[warnings="-register-all"]
Inductive node :=
  | Text (s : string)
  | Tag (name : string) (attrs : list (string * string)) (contents : list node).

Module Soup.

(** [node.name]: [None] for a text node *)
Definition name (n : node) : option string :=
  match n with Text _ => None | Tag t _ _ => Some t end.

(** truth value of a node in a condition: a tag is always true, a text
    node is a [str] and is true when it is not empty *)
Definition truthy (n : node) : bool :=
  match n with Text s => negb (bool_decide (s = "")) | Tag _ _ _ => true end.

Fixpoint assoc (k : string) (l : list (string * string)) : option string :=
  match l with
  | [] => None
  | (k', v) :: l' => if bool_decide (k' = k) then Some v else assoc k l'
  end.

(** [tag.get(k)] *)
Definition get (n : node) (k : string) : option string :=
  match n with Text _ => None | Tag _ a _ => assoc k a end.

(** [tag[k]] *)
Definition item (n : node) (k : string) : result string :=
  match get n k with Some v => Ok v | None => Raise (KeyError k) end.

(** the node followed by everything below it, in document order *)
Fixpoint subtree (n : node) : list node :=
  n :: match n with
       | Text _ => []
       | Tag _ _ cs => flat_map subtree cs
       end.

Definition descendants (n : node) : list node := tail (subtree n).

(** the strings below a node, in document order *)
Definition strings (n : node) : list string :=
  omap (fun d => match d with Text s => Some s | Tag _ _ _ => None end) (subtree n).

Definition concat_strings (l : list string) : string :=
  foldr String.append "" l.

(** [node.get_text(strip=True)]: every string is stripped, the empty ones
    are dropped, the rest are joined without a separator *)
Definition get_text_strip (n : node) : string :=
  concat_strings
    (filter (fun s => s <> "") (Py.strip <$> strings n)).

(** a tag's classes, the value of [class] split at white space *)
Definition classes (n : node) : list string :=
  match get n "class" with Some v => String.words v | None => [] end.

(** filters of [find_all]: a tag name or a list of names; [class_] given
    as a string or a list of strings (some class of the tag is one of
    them) *)
Definition named (names : list string) (n : node) : bool :=
  match name n with Some t => bool_decide (t ∈ names) | None => false end.

Definition has_class (cs : list string) (n : node) : bool :=
  existsb (fun c => bool_decide (c ∈ cs)) (classes n).

(** [node.find_all(...)] with the filter [p] *)
Definition find_all (p : node -> bool) (n : node) : list node :=
  filter (fun d => p d = true) (descendants n).

(** [node.find(...)] *)
Definition find (p : node -> bool) (n : node) : option node :=
  head (find_all p n).

(** A tag together with what the navigation of the source reads around
    it: its ancestors from the nearest, the siblings after it, and the
    nodes after it in document order. *)
Record located := Located {
  self : node;
  parents : list node;
  next_siblings : list node;
  next_elements : list node
}.

(** the children [cs] of a tag, each located by [f] with the siblings after
    it and with what follows it in the document *)
Definition locate_children (f : node -> list node -> list node -> list located)
    (after : list node) : list node -> list located :=
  fix go (cs : list node) : list located :=
    match cs with
    | [] => []
    | c :: cs' => f c cs' (flat_map subtree cs' ++ after) ++ go cs'
    end.

(** [n] and everything below it, located: [ps] are the ancestors of [n],
    [sibs] the siblings after it, [after] the nodes after its subtree *)
Fixpoint locate (n : node) (ps sibs after : list node) : list located :=
  Located n ps sibs (descendants n ++ after) ::
  match n with
  | Text _ => []
  | Tag _ _ cs => locate_children (fun c => locate c (n :: ps)) after cs
  end.

(** [root.find_all(...)], each result with its surroundings in [root] *)
Definition find_all_located (p : node -> bool) (root : node) : list located :=
  filter (fun l => p (self l) = true) (tail (locate root [] [] [])).

(** [tag.find_parent(...)] *)
Definition find_parent (p : node -> bool) (l : located) : option node :=
  head (filter (fun a => p a = true) (parents l)).

(** [tag.find_next(...)] *)
Definition find_next (p : node -> bool) (l : located) : option node :=
  head (filter (fun a => p a = true) (next_elements l)).

End Soup.

(** ** The records of the responses *)

(** [{"text": ..., "url": ...}] of a table row *)
Record link_entry := { le_text : string; le_url : option string }.

(** TableRow: [{"title": ..., "date": ..., "links": [...]}] *)
Record table_row := { tr_title : string; tr_date : string; tr_links : list link_entry }.

(** the parts of the home page: [{"text", "link"}], [{"label", "value"}] *)
Record announcement := { an_text : string; an_link : option string }.
Record stat := { st_label : string; st_value : string }.
Record home_data := {
  hd_announcements : list announcement;
  hd_stats : list stat;
  hd_images : list (option string)
}.

(** Section: a heading with the text fragments under it *)
Record section := { sec_title : string; sec_content : list string }.

(** ProfileCard *)
Record profile_card := {
  pc_name : string;
  pc_photo : option string;
  pc_text : list string
}.

Record institute_data := {
  in_page : string;
  in_sections : list section;
  in_profiles : list profile_card
}.

(** LinkGroup: [{"header": ..., "links": [{"label", "url"}]}] *)
Record group_link := { gl_label : string; gl_url : option string }.
Record link_group := { lg_header : string; lg_links : list group_link }.

(** a value of the bio mapping: the list of list-item texts, or a text *)
Inductive bio_value :=
  | BioItems (items : list string)
  | BioText (text : string).

(** StaffRecord; [sr_email] is [email_input.get('value')], [sr_bio] is
    absent until the deep fetch sets the key ["bio"] *)
Record staff_record := {
  sr_name : string;
  sr_email : option string;
  sr_photo : option string;
  sr_bio : option (gmap string bio_value)
}.

Record dept_data := { dd_dept : string; dd_faculties : list staff_record }.

(** what an endpoint returns, and what the cache holds *)
Inductive response :=
  | RHome (d : home_data)
  | RInstitute (d : institute_data)
  | RAcademics (d : list link_group)
  | RDepartment (d : dept_data)
  | RNotifications (d : list table_row).

(** truth value of an optional attribute value: present and not empty *)
Definition truthy_attr (v : option string) : bool :=
  match v with Some s => negb (bool_decide (s = "")) | None => false end.

(** ** The response cache *)

(** Modelled from the spec: the class [TTLCache] of the [cachetools] library,
    which [app.py] instantiates but does not define.  The spec's contract:
    [get] and [put] on keys; an entry is invisible once its insertion time
    plus the time-to-live has elapsed, whether or not it is still held; at
    most [maxsize] entries are held, and an insertion beyond that displaces
    entries in the order of the replacement policy, which for this class is
    least recently used first.  Entries are kept in that order: a write puts
    its entry last, and so does a read of a live entry. *)
Module Cache.

Section Values.
Context {V : Type}.

Record entry := Entry { key : string; value : V; expires : Z }.

Record t := Make { maxsize : nat; ttl : Z; entries : list entry }.

(** [TTLCache(maxsize=..., ttl=...)] *)
Definition TTLCache (maxsize : nat) (ttl : Z) : t := Make maxsize ttl [].

Definition held (c : t) (k : string) : option entry :=
  head (filter (fun e => key e = k) (entries c)).

(** Modelled from the spec: [get], the value under [k] as seen at time
    [now]; the entry is invisible once [now] has reached its expiry *)
Definition get (c : t) (k : string) (now : Z) : option V :=
  match held c k with
  | Some e => if bool_decide (now < expires e) then Some (value e) else None
  | None => None
  end.

(** [k in cache] *)
Definition contains (c : t) (k : string) (now : Z) : bool :=
  bool_decide (is_Some (get c k now)).

(** [cache[k]] *)
Definition getitem (c : t) (k : string) (now : Z) : result V :=
  match get c k now with Some v => Ok v | None => Raise (KeyError k) end.

(** Modelled from the spec: what the read [cache[k]] leaves behind: the
    entry read is the most recently used.  A read that finds the entry
    expired raises and is left out of the order: the entry is purged by the
    next write, before the order is consulted again. *)
Definition touch (c : t) (k : string) (now : Z) : t :=
  match held c k with
  | Some e =>
      if bool_decide (now < expires e)
      then Make (maxsize c) (ttl c) (filter (fun e' => key e' <> k) (entries c) ++ [e])
      else c
  | None => c
  end.

(** Modelled from the spec: [put], [cache[k] = v] at time [now]; expired
    entries go, an entry under the same key is replaced, and the least
    recently used entries make room *)
Definition setitem (c : t) (k : string) (v : V) (now : Z) : t :=
  let live := filter (fun e => now < expires e) (entries c) in
  let others := filter (fun e => key e <> k) live in
  let kept := drop (length others + 1 - maxsize c)%nat others in
  Make (maxsize c) (ttl c) (kept ++ [Entry k v (now + ttl c)]).

(** the number of entries held *)
Definition size (c : t) : nat := length (entries c).

End Values.

Arguments entry : clear implicits.
Arguments t : clear implicits.

End Cache.

(** ** Configuration *)

Definition BASE_URL : string := "https://rguktong.ac.in/".

(** [cache = TTLCache(maxsize=200, ttl=3600)] as the process starts *)
Definition cache : Cache.t response := Cache.TTLCache 200 3600.

(** the values [Query(..., enum=[...])] lists for [type] *)
Definition NOTIFICATION_TYPES : list string := ["news_updates"; "tenders"; "careers"].

(** ** Requests in their environment *)

(** an upstream call: [client.get(url)], or [client.post(PROFILE_API,
    data={"email": email})] *)
Inductive call :=
  | GET (url : string)
  | POST_PROFILE (email : option string).

(** What a request meets besides the cache: the clock the cache reads at
    its membership test, at its read and at its write, and the time at
    which each task of the fan-out completes. *)
Record schedule := {
  t_check : Z;
  t_read : Z;
  t_store : Z;
  finish : nat -> Z
}.

Record world := World {
  w_cache : Cache.t response;
  w_calls : list call            (* the upstream calls issued so far *)
}.

(** a handler: it reads and writes the cache, issues calls, and returns or
    raises *)
Definition io (A : Type) : Type := schedule -> world -> world * result A.

#[global] Instance io_ret : MRet io := fun _ a _ w => (w, Ok a).
#[global] Instance io_bind : MBind io := fun _ _ f m s w =>
  match m s w with
  | (w', Ok a) => f a s w'
  | (w', Raise e) => (w', Raise e)
  end.

Definition lift {A} (r : result A) : io A := fun _ w => (w, r).

(** [try: body except: handler] with a bare [except] *)
Definition try_except {A} (body handler : io A) : io A := fun s w =>
  match body s w with
  | (w', Ok a) => (w', Ok a)
  | (w', Raise _) => handler s w'
  end.

Definition cache_contains (k : string) : io bool := fun s w =>
  (w, Ok (Cache.contains (w_cache w) k (t_check s))).

Definition cache_getitem (k : string) : io response := fun s w =>
  (World (Cache.touch (w_cache w) k (t_read s)) (w_calls w),
   Cache.getitem (w_cache w) k (t_read s)).

Definition cache_setitem (k : string) (v : response) : io unit := fun s w =>
  (World (Cache.setitem (w_cache w) k v (t_store s)) (w_calls w), Ok tt).

(** [asyncio.gather]: every task is started, in the order of the list; each
    result is kept with its task as the task completes; when the last one
    has completed the results are read in the order of the tasks. *)
Definition finishes_first (finish : nat -> Z) (i j : nat) : Prop :=
  finish i <= finish j.

#[global] Instance finishes_first_dec finish i j : Decision (finishes_first finish i j).
Proof. unfold finishes_first. apply _. Defined.

Definition completion_order (finish : nat -> Z) (n : nat) : list nat :=
  merge_sort (finishes_first finish) (seq 0 n).

Definition collect {A} (results : list A) (order : list nat) : list (option A) :=
  foldl (fun slots i => <[ i := results !! i ]> slots)
        (replicate (length results) None) order.

Definition gather {A} (tasks : list (io A)) : io (list A) := fun s w =>
  match mapM (M := io) id tasks s w with
  | (w', Ok results) =>
      (w', Ok (omap id (collect results (completion_order (finish s) (length results)))))
  | (w', Raise e) => (w', Raise e)
  end.

Section Scraper.

(** [urllib.parse.urljoin], the standard library's reference resolution.
    It is a parameter; it may raise (the library rejects some malformed
    references). *)
Variable urljoin : string -> string -> result string.

(** *** Helper utils *)

(** [get_abs_url(path)]: [not path] holds for [None] and for the empty
    string. *)
Definition get_abs_url (path : option string) : result (option string) :=
  match path with
  | None => Ok None
  | Some p =>
      if bool_decide (p = "") || bool_decide (p = "#") then Ok None
      else if negb (Py.startswith p "http") then Some <$> urljoin BASE_URL p
      else Ok (Some p)
  end.

(** *** Universal parsers *)

(** [BeautifulSoup(text, 'lxml')]: the HTML parser, a parameter. *)
Variable BeautifulSoup : string -> result node.

(** one entry of ["links"]: [{"text": ..., "url": get_abs_url(a['href'])}] *)
Definition table_link (a : node) : result link_entry :=
  href ← Soup.item a "href";
  url ← get_abs_url (Some href);
  mret {| le_text := Soup.get_text_strip a; le_url := url |}.

(** the body of the loop over rows: [results] after the row *)
Definition table_step (results : list table_row) (row : node)
  : result (list table_row) :=
  let cols := Soup.find_all (Soup.named ["td"]) row in
  match cols with
  | c0 :: c1 :: _ =>                       (* [len(cols) >= 2] *)
      links ← mapM table_link
                (Soup.find_all
                   (fun a => Soup.named ["a"] a && bool_decide (is_Some (Soup.get a "href")))
                   row);
      mret (results ++ [ {| tr_title := Soup.get_text_strip c0;
                            tr_date := Soup.get_text_strip c1;
                            tr_links := links |} ])
  | _ => mret results
  end.

Fixpoint table_loop (results : list table_row) (rows : list node)
  : result (list table_row) :=
  match rows with
  | [] => mret results
  | row :: rows' => results' ← table_step results row; table_loop results' rows'
  end.

(** [parse_generic_table(html)] *)
Definition parse_generic_table (html : string) : result (list table_row) :=
  soup ← BeautifulSoup html;
  match Soup.find (Soup.named ["table"]) soup with
  | Some table => table_loop [] (tail (Soup.find_all (Soup.named ["tr"]) table))
  | None => mret []
  end.

(** *** The extraction of [home_api] *)

Definition home_announcement (a : node) : result announcement :=
  href ← Soup.item a "href";
  link ← get_abs_url (Some href);
  mret {| an_text := Soup.get_text_strip a; an_link := link |}.

Definition home_stat (s : Soup.located) : result stat :=
  label ← match Soup.find_next (Soup.named ["p"]) s with
          | Some p => Ok (Soup.get_text_strip p)
          | None => Raise AttributeError
          end;
  value ← Soup.item (Soup.self s) "data-purecounter-end";
  mret {| st_label := label; st_value := value |}.

Definition home_image (img : node) : result (option string) :=
  src ← Soup.item img "src";
  get_abs_url (Some src).

Definition home_data_of (soup : node) : result home_data :=
  announcements ←
    match Soup.find (Soup.named ["marquee"]) soup with
    | Some _ =>
        match Soup.find_all (Soup.named ["marquee"]) soup with
        | m :: _ => mapM home_announcement (Soup.find_all (Soup.named ["a"]) m)
        | [] => Raise IndexError
        end
    | None => mret []
    end;
  stats ← mapM home_stat
            (Soup.find_all_located
               (fun s => Soup.named ["span"] s && Soup.has_class ["purecounter"] s) soup);
  images ← mapM home_image
             (filter (fun img => truthy_attr (Soup.get img "src") = true)
                     (Soup.find_all (Soup.named ["img"]) soup));
  mret {| hd_announcements := announcements; hd_stats := stats; hd_images := images |}.

(** *** The extraction of [institute_info] *)

(** the walk [curr = h.next_sibling; while curr and curr.name not in
    ['h1', 'h2', 'h3']: ...] over the siblings after a heading *)
Fixpoint section_content (siblings : list node) : list string :=
  match siblings with
  | [] => []
  | curr :: rest =>
      if Soup.truthy curr && negb (Soup.named ["h1"; "h2"; "h3"] curr) then
        (if Soup.named ["p"; "ul"; "li"] curr then [Soup.get_text_strip curr] else [])
        ++ section_content rest
      else []
  end.

Definition institute_section (h : Soup.located) : section :=
  {| sec_title := Soup.get_text_strip (Soup.self h);
     sec_content := section_content (Soup.next_siblings h) |}.

(** [soup.find('div', class_='rgukt-content') or soup.find('div', class_='main-data')] *)
Definition institute_content_area (soup : node) : option node :=
  match Soup.find (fun d => Soup.named ["div"] d && Soup.has_class ["rgukt-content"] d) soup with
  | Some area => Some area
  | None => Soup.find (fun d => Soup.named ["div"] d && Soup.has_class ["main-data"] d) soup
  end.

Definition institute_sections (soup : node) : list section :=
  match institute_content_area soup with
  | Some content_area =>
      institute_section <$>
        Soup.find_all_located
          (fun h => Soup.named ["h1"; "h2"; "h3"] h &&
                    Soup.has_class ["heading-primary"; "heading-secondary"; "heading-teriatiry"] h)
          content_area
  | None => []
  end.

(** [get_abs_url(card.find('img')['src']) if card.find('img') else None] *)
Definition card_photo (card : node) : result (option string) :=
  match Soup.find (Soup.named ["img"]) card with
  | Some img => src ← Soup.item img "src"; get_abs_url (Some src)
  | None => mret None
  end.

Definition institute_card_step (cards : list profile_card) (card_div : node)
  : result (list profile_card) :=
  match Soup.find (Soup.named ["h3"; "h2"]) card_div with
  | Some name_tag =>
      photo ← card_photo card_div;
      mret (cards ++ [ {| pc_name := Soup.get_text_strip name_tag;
                          pc_photo := photo;
                          pc_text := Soup.get_text_strip <$>
                                       Soup.find_all (Soup.named ["p"]) card_div |} ])
  | None => mret cards
  end.

Fixpoint institute_card_loop (cards : list profile_card) (divs : list node)
  : result (list profile_card) :=
  match divs with
  | [] => mret cards
  | d :: divs' => cards' ← institute_card_step cards d; institute_card_loop cards' divs'
  end.

Definition institute_data_of (page : string) (soup : node) : result institute_data :=
  let sections := institute_sections soup in
  cards ← institute_card_loop []
            (Soup.find_all
               (fun d => Soup.named ["div"] d && Soup.has_class ["info-card"; "info-card-1"] d)
               soup);
  mret {| in_page := page; in_sections := sections; in_profiles := cards |}.

(** *** The extraction of [academic_records] *)

(** the walk over the siblings after a heading, collecting the anchors *)
Fixpoint academic_section_links (siblings : list node) : result (list group_link) :=
  match siblings with
  | [] => mret []
  | curr :: rest =>
      if Soup.truthy curr && negb (Soup.named ["h1"; "h3"] curr) then
        here ← (if Soup.named ["a"] curr then
                  href ← Soup.item curr "href";
                  url ← get_abs_url (Some href);
                  mret [ {| gl_label := Soup.get_text_strip curr; gl_url := url |} ]
                else mret []);
        more ← academic_section_links rest;
        mret (here ++ more)
      else mret []
  end.

Definition academic_group (h : Soup.located) : result link_group :=
  section_links ← academic_section_links (Soup.next_siblings h);
  mret {| lg_header := Soup.get_text_strip (Soup.self h); lg_links := section_links |}.

Definition academic_links_of (soup : node) : result (list link_group) :=
  match Soup.find (fun d => Soup.named ["div"] d && Soup.has_class ["rgukt-content"] d) soup with
  | Some content_area =>
      mapM academic_group (Soup.find_all_located (Soup.named ["h1"; "h3"]) content_area)
  | None => mret []
  end.

(** *** The staff directory of [department_staff] *)

(** the filter [action=lambda x: x and 'profile_details.php' in x] *)
Definition profile_form (n : node) : bool :=
  Soup.named ["form"] n &&
  match Soup.get n "action" with
  | Some x => truthy_attr (Some x) && Py.contains "profile_details.php" x
  | None => false
  end.

Definition email_field (n : node) : bool :=
  Soup.named ["input"] n && bool_decide (Soup.get n "name" = Some "email").

Definition staff_card (n : node) : bool :=
  Soup.named ["div"] n && Soup.has_class ["bg-white"; "rounded-lg"] n.

(** the record appended for a form inside [card] *)
Definition staff_of_card (email : option string) (card : node) : result staff_record :=
  let name_tag := Soup.find (Soup.named ["h5"; "h3"]) card in
  photo ← card_photo card;
  mret {| sr_name := match name_tag with
                     | Some t => Soup.get_text_strip t
                     | None => "Unknown"
                     end;
          sr_email := email;
          sr_photo := photo;
          sr_bio := None |}.

(** the loop over the forms, with the two variables it updates *)
Fixpoint staff_loop (staff : list staff_record) (seen : gset (option string))
    (forms : list Soup.located) : result (list staff_record) :=
  match forms with
  | [] => mret staff
  | form :: forms' =>
      match Soup.find email_field (Soup.self form) with
      | None => staff_loop staff seen forms'                 (* [continue] *)
      | Some email_input =>
          let email := Soup.get email_input "value" in
          if bool_decide (email ∈ seen) then staff_loop staff seen forms'
          else
            let seen' := seen ∪ {[ email ]} in
            match Soup.find_parent staff_card form with
            | Some card =>
                s ← staff_of_card email card;
                staff_loop (staff ++ [s]) seen' forms'
            | None => staff_loop staff seen' forms'
            end
      end
  end.

Definition staff_of (soup : node) : result (list staff_record) :=
  staff_loop [] ∅ (Soup.find_all_located profile_form soup).

(** *** The HTTP client *)

(** [client.get(url)]: the text of the response, or an exception of the
    transport.  [client.post(PROFILE_API, data={"email": email},
    timeout=10.0)]: the status code and the text, or an exception. *)
Variable client_get : string -> result string.
Variable client_post : option string -> result (Z * string).

Definition http_get (url : string) : io string := fun _ w =>
  (World (w_cache w) (w_calls w ++ [GET url]), client_get url).

Definition http_post (email : option string) : io (Z * string) := fun _ w =>
  (World (w_cache w) (w_calls w ++ [POST_PROFILE email]), client_post email).

(** *** The deep bio fetcher *)

(** the key of a block: [div.get('id').replace('content-', '').replace('_', ' ').title()] *)
Definition bio_key (id : string) : string :=
  Py.title (Py.replace (Py.replace id "content-" "") "_" " ").

(** the filter [id=lambda x: x and x.startswith('content-')] *)
Definition content_block (n : node) : bool :=
  Soup.named ["div"] n &&
  match Soup.get n "id" with
  | Some x => truthy_attr (Some x) && Py.startswith x "content-"
  | None => false
  end.

(** [items if items else div.get_text(strip=True)] *)
Definition bio_block_value (div : node) : bio_value :=
  let items := Soup.get_text_strip <$> Soup.find_all (Soup.named ["li"]) div in
  match items with
  | [] => BioText (Soup.get_text_strip div)
  | _ :: _ => BioItems items
  end.

Definition bio_block_key (div : node) : string :=
  bio_key (default "" (Soup.get div "id")).

(** the body of the loop: [details[key] = ...] *)
Definition bio_step (details : gmap string bio_value) (div : node)
  : gmap string bio_value :=
  <[ bio_block_key div := bio_block_value div ]> details.

Definition bio_details (p_soup : node) : gmap string bio_value :=
  foldl bio_step ∅ (Soup.find_all content_block p_soup).

Definition DEEP_FETCH_FAILED : gmap string bio_value :=
  {[ "error" := BioText "Deep fetch failed" ]}.

(** [parse_deep_faculty(client, email)] *)
Definition parse_deep_faculty (email : option string) : io (gmap string bio_value) :=
  try_except
    (resp ← http_post email;
     if negb (bool_decide (resp.1 = 200)) then mret ∅
     else
       p_soup ← lift (BeautifulSoup resp.2);
       mret (bio_details p_soup))
    (mret DEEP_FETCH_FAILED).

(** what the fetcher returns for an email, as a function of the answers
    of the upstream and the parser *)
Definition bio_of (email : option string) : gmap string bio_value :=
  match client_post email with
  | Raise _ => DEEP_FETCH_FAILED
  | Ok (status, text) =>
      if bool_decide (status = 200) then
        match BeautifulSoup text with
        | Ok p_soup => bio_details p_soup
        | Raise _ => DEEP_FETCH_FAILED
        end
      else ∅
  end.

(** *** All endpoints *)

(** [GET /api/home] *)
Definition home_api : io response :=
  hit ← cache_contains "home";
  if hit : bool then cache_getitem "home"
  else
    resp ← http_get BASE_URL;
    soup ← lift (BeautifulSoup resp);
    data ← lift (home_data_of soup);
    _ ← cache_setitem "home" (RHome data);
    mret (RHome data).

(** [GET /api/institute/{page}] *)
Definition institute_info (page : string) : io response :=
  hit ← cache_contains page;
  if hit : bool then cache_getitem page
  else
    resp ← http_get (BASE_URL +:+ "instituteinfo.php?data=" +:+ page);
    soup ← lift (BeautifulSoup resp);
    res ← lift (institute_data_of page soup);
    _ ← cache_setitem page (RInstitute res);
    mret (RInstitute res).

(** [GET /api/academics/{page}] *)
Definition academic_records (page : string) : io response :=
  hit ← cache_contains ("acad_" +:+ page);
  if hit : bool then cache_getitem ("acad_" +:+ page)
  else
    resp ← http_get (BASE_URL +:+ "instituteinfo.php?data=" +:+ page);
    soup ← lift (BeautifulSoup resp);
    links ← lift (academic_links_of soup);
    _ ← cache_setitem ("acad_" +:+ page) (RAcademics links);
    mret (RAcademics links).

(** [staff[i]['bio'] = bio] *)
Definition set_bio (bio : gmap string bio_value) (s : staff_record) : staff_record :=
  {| sr_name := sr_name s; sr_email := sr_email s; sr_photo := sr_photo s;
     sr_bio := Some bio |}.

(** [for i, bio in enumerate(bios): staff[i]['bio'] = bio] *)
Fixpoint attach_bios (staff : list staff_record)
    (bios : list (nat * gmap string bio_value)) : result (list staff_record) :=
  match bios with
  | [] => mret staff
  | (i, bio) :: bios' =>
      if bool_decide (i < length staff)%nat
      then attach_bios (alter (set_bio bio) i staff) bios'
      else Raise IndexError
  end.

(** the fan-out under [if deep:]: the tasks are the fetches for the records
    of [staff] in order, [bios] is what [asyncio.gather] returns for them, and
    [for i, bio in enumerate(bios): staff[i]['bio'] = bio] *)
Definition deep_fan_out (deep : bool) (staff : list staff_record)
    : io (list staff_record) :=
  if deep then
    bios ← gather ((fun s => parse_deep_faculty (sr_email s)) <$> staff);
    lift (attach_bios staff (imap pair bios))
  else mret staff.

(** the key [f"dept_{dept_code}_{deep}"] *)
Definition dept_cache_key (dept_code : string) (deep : bool) : string :=
  "dept_" +:+ dept_code +:+ "_" +:+ Py.str_bool deep.

(** [GET /api/departments/{dept_code}?deep=...] *)
Definition department_staff (dept_code : string) (deep : bool) : io response :=
  let cache_key := dept_cache_key dept_code deep in
  hit ← cache_contains cache_key;
  if hit : bool then cache_getitem cache_key
  else
    resp ← http_get (BASE_URL +:+ "departmentinfo.php?department=" +:+ Py.upper dept_code);
    soup ← lift (BeautifulSoup resp);
    staff ← lift (staff_of soup);
    staff ← deep_fan_out deep staff;
    let res := RDepartment {| dd_dept := dept_code; dd_faculties := staff |} in
    _ ← cache_setitem cache_key res;
    mret res.

(** [GET /api/notifications?type=...].  The parameter is declared
    [type: str = Query("news_updates", enum=[...])]: its annotation is [str],
    the default applies when the query has no [type], and [enum] is a
    keyword of the generated schema. *)
Definition news_tenders_careers (type : string) : io response :=
  hit ← cache_contains type;
  if hit : bool then cache_getitem type
  else
    resp ← http_get (BASE_URL +:+ "instituteinfo.php?data=" +:+ type);
    data ← lift (parse_generic_table resp);
    _ ← cache_setitem type (RNotifications data);
    mret (RNotifications data).

(** the requests of the read path, with their parameters as sent *)
Inductive request :=
  | GetHome
  | GetInstitute (page : string)
  | GetAcademics (page : string)
  | GetDepartment (dept_code : string) (deep : option bool)
  | GetNotifications (type : option string).

Definition handle (r : request) : io response :=
  match r with
  | GetHome => home_api
  | GetInstitute page => institute_info page
  | GetAcademics page => academic_records page
  | GetDepartment dept_code deep => department_staff dept_code (default false deep)
  | GetNotifications type => news_tenders_careers (default "news_updates" type)
  end.

(** the states of the service: the cache is empty when the process starts,
    and every request is handled in the state the requests before it left *)
Inductive reachable : world -> Prop :=
| reachable_start : reachable (World cache [])
| reachable_request (w : world) (r : request) (s : schedule) :
    reachable w -> reachable (handle r s w).1.

(** *** What a request amounts to *)

(** the parsed page behind a URL *)
Definition page_of (url : string) : result node :=
  resp ← client_get url; BeautifulSoup resp.

Definition department_url (dept_code : string) : string :=
  BASE_URL +:+ "departmentinfo.php?department=" +:+ Py.upper dept_code.

Definition institute_url (page : string) : string :=
  BASE_URL +:+ "instituteinfo.php?data=" +:+ page.

(** the cache key of a request, the upstream calls it issues when the key
    is not in the cache, and what it then computes *)
Definition cache_key_of (r : request) : string :=
  match r with
  | GetHome => "home"
  | GetInstitute page => page
  | GetAcademics page => "acad_" +:+ page
  | GetDepartment dept_code deep => dept_cache_key dept_code (default false deep)
  | GetNotifications type => default "news_updates" type
  end.

Definition calls_of (r : request) : list call :=
  match r with
  | GetHome => [GET BASE_URL]
  | GetInstitute page => [GET (institute_url page)]
  | GetAcademics page => [GET (institute_url page)]
  | GetDepartment dept_code deep =>
      GET (department_url dept_code) ::
      match (soup ← page_of (department_url dept_code); staff_of soup) with
      | Ok staff =>
          if default false deep
          then (fun r => POST_PROFILE (sr_email r)) <$> staff
          else []
      | Raise _ => []
      end
  | GetNotifications type => [GET (institute_url (default "news_updates" type))]
  end.

Definition fetched (r : request) : result response :=
  match r with
  | GetHome => soup ← page_of BASE_URL; RHome <$> home_data_of soup
  | GetInstitute page =>
      soup ← page_of (institute_url page); RInstitute <$> institute_data_of page soup
  | GetAcademics page =>
      soup ← page_of (institute_url page); RAcademics <$> academic_links_of soup
  | GetDepartment dept_code deep =>
      soup ← page_of (department_url dept_code);
      staff ← staff_of soup;
      mret (RDepartment
              {| dd_dept := dept_code;
                 dd_faculties :=
                   if default false deep
                   then (fun r => set_bio (bio_of (sr_email r)) r) <$> staff
                   else staff |})
  | GetNotifications type =>
      resp ← client_get (institute_url (default "news_updates" type));
      RNotifications <$> parse_generic_table resp
  end.

(** a request answered from the cache when its key is there, and from the
    upstream otherwise, the result being written to the cache *)
Definition answer (r : request) : io response := fun s w =>
  if Cache.contains (w_cache w) (cache_key_of r) (t_check s)
  then (World (Cache.touch (w_cache w) (cache_key_of r) (t_read s)) (w_calls w),
        Cache.getitem (w_cache w) (cache_key_of r) (t_read s))
  else
    (World (match fetched r with
            | Ok resp => Cache.setitem (w_cache w) (cache_key_of r) resp (t_store s)
            | Raise _ => w_cache w
            end)
           (w_calls w ++ calls_of r),
     fetched r).

End Scraper.

Arguments get_abs_url : simpl never.
Arguments Soup.locate_children : simpl never.

(** ** Definitions the statements use *)

(** for every node of a list, the nodes after it, followed by [after] *)
Fixpoint rests (l after : list node) : list (list node) :=
  match l with
  | [] => []
  | _ :: l' => (l' ++ after) :: rests l' after
  end.

(** The spec's test for a reference that is already absolute: it has a
    scheme, a letter followed by letters, digits, [+], [-] or [.] up to a
    colon. *)
Definition scheme_char (c : ascii) : bool :=
  let n := N_of_ascii c in
  Py.islower c || Py.isupper c || ((48 <=? n) && (n <=? 57))%N
  || bool_decide (c = "+"%char) || bool_decide (c = "-"%char) || bool_decide (c = "."%char).

Fixpoint scheme_rest (s : string) : bool :=
  match s with
  | EmptyString => false
  | String c s' => if bool_decide (c = ":"%char) then true else scheme_char c && scheme_rest s'
  end.

Definition has_scheme (s : string) : bool :=
  match s with
  | EmptyString => false
  | String c s' => (Py.islower c || Py.isupper c) && scheme_rest s'
  end.

(** the rows of a table that count: those with at least two cells *)
Definition has_two_columns (row : node) : bool :=
  bool_decide (2 <= length (Soup.find_all (Soup.named ["td"]) row))%nat.

(** the anchors of a row that carry an [href] *)
Definition row_anchors (row : node) : list node :=
  Soup.find_all (fun a => Soup.named ["a"] a && bool_decide (is_Some (Soup.get a "href"))) row.

(** the TableRow of a row: first cell, second cell, the anchors *)
Definition table_row_of (urljoin : string -> string -> result string) (row : node)
    : result table_row :=
  let cols := Soup.find_all (Soup.named ["td"]) row in
  links ← mapM (table_link urljoin) (row_anchors row);
  mret {| tr_title := Soup.get_text_strip (default (Text "") (cols !! 0%nat));
          tr_date := Soup.get_text_strip (default (Text "") (cols !! 1%nat));
          tr_links := links |}.

(** the cells that are the columns of a row: those among its children *)
Definition cell_columns (row : node) : list node :=
  match row with
  | Tag _ _ cs => filter (fun c => Soup.named ["td"] c = true) cs
  | Text _ => []
  end.

(** a table of three rows: the header, a row of one cell, a row of three *)
Definition three_row_page : node :=
  Tag "[document]" [] [ Tag "html" [] [ Tag "body" [] [
    Tag "table" [("class", "table")] [
      Tag "tr" [] [ Tag "th" [] [Text "Title"]; Tag "th" [] [Text "Date"] ];
      Tag "tr" [] [ Tag "td" [("colspan", "3")] [Text "No further entries"] ];
      Tag "tr" [] [ Tag "td" [] [Text " Supply of lab equipment "];
                    Tag "td" [] [Text "01-02-2025"];
                    Tag "td" [] [ Tag "a" [("href", "#")] [Text "View"] ] ] ] ] ] ].

(** a table whose second row has an anchor without [href], and whose third
    row has one cell, which holds a table of one row of two cells *)
Definition nested_table_page : node :=
  Tag "[document]" [] [ Tag "html" [] [ Tag "body" [] [
    Tag "table" [] [
      Tag "tr" [] [ Tag "th" [] [Text "Title"]; Tag "th" [] [Text "Date"] ];
      Tag "tr" [] [ Tag "td" [] [ Tag "a" [("name", "top")] [Text "Results"] ];
                    Tag "td" [] [Text "01-03-2025"] ];
      Tag "tr" [] [ Tag "td" [] [
        Tag "table" [] [
          Tag "tr" [] [ Tag "td" [] [Text "Venue"]; Tag "td" [] [Text "Hall 1"] ] ] ] ] ] ] ] ].

(** a page without a content container whose one info card has a name and
    an image without a source *)
Definition card_without_src_page : node :=
  Tag "[document]" [] [ Tag "html" [] [ Tag "body" [] [
    Tag "div" [("class", "info-card")]
      [ Tag "img" [("alt", "Registrar")] [];
        Tag "h3" [] [Text "Registrar"] ] ] ] ].

(** a department page whose forms carry, in this order, the emails of A, of
    B and of A again, each in a card of its own *)
Definition three_forms_page : node :=
  Tag "[document]" [] [ Tag "html" [] [ Tag "body" [] [
    Tag "div" [("class", "bg-white")]
      [ Tag "h5" [] [Text "Dr. A"];
        Tag "form" [("action", "profiles/profile_details.php")]
          [ Tag "input" [("name", "email"); ("value", "a@rguktong.ac.in")] [] ] ];
    Tag "div" [("class", "bg-white")]
      [ Tag "h5" [] [Text "Dr. B"];
        Tag "form" [("action", "profiles/profile_details.php")]
          [ Tag "input" [("name", "email"); ("value", "b@rguktong.ac.in")] [] ] ];
    Tag "div" [("class", "bg-white")]
      [ Tag "h5" [] [Text "Dr. A, again"];
        Tag "form" [("action", "profiles/profile_details.php")]
          [ Tag "input" [("name", "email"); ("value", "a@rguktong.ac.in")] [] ] ] ] ] ].

(** a page without a table and without a content container *)
Definition bare_page : node :=
  Tag "[document]" [] [ Tag "html" [] [ Tag "body" [] [
    Tag "p" [] [Text "Under maintenance"] ] ] ].

(** the label the spec derives from the suffix of an identifier:
    underscores to spaces, title-cased *)
Definition label_of_suffix (suffix : string) : string :=
  Py.title (Py.replace suffix "_" " ").

(** a profile page with one block whose identifier repeats the prefix *)
Definition repeated_prefix_profile : node :=
  Tag "[document]" [] [ Tag "html" [] [ Tag "body" [] [
    Tag "div" [("id", "content-content-x")] [ Text "Details" ] ] ] ].

(** the email a profile form carries: [None] when the form has no email
    field, [Some None] when the field has no value *)
Definition form_email (form : Soup.located) : option (option string) :=
  (fun email_input => Soup.get email_input "value") <$>
    Soup.find email_field (Soup.self form).

(** the forms with an email that no form before them carries (nor any of
    [earlier]), in document order, each with its email and the card around
    it, if there is one *)
Fixpoint first_forms (earlier : list (option string)) (forms : list Soup.located)
  : list (option string * option node) :=
  match forms with
  | [] => []
  | form :: forms' =>
      match form_email form with
      | None => first_forms earlier forms'
      | Some e =>
          if bool_decide (e ∈ earlier) then first_forms earlier forms'
          else (e, Soup.find_parent staff_card form) :: first_forms (e :: earlier) forms'
      end
  end.

(** those of them that sit in a card *)
Definition carded (firsts : list (option string * option node))
  : list (option string * node) :=
  omap (fun ec => pair ec.1 <$> ec.2) firsts.

(** [form] is the first of [forms] that carries the email [e] *)
Definition first_with_email (forms : list Soup.located) (i : nat)
    (form : Soup.located) (e : option string) : Prop :=
  forms !! i = Some form /\ form_email form = Some e
  /\ forall j form', (j < i)%nat -> forms !! j = Some form' -> form_email form' <> Some e.

(** a department page where the same email is carried by a form outside any
    card and then by a form inside a card *)
Definition repeated_email_page : node :=
  Tag "[document]" [] [ Tag "html" [] [ Tag "body" [] [
    Tag "form" [("action", "profiles/profile_details.php")]
      [ Tag "input" [("name", "email"); ("value", "hod@rguktong.ac.in")] [] ];
    Tag "div" [("class", "bg-white rounded-lg shadow")]
      [ Tag "h5" [] [Text "Dr. A"];
        Tag "form" [("action", "profiles/profile_details.php")]
          [ Tag "input" [("name", "email"); ("value", "hod@rguktong.ac.in")] [] ] ] ] ] ].

(** a department page with two cards for one email and a form without an
    email field *)
Definition two_cards_page : node :=
  Tag "[document]" [] [ Tag "html" [] [ Tag "body" [] [
    Tag "div" [("class", "bg-white rounded-lg")]
      [ Tag "h5" [] [Text " Dr. A "];
        Tag "form" [("action", "profiles/profile_details.php")]
          [ Tag "input" [("name", "email"); ("value", "a@rguktong.ac.in")] [] ] ];
    Tag "div" [("class", "rounded-lg")]
      [ Tag "form" [("action", "profiles/profile_details.php")]
          [ Tag "input" [("name", "token"); ("value", "1")] [] ] ];
    Tag "div" [("class", "bg-white")]
      [ Tag "h3" [] [Text "Dr. A (again)"];
        Tag "form" [("action", "profiles/profile_details.php")]
          [ Tag "input" [("name", "email"); ("value", "a@rguktong.ac.in")] [] ] ] ] ] ].

(** an operation on the cache, with the time at which it happens: the write
    [cache[k] = v] or the read [cache[k]] *)
Inductive cache_op (V : Type) :=
  | Put (k : string) (v : V) (now : Z)
  | Read (k : string) (now : Z).
Arguments Put {V} k v now.
Arguments Read {V} k now.

Definition op_time {V} (op : cache_op V) : Z :=
  match op with Put _ _ now => now | Read _ now => now end.

(** the operation writes under the key [k] *)
Definition overwrites {V} (k : string) (op : cache_op V) : Prop :=
  match op with Put k' _ _ => k' = k | Read _ _ => False end.

Definition operate {V} (c : Cache.t V) (op : cache_op V) : Cache.t V :=
  match op with
  | Put k v now => Cache.setitem c k v now
  | Read k now => Cache.touch c k now
  end.

(** a run of operations *)
Definition operations {V} (c : Cache.t V) (ops : list (cache_op V)) : Cache.t V :=
  foldl operate c ops.

(** the entry [Entry k v expires] is the one under [k], and at most [recent]
    entries have been used after it *)
Definition used_recently {V} (c : Cache.t V) (k : string) (v : V) (expires : Z)
    (recent : nat) : Prop :=
  exists before after,
    Cache.entries c = before ++ Cache.Entry k v expires :: after
    /\ (forall e, e ∈ before ++ after -> Cache.key e <> k)
    /\ (length after <= recent)%nat.

(** two hundred further pages *)
Definition other_pages : list (cache_op response) :=
  (fun i : nat => Put ("acad_" +:+ pretty i) (RAcademics []) 1) <$> seq 0 200.

(** the URLs of a response: announcement links and images, photos, table
    links, academic links *)
Definition urls (resp : response) : list (option string) :=
  match resp with
  | RHome d => (an_link <$> hd_announcements d) ++ hd_images d
  | RInstitute d => pc_photo <$> in_profiles d
  | RAcademics d => gl_url <$> (d ≫= lg_links)
  | RDepartment d => sr_photo <$> dd_faculties d
  | RNotifications d => le_url <$> (d ≫= tr_links)
  end.

(** what [get_abs_url] lets out: nothing; a reference that starts with
    [http], as it is; or what [urljoin] made of a reference that is neither
    empty nor ["#"] and does not start with [http] *)
Definition emitted_url (urljoin : string -> string -> result string)
    (u : option string) : Prop :=
  match u with
  | None => True
  | Some s =>
      Py.startswith s "http" = true
      \/ exists p, p <> "" /\ p <> "#" /\ Py.startswith p "http" = false
                   /\ urljoin BASE_URL p = Ok s
  end.

(** the values in the cache of a state of the service have the URLs that
    [get_abs_url] lets out *)
Definition cache_normalised (urljoin : string -> string -> result string)
    (w : world) : Prop :=
  forall e, e ∈ Cache.entries (w_cache w) ->
    Forall (emitted_url urljoin) (urls (Cache.value e)).

(** a home page whose only image is a relative reference that starts with
    the letters [http] *)
Definition httpd_logo_page : node :=
  Tag "[document]" [] [ Tag "html" [] [ Tag "body" [] [
    Tag "img" [("src", "httpd/logo.png")] [] ] ] ].

(** a schedule in which every clock reading is [t] *)
Definition at_time (t : Z) : schedule :=
  {| t_check := t; t_read := t; t_store := t; finish := fun _ => t |}.

(** ** The rest of [app.py] *)

(** [DEPARTMENTS], the codes the docstring of [department_staff] lists *)
Definition DEPARTMENTS : list string :=
  ["CSE"; "CIVIL"; "ECE"; "EEE"; "ME"; "MATHEMATICS"; "PHYSICS"; "CHEMISTRY"; "IT";
   "BIOLOGY"; "ENGLISH"; "LIB"; "MANAGEMENT"; "PED"; "TELUGU"; "YOGA"].

(** Modelled from the spec: [len(cache)] of the [cachetools] class, the
    current entry count: the entries whose time to live has not elapsed at
    time [now] *)
Definition cache_len {V} (c : Cache.t V) (now : Z) : nat :=
  length (filter (fun e => now < Cache.expires e) (Cache.entries c)).

(** [{"status": ..., "cache_entries": ...}] *)
Record health_data := { he_status : string; he_cache_entries : nat }.

(** [GET /health] *)
Definition health : io health_data := fun s w =>
  (w, Ok {| he_status := "online";
            he_cache_entries := cache_len (w_cache w) (t_check s) |}).

(** the page a request fetches when it misses the cache *)
Definition upstream_url (r : request) : string :=
  match r with
  | GetHome => BASE_URL
  | GetInstitute page => institute_url page
  | GetAcademics page => institute_url page
  | GetDepartment dept_code _ => department_url dept_code
  | GetNotifications type => institute_url (default "news_updates" type)
  end.

(** two requests go to the same endpoint *)
Definition same_endpoint (r r' : request) : bool :=
  match r, r' with
  | GetHome, GetHome => true
  | GetInstitute _, GetInstitute _ => true
  | GetAcademics _, GetAcademics _ => true
  | GetDepartment _ _, GetDepartment _ _ => true
  | GetNotifications _, GetNotifications _ => true
  | _, _ => false
  end.

(** an upstream that cannot be reached *)
Definition unreachable_get (url : string) : result string :=
  Raise (TransportError "connect timeout").
Definition unreachable_post (email : option string) : result (Z * string) :=
  Raise (TransportError "connect timeout").

(** reference resolution on references without dots, scheme or authority,
    against a base that ends in a slash: the reference is appended, without
    a leading slash *)
Definition join_plain (base ref : string) : result string :=
  Ok (base +:+ match ref with
               | String "/" ref' => ref'
               | _ => ref
               end).

(** what [home_api] reads of a page: the anchors of the first [marquee],
    the counters, the images with a source *)
Definition home_anchors (soup : node) : list node :=
  match Soup.find_all (Soup.named ["marquee"]) soup with
  | m :: _ => Soup.find_all (Soup.named ["a"]) m
  | [] => []
  end.

Definition home_counters (soup : node) : list Soup.located :=
  Soup.find_all_located
    (fun s => Soup.named ["span"] s && Soup.has_class ["purecounter"] s) soup.

Definition home_images (soup : node) : list node :=
  filter (fun img => truthy_attr (Soup.get img "src") = true)
         (Soup.find_all (Soup.named ["img"]) soup).

(** [get_abs_url] returns for the reference [p] *)
Definition resolves (urljoin : string -> string -> result string) (p : string) : Prop :=
  returns (get_abs_url urljoin (Some p)).

(** [urljoin] raises [e] on a reference that [get_abs_url] hands to it *)
Definition join_raises (urljoin : string -> string -> result string) (e : exn) : Prop :=
  exists p, p <> "" /\ p <> "#" /\ Py.startswith p "http" = false
            /\ urljoin BASE_URL p = Raise e.

(** the tag has the attribute [k], and its value resolves *)
Definition attr_resolves (urljoin : string -> string -> result string)
    (n : node) (k : string) : Prop :=
  exists p, Soup.get n k = Some p /\ resolves urljoin p.

(** the first image of a card, if the card has an image, has a source that
    resolves *)
Definition photo_resolves (urljoin : string -> string -> result string)
    (card : node) : Prop :=
  forall img, Soup.find (Soup.named ["img"]) card = Some img ->
              attr_resolves urljoin img "src".

(** the cards [institute_info] makes profiles of: those with a name *)
Definition info_cards (soup : node) : list node :=
  Soup.find_all
    (fun d => Soup.named ["div"] d && Soup.has_class ["info-card"; "info-card-1"] d) soup.

Definition card_name (card_div : node) : option node :=
  Soup.find (Soup.named ["h3"; "h2"]) card_div.

Definition named_cards (soup : node) : list node :=
  filter (fun d => is_Some (card_name d)) (info_cards soup).

(** the profile appended for a card with a name *)
Definition profile_of (urljoin : string -> string -> result string) (card_div : node)
    : result profile_card :=
  photo ← card_photo urljoin card_div;
  mret {| pc_name := Soup.get_text_strip (default (Text "") (card_name card_div));
          pc_photo := photo;
          pc_text := Soup.get_text_strip <$> Soup.find_all (Soup.named ["p"]) card_div |}.




(** the requests whose key starts with the name of their endpoint *)
Definition keyed_by_endpoint (r : request) : bool :=
  match r with
  | GetHome | GetAcademics _ | GetDepartment _ _ => true
  | GetInstitute _ | GetNotifications _ => false
  end.

(** a home page: a notice in the marquee, one counter with its label,
    three images, of which one has the source ["#"] and one has none *)
Definition home_page : node :=
  Tag "[document]" [] [ Tag "html" [] [ Tag "body" [] [
    Tag "marquee" [] [ Tag "a" [("href", "/notice.pdf")] [Text " Admissions open "] ];
    Tag "span" [("class", "purecounter"); ("data-purecounter-end", "6000")] [];
    Tag "p" [] [Text "Students"];
    Tag "img" [("src", "#")] [];
    Tag "img" [("alt", "banner")] [];
    Tag "img" [("src", "assets/img/logo.png")] [] ] ] ].





(** every clock reading of a request is before [limit] *)
Definition before (limit : Z) (s : schedule) : Prop :=
  t_check s < limit /\ t_read s < limit /\ t_store s < limit.

(** the state after a run of requests, each with its schedule *)
Definition serve (urljoin : string -> string -> result string)
    (BeautifulSoup : string -> result node) (client_get : string -> result string)
    (client_post : option string -> result (Z * string))
    (requests : list (request * schedule)) (w : world) : world :=
  foldl (fun w rs => (handle urljoin BeautifulSoup client_get client_post rs.1 rs.2 w).1)
        w requests.

(** ** The [result] monad *)

Lemma returns_ok {A} (a : A) : returns (Ok a).
Proof. by exists a. Qed.

(** ** The navigation of a parsed document *)

Lemma node_ind' (P : node -> Prop) :
  (forall s, P (Text s)) ->
  (forall t a cs, Forall P cs -> P (Tag t a cs)) ->
  forall n, P n.
Proof.
  intros HText HTag. fix IH 1. intros [s|t a cs]; [apply HText|].
  apply HTag. induction cs as [|c cs IHcs]; constructor; [apply IH|apply IHcs].
Qed.

Lemma locate_children_cons f after (c : node) (cs : list node) :
  Soup.locate_children f after (c :: cs) =
    f c cs (flat_map Soup.subtree cs ++ after) ++ Soup.locate_children f after cs.
Proof. reflexivity. Qed.

Lemma elem_of_locate_children f after (cs : list node) (l : Soup.located) :
  l ∈ Soup.locate_children f after cs <->
  exists pre c cs', cs = pre ++ c :: cs'
                    /\ l ∈ f c cs' (flat_map Soup.subtree cs' ++ after).
Proof.
  induction cs as [|c cs IH].
  - split; [by intros ?%elem_of_nil|]. intros (pre & c & cs' & Heq & _).
    by destruct pre.
  - rewrite locate_children_cons, elem_of_app, IH. split.
    + intros [Hl|(pre & c' & cs' & -> & Hl)].
      * by exists [], c, cs.
      * by exists (c :: pre), c', cs'.
    + intros ([|c0 pre] & c' & cs' & Heq & Hl); simplify_eq/=.
      * by left.
      * right. by exists pre, c', cs'.
Qed.

(** the located nodes of a tree are its nodes, in document order *)
Lemma locate_self (n : node) (ps sibs after : list node) :
  Soup.self <$> Soup.locate n ps sibs after = Soup.subtree n.
Proof.
  revert ps sibs after. induction n as [s|t a cs IH] using node_ind';
    intros ps sibs after; [done|].
  simpl. f_equal. generalize (Tag t a cs :: ps). intros ps'.
  induction IH as [|c cs Hc _ IHcs]; [done|].
  rewrite locate_children_cons, fmap_app, Hc.
  change (flat_map Soup.subtree (c :: cs))
    with (Soup.subtree c ++ flat_map Soup.subtree cs).
  f_equal. exact IHcs.
Qed.

Lemma rests_app (l1 l2 after : list node) :
  rests (l1 ++ l2) after = rests l1 (l2 ++ after) ++ rests l2 after.
Proof.
  induction l1 as [|x l1 IH]; [done|]. simpl. by rewrite IH, <- app_assoc.
Qed.

(** the nodes after a located node are those after it in document order *)
Lemma locate_next_elements (n : node) (ps sibs after : list node) :
  Soup.next_elements <$> Soup.locate n ps sibs after = rests (Soup.subtree n) after.
Proof.
  revert ps sibs after. induction n as [s|t a cs IH] using node_ind';
    intros ps sibs after; [done|].
  simpl. f_equal. generalize (Tag t a cs :: ps). intros ps'.
  induction IH as [|c cs Hc _ IHcs]; [done|].
  rewrite locate_children_cons, fmap_app, Hc.
  change (flat_map Soup.subtree (c :: cs))
    with (Soup.subtree c ++ flat_map Soup.subtree cs).
  rewrite rests_app. f_equal. exact IHcs.
Qed.

(** a located node below the root has its parent first among its ancestors,
    and is followed among the children of the parent by its next siblings *)
Lemma locate_parent (n : node) (ps sibs after : list node) (l : Soup.located) :
  l ∈ tail (Soup.locate n ps sibs after) ->
  exists l', l' ∈ Soup.locate n ps sibs after
             /\ Soup.parents l = Soup.self l' :: Soup.parents l'
             /\ exists t a pre,
                  Soup.self l' = Tag t a (pre ++ Soup.self l :: Soup.next_siblings l).
Proof.
  revert ps sibs after. induction n as [s|t a cs IH] using node_ind';
    intros ps sibs after; simpl; [by intros ?%elem_of_nil|].
  intros (pre & c & cs' & -> & Hl)%elem_of_locate_children.
  apply Forall_app in IH as [_ [Hc _]%Forall_cons].
  destruct c as [s|t' a' cs'']; simpl in Hl.
  - apply list_elem_of_singleton in Hl as ->. eexists. split; [left|].
    split; [done|]. by exists t, a, pre.
  - apply elem_of_cons in Hl as [->|Hl].
    + eexists. split; [left|]. split; [done|]. by exists t, a, pre.
    + destruct (Hc (Tag t a (pre ++ Tag t' a' cs'' :: cs') :: ps) cs'
                   (flat_map Soup.subtree cs' ++ after))
        as (l' & Hl' & Hparents & Hself); [done|].
      exists l'. split; [|done]. right.
      apply elem_of_locate_children. by exists pre, (Tag t' a' cs''), cs'.
Qed.

Lemma filter_fmap_self {A B} (f : A -> B) (p : B -> bool) (l : list A) :
  f <$> filter (fun x => p (f x) = true) l = filter (fun y => p y = true) (f <$> l).
Proof.
  induction l as [|x l IH]; [done|].
  rewrite fmap_cons, !filter_cons.
  destruct (decide (p (f x) = true)); [rewrite fmap_cons|]; by rewrite IH.
Qed.

(** [find_all] with and without the surroundings finds the same tags *)
Lemma find_all_located_self (p : node -> bool) (root : node) :
  Soup.self <$> Soup.find_all_located p root = Soup.find_all p root.
Proof.
  unfold Soup.find_all_located, Soup.find_all, Soup.descendants.
  by rewrite filter_fmap_self, fmap_tail, locate_self.
Qed.

(** ** The URL normaliser *)

Section Normaliser.
Variable urljoin : string -> string -> result string.

Lemma get_abs_url_absent (raw : option string) :
  raw = None \/ raw = Some "" \/ raw = Some "#" ->
  get_abs_url urljoin raw = Ok None.
Proof. by intros [-> | [-> | ->]]. Qed.

Lemma get_abs_url_http (p : string) :
  Py.startswith p "http" = true -> get_abs_url urljoin (Some p) = Ok (Some p).
Proof.
  intros Hp. unfold get_abs_url. rewrite Hp. simpl.
  destruct p as [|c p]; [done|].
  repeat case_bool_decide; simplify_eq/=; done.
Qed.

Lemma get_abs_url_join (p : string) :
  p <> "" -> p <> "#" -> Py.startswith p "http" = false ->
  get_abs_url urljoin (Some p) = Some <$> urljoin BASE_URL p.
Proof.
  intros H1 H2 Hp. unfold get_abs_url. rewrite Hp.
  by rewrite !bool_decide_eq_false_2.
Qed.

(** [get_abs_url] raises only what [urljoin] raises *)
Lemma get_abs_url_raise (raw : option string) (e : exn) :
  get_abs_url urljoin raw = Raise e -> join_raises urljoin e.
Proof.
  destruct raw as [p|]; [|done]. unfold get_abs_url.
  destruct (bool_decide (p = "")) eqn:H1; [done|].
  destruct (bool_decide (p = "#")) eqn:H2; [done|].
  apply bool_decide_eq_false in H1, H2. simpl.
  destruct (Py.startswith p "http") eqn:Hp; simpl; [done|].
  destruct (urljoin BASE_URL p) as [j|e'] eqn:Hj; simpl; [done|].
  intros [= <-]. by exists p.
Qed.

Lemma get_abs_url_returns (raw : option string) :
  (forall p, returns (urljoin BASE_URL p)) -> returns (get_abs_url urljoin raw).
Proof.
  intros Hjoin. destruct raw as [p|]; [|apply returns_ok]. unfold get_abs_url.
  destruct (bool_decide (p = "") || bool_decide (p = "#")); [apply returns_ok|].
  destruct (Py.startswith p "http"); simpl; [apply returns_ok|].
  destruct (Hjoin p) as [j ->]. apply returns_ok.
Qed.

(** C3 (as amended): [get_abs_url] reads nothing but its argument and
    [urljoin]; it yields [None] for [None], the empty string and ["#"]; it
    yields the input unchanged when the input starts with the four letters
    [http], as ["http://y"] does; in every other case it yields what
    [urljoin(BASE_URL, input)] yields, as for ["/x"], and it raises only what
    that call raises. *)
Theorem get_abs_url_cases (path : option string) :
  get_abs_url urljoin path =
    match path with
    | None => Ok None
    | Some p =>
        if bool_decide (p = "") then Ok None
        else if bool_decide (p = "#") then Ok None
        else if Py.startswith p "http" then Ok (Some p)
        else Some <$> urljoin BASE_URL p
    end
  /\ (returns (get_abs_url urljoin path)
      \/ exists p e, path = Some p /\ urljoin BASE_URL p = Raise e
                     /\ get_abs_url urljoin path = Raise e)
  /\ get_abs_url urljoin (Some "http://y") = Ok (Some "http://y")
  /\ get_abs_url urljoin (Some "/x") = Some <$> urljoin BASE_URL "/x".
Proof.
  split; [|split; [|done]].
  - destruct path as [p|]; [|done]. unfold get_abs_url.
    repeat case_bool_decide; simpl; try done.
    by destruct (Py.startswith p "http").
  - destruct path as [p|]; [|left; apply returns_ok]. unfold get_abs_url.
    destruct (bool_decide (p = "") || bool_decide (p = "#")); [left; apply returns_ok|].
    destruct (Py.startswith p "http"); simpl; [left; apply returns_ok|].
    destruct (urljoin BASE_URL p) as [u|e] eqn:Hj; simpl.
    + left. apply returns_ok.
    + right. by exists p, e.
Qed.

End Normaliser.

(** C3, the input that refutes it as stated: ["httpx"] has no scheme, yet it
    is returned unchanged, whatever [urljoin] would make of it; joined to the
    base it would read differently. *)
Lemma get_abs_url_http_prefix_counterexample :
  has_scheme "http://y" = true /\ has_scheme "mailto:office@rguktong.ac.in" = true
  /\ has_scheme "/x" = false /\ has_scheme "httpx" = false
  /\ (forall urljoin, get_abs_url urljoin (Some "httpx") = Ok (Some "httpx"))
  /\ "httpx" <> BASE_URL +:+ "httpx".
Proof. repeat (split; [reflexivity|]). discriminate. Qed.

(** ** The generic table extractor *)

Section Tables.
Variable urljoin : string -> string -> result string.
Variable BeautifulSoup : string -> result node.

Lemma mapM_returns {A B} (f : A -> result B) (l : list A) :
  (forall x, x ∈ l -> returns (f x)) -> returns (mapM f l).
Proof.
  induction l as [|x l IH]; intros Hl; [apply returns_ok|]. simpl.
  destruct (Hl x) as [y ->]; [left|]. simpl.
  destruct IH as [k ->]; [intros x' Hx'; apply Hl; by right|]. apply returns_ok.
Qed.

Lemma mapM_raise {A B} (f : A -> result B) (l : list A) (e : exn) :
  mapM f l = Raise e -> exists x, x ∈ l /\ f x = Raise e.
Proof.
  induction l as [|x l IH]; simpl; [done|].
  destruct (f x) as [y|e'] eqn:Hx; simpl.
  - destruct (mapM f l) as [k|e']; simpl; [done|].
    intros [= <-]. destruct IH as (x' & ? & ?); [done|].
    exists x'. split; [by right|done].
  - intros [= <-]. exists x. split; [left|done].
Qed.

(** the anchors of a row that give a link are those that carry an [href] *)
Lemma row_anchors_href (row : node) :
  row_anchors row =
    filter (fun a => is_Some (Soup.get a "href")) (Soup.find_all (Soup.named ["a"]) row).
Proof.
  unfold row_anchors, Soup.find_all.
  induction (Soup.descendants row) as [|d l IH]; [done|].
  destruct (Soup.named ["a"] d) eqn:Ha.
  - rewrite (filter_cons_True (fun d => Soup.named ["a"] d = true)) by done.
    destruct (decide (is_Some (Soup.get d "href"))) as [Hh|Hh].
    + rewrite !filter_cons_True; [by f_equal|done|].
      rewrite Ha. simpl. by apply bool_decide_eq_true_2.
    + rewrite !filter_cons_False; [done|done|].
      rewrite Ha. simpl. rewrite bool_decide_eq_false_2 by done. done.
  - rewrite (filter_cons_False (fun d => Soup.named ["a"] d = true)) by (by rewrite Ha).
    rewrite filter_cons_False; [done|]. by rewrite Ha.
Qed.

Lemma table_row_of_raise (row : node) (e : exn) :
  table_row_of urljoin row = Raise e -> join_raises urljoin e.
Proof.
  unfold table_row_of.
  destruct (mapM (table_link urljoin) (row_anchors row)) as [links|e'] eqn:Hl; simpl; [done|].
  intros [= <-]. apply mapM_raise in Hl as (a & Ha & Hraise).
  unfold row_anchors, Soup.find_all in Ha.
  apply list_elem_of_filter in Ha as [Ha _].
  apply andb_true_iff in Ha as [_ [href Hhref]%bool_decide_eq_true].
  unfold table_link, Soup.item in Hraise. rewrite Hhref in Hraise. simpl in Hraise.
  destruct (get_abs_url urljoin (Some href)) as [u|e''] eqn:Hu; simpl in Hraise; [done|].
  injection Hraise as <-. by eapply get_abs_url_raise.
Qed.

Lemma table_row_of_returns (row : node) :
  (forall p, returns (urljoin BASE_URL p)) -> returns (table_row_of urljoin row).
Proof.
  intros Hjoin. unfold table_row_of.
  destruct (mapM_returns (table_link urljoin) (row_anchors row)) as [links ->];
    [|apply returns_ok].
  intros a Ha. unfold row_anchors, Soup.find_all in Ha.
  apply list_elem_of_filter in Ha as [Ha _].
  apply andb_true_iff in Ha as [_ Hhref%bool_decide_eq_true].
  destruct Hhref as [href Hhref]. unfold table_link, Soup.item. rewrite Hhref. simpl.
  destruct (get_abs_url_returns urljoin (Some href) Hjoin) as [u ->]. apply returns_ok.
Qed.

Lemma table_step_skip (results : list table_row) (row : node) :
  has_two_columns row = false -> table_step urljoin results row = Ok results.
Proof.
  unfold has_two_columns, table_step. intros H%bool_decide_eq_false.
  destruct (Soup.find_all _ row) as [|c0 [|c1 cols]]; simpl in *; [done..|lia].
Qed.

Lemma table_step_emit (results : list table_row) (row : node) :
  has_two_columns row = true ->
  table_step urljoin results row = (fun r => results ++ [r]) <$> table_row_of urljoin row.
Proof.
  unfold has_two_columns, table_step, table_row_of, row_anchors.
  intros H%bool_decide_eq_true.
  destruct (Soup.find_all (Soup.named ["td"]) row) as [|c0 [|c1 cols]];
    simpl in *; [lia..|].
  by destruct (mapM _ _).
Qed.

(** the loop appends, in order, the TableRow of every row that has two
    cells; it stops at the first exception *)
Lemma table_loop_spec (rows : list node) (results : list table_row) :
  table_loop urljoin results rows =
    (fun new => results ++ new) <$>
      mapM (table_row_of urljoin) (filter (fun r => has_two_columns r = true) rows).
Proof.
  revert results. induction rows as [|row rows IH]; intros results; simpl.
  - by rewrite app_nil_r.
  - destruct (has_two_columns row) eqn:Hrow.
    + rewrite filter_cons_True by done. rewrite table_step_emit by done. simpl.
      destruct (table_row_of urljoin row) as [r|e]; simpl; [|done].
      rewrite IH.
      destruct (mapM _ _) as [new|e]; simpl; [|done].
      by rewrite <- app_assoc.
    + rewrite filter_cons_False by (by rewrite Hrow).
      rewrite table_step_skip by done. simpl. by rewrite IH.
Qed.

Lemma mapM_result_length {A B} (f : A -> result B) (l : list A) (k : list B) :
  mapM f l = Ok k -> length k = length l.
Proof.
  revert k. induction l as [|x l IH]; intros k; simpl.
  - by intros [= <-].
  - destruct (f x) as [y|e]; simpl; [|done].
    destruct (mapM f l) as [k'|e]; simpl; [|done].
    intros [= <-]. simpl. f_equal. by apply IH.
Qed.

Lemma mapM_result_lookup {A B} (f : A -> result B) (l : list A) (k : list B) (i : nat) (x : A) :
  mapM f l = Ok k -> l !! i = Some x -> exists y, k !! i = Some y /\ f x = Ok y.
Proof.
  revert k i. induction l as [|x' l IH]; intros k i; simpl; [done|].
  destruct (f x') as [y'|e] eqn:Hx'; simpl; [|done].
  destruct (mapM f l) as [k'|e]; simpl; [|done].
  intros [= <-]. destruct i as [|i]; simpl.
  - intros [= <-]. by exists y'.
  - by apply IH.
Qed.

(** C7 (as amended): [parse_generic_table] takes the [tr] elements inside
    the first table, at any depth, leaves the first out whatever it holds,
    and turns every later one that holds at least two [td] elements, at any
    depth, and no other, into a TableRow: the text of the first cell as
    title, of the second as date, and one link for every anchor of the row
    that carries an [href], in any column; an anchor without [href] gives
    no link.  When it returns, it returns one TableRow per such row, in
    order; it returns whenever the parser and [urljoin] do, and raises only
    what they raise.  A page with a header row, a row of one cell and a row
    of three cells gives exactly one TableRow. *)
Theorem parse_generic_table_rows (html : string) :
  parse_generic_table urljoin BeautifulSoup html =
    (soup ← BeautifulSoup html;
     match Soup.find (Soup.named ["table"]) soup with
     | None => Ok []
     | Some table =>
         mapM (table_row_of urljoin)
              (filter (fun r => has_two_columns r = true)
                      (tail (Soup.find_all (Soup.named ["tr"]) table)))
     end)
  /\ (forall soup table rows,
        BeautifulSoup html = Ok soup ->
        Soup.find (Soup.named ["table"]) soup = Some table ->
        parse_generic_table urljoin BeautifulSoup html = Ok rows ->
        let data := filter (fun r => (2 <= length (Soup.find_all (Soup.named ["td"]) r))%nat)
                           (tail (Soup.find_all (Soup.named ["tr"]) table)) in
        length rows = length data
        /\ forall i row, data !! i = Some row ->
             exists c0 c1 links,
               Soup.find_all (Soup.named ["td"]) row !! 0%nat = Some c0
               /\ Soup.find_all (Soup.named ["td"]) row !! 1%nat = Some c1
               /\ mapM (table_link urljoin)
                       (filter (fun a => is_Some (Soup.get a "href"))
                               (Soup.find_all (Soup.named ["a"]) row)) = Ok links
               /\ rows !! i = Some {| tr_title := Soup.get_text_strip c0;
                                      tr_date := Soup.get_text_strip c1;
                                      tr_links := links |})
  /\ ((forall p, returns (urljoin BASE_URL p)) -> returns (BeautifulSoup html) ->
      returns (parse_generic_table urljoin BeautifulSoup html))
  /\ (forall e, parse_generic_table urljoin BeautifulSoup html = Raise e ->
        BeautifulSoup html = Raise e \/ join_raises urljoin e)
  /\ (BeautifulSoup html = Ok three_row_page ->
      parse_generic_table urljoin BeautifulSoup html =
        Ok [ {| tr_title := "Supply of lab equipment";
                tr_date := "01-02-2025";
                tr_links := [ {| le_text := "View"; le_url := None |} ] |} ]).
Proof.
  assert (Heq : parse_generic_table urljoin BeautifulSoup html =
    (soup ← BeautifulSoup html;
     match Soup.find (Soup.named ["table"]) soup with
     | None => Ok []
     | Some table =>
         mapM (table_row_of urljoin)
              (filter (fun r => has_two_columns r = true)
                      (tail (Soup.find_all (Soup.named ["tr"]) table)))
     end)).
  { unfold parse_generic_table. destruct (BeautifulSoup html) as [soup|e]; simpl; [|done].
    destruct (Soup.find _ soup) as [table|]; [|done].
    rewrite table_loop_spec. by destruct (mapM _ _). }
  assert (Hdata : forall l : list node,
            filter (fun r => (2 <= length (Soup.find_all (Soup.named ["td"]) r))%nat) l
            = filter (fun r => has_two_columns r = true) l).
  { intros l. apply list_filter_iff. intros r. unfold has_two_columns.
    by rewrite bool_decide_eq_true. }
  split; [exact Heq|]. split; [|split; [|split]].
  - intros soup table rows Hsoup Htable Hrows data. subst data. rewrite Hdata.
    rewrite Heq, Hsoup in Hrows. simpl in Hrows. rewrite Htable in Hrows.
    split; [by eapply mapM_result_length|].
    intros i row Hrow.
    destruct (mapM_result_lookup _ _ _ _ _ Hrows Hrow) as (r & Hr & Hof).
    assert (Htwo : has_two_columns row = true).
    { apply list_elem_of_lookup_2 in Hrow. by apply list_elem_of_filter in Hrow as [? _]. }
    unfold has_two_columns in Htwo. apply bool_decide_eq_true in Htwo.
    unfold table_row_of in Hof. rewrite <- row_anchors_href.
    destruct (Soup.find_all (Soup.named ["td"]) row) as [|c0 [|c1 cols]] eqn:Hcols;
      simpl in Htwo; [lia..|].
    destruct (mapM (table_link urljoin) (row_anchors row)) as [links|e] eqn:Hl;
      simpl in Hof; [|done].
    injection Hof as <-. by exists c0, c1, links.
  - intros Hjoin [soup Hsoup]. rewrite Heq, Hsoup. simpl.
    destruct (Soup.find _ soup) as [table|]; [|apply returns_ok].
    apply mapM_returns. intros row _. by apply table_row_of_returns.
  - intros e. rewrite Heq. destruct (BeautifulSoup html) as [soup|e']; simpl; [|intros [= <-]; by left].
    destruct (Soup.find _ soup) as [table|]; [|done].
    intros (row & _ & Hraise)%mapM_raise. right. by eapply table_row_of_raise.
  - intros Hsoup. unfold parse_generic_table. rewrite Hsoup. reflexivity.
Qed.

(** C8 (as amended): a missing first table does not raise:
    [parse_generic_table] returns the empty list for every page without a
    table.  A missing content container does not raise either: the sections
    of [institute_info] are then the empty list, and the extraction returns
    exactly when the extraction of the profile cards returns, with the empty
    sections and the profiles of the cards, and raises exactly what the
    extraction of the cards raises; on a page that has no info card either
    it returns the page, no section and no profile. *)
Theorem missing_lookup_degrades (html page : string) (soup : node) :
  BeautifulSoup html = Ok soup ->
  (Soup.find (Soup.named ["table"]) soup = None ->
   parse_generic_table urljoin BeautifulSoup html = Ok [])
  /\ (institute_content_area soup = None ->
      let cards :=
        institute_card_loop urljoin []
          (Soup.find_all
             (fun d => Soup.named ["div"] d
                       && Soup.has_class ["info-card"; "info-card-1"] d) soup) in
      institute_sections soup = []
      /\ institute_data_of urljoin page soup =
           (profiles ← cards;
            Ok {| in_page := page; in_sections := []; in_profiles := profiles |})
      /\ (returns (institute_data_of urljoin page soup) <-> returns cards)
      /\ (forall e, institute_data_of urljoin page soup = Raise e <-> cards = Raise e)
      /\ (info_cards soup = [] ->
          institute_data_of urljoin page soup =
            Ok {| in_page := page; in_sections := []; in_profiles := [] |})).
Proof.
  intros Hsoup. split.
  - intros Htable. unfold parse_generic_table. rewrite Hsoup. simpl. by rewrite Htable.
  - intros Harea cards.
    assert (Hsections : institute_sections soup = [])
      by (unfold institute_sections; by rewrite Harea).
    assert (Heq : institute_data_of urljoin page soup =
                  (profiles ← cards;
                   Ok {| in_page := page; in_sections := []; in_profiles := profiles |}))
      by (unfold institute_data_of; by rewrite Hsections).
    split; [done|]. split; [done|]. rewrite Heq. split; [|split].
    + destruct cards as [profiles|e]; simpl.
      * split; intros _; apply returns_ok.
      * split; by intros [? ?].
    + intros e. destruct cards as [profiles|e']; simpl; [done|].
      split; by intros [= <-].
    + unfold info_cards. intros Hnone. subst cards. by rewrite Hnone.
Qed.

End Tables.

(** C7, the input that refutes it as stated: in the table of this page the
    second row has one anchor, which has no [href], and the TableRow of the
    row has no link; the third row has a single cell as its column, which
    holds a table, and a TableRow is emitted for it, with the text of an
    inner cell as its date, and another for the row of the inner table. *)
Lemma parse_generic_table_anchor_counterexample :
  (exists row2 row3,
     Soup.find_all (Soup.named ["tr"]) nested_table_page !! 1%nat = Some row2
     /\ Soup.find_all (Soup.named ["tr"]) nested_table_page !! 2%nat = Some row3
     /\ length (Soup.find_all (Soup.named ["a"]) row2) = 1%nat
     /\ row_anchors row2 = []
     /\ length (cell_columns row3) = 1%nat
     /\ has_two_columns row3 = true)
  /\ (forall urljoin,
        parse_generic_table urljoin (fun _ => Ok nested_table_page) ""
        = Ok [ {| tr_title := "Results"; tr_date := "01-03-2025"; tr_links := [] |};
               {| tr_title := "VenueHall 1"; tr_date := "Venue"; tr_links := [] |};
               {| tr_title := "Venue"; tr_date := "Hall 1"; tr_links := [] |} ]).
Proof.
  split; [|intros urljoin; reflexivity].
  eexists _, _. repeat split.
Qed.

(** C8, a witness: a page without table and without container, with an
    info card. *)
Lemma missing_lookup_degrades_witness :
  let urljoin := fun _ _ => Raise (ValueError "unused") in
  let soup := card_without_src_page in
  (Soup.find (Soup.named ["table"]) soup = None ->
   parse_generic_table urljoin (fun _ => Ok soup) "" = Ok [])
  /\ (institute_content_area soup = None ->
      let cards :=
        institute_card_loop urljoin []
          (Soup.find_all
             (fun d => Soup.named ["div"] d
                       && Soup.has_class ["info-card"; "info-card-1"] d) soup) in
      institute_sections soup = []
      /\ institute_data_of urljoin "rtiinfo" soup =
           (profiles ← cards;
            Ok {| in_page := "rtiinfo"; in_sections := []; in_profiles := profiles |})
      /\ (returns (institute_data_of urljoin "rtiinfo" soup) <-> returns cards)
      /\ (forall e, institute_data_of urljoin "rtiinfo" soup = Raise e <-> cards = Raise e)
      /\ (info_cards soup = [] ->
          institute_data_of urljoin "rtiinfo" soup =
            Ok {| in_page := "rtiinfo"; in_sections := []; in_profiles := [] |})).
Proof.
  apply (missing_lookup_degrades (fun _ _ => Raise (ValueError "unused"))
           (fun _ => Ok card_without_src_page) "" "rtiinfo" card_without_src_page).
  reflexivity.
Defined.

(** on that page the extraction raises, for the image of the card, which
    has no source *)
Lemma missing_container_card_raises :
  institute_content_area card_without_src_page = None
  /\ forall urljoin,
       institute_data_of urljoin "rtiinfo" card_without_src_page = Raise (KeyError "src").
Proof. split; [reflexivity|]. intros urljoin. reflexivity. Qed.

(** C8, the input that refutes it as stated: on a page with neither a table
    nor a content container both extractors return, with empty results. *)
Lemma missing_lookup_counterexample :
  Soup.find (Soup.named ["table"]) bare_page = None
  /\ institute_content_area bare_page = None
  /\ (forall urljoin,
        parse_generic_table urljoin (fun _ => Ok bare_page) "" = Ok []
        /\ institute_data_of urljoin "scst" bare_page =
             Ok {| in_page := "scst"; in_sections := []; in_profiles := [] |}).
Proof. repeat split. Qed.

(** ** The deep bio fetcher *)

Lemma prefix_split (p s : string) :
  String.prefix p s = true -> exists r, s = p +:+ r.
Proof.
  revert s. induction p as [|c p IH]; intros s.
  - intros _. exists s. reflexivity.
  - destruct s as [|c' s]; [done|]. simpl.
    destruct (Ascii.ascii_dec c c') as [<-|]; [|done].
    intros [r ->]%IH. exists r. reflexivity.
Qed.

(** removing ["content-"] from an identifier that starts with it leaves the
    rest of the identifier with its own occurrences removed *)
Lemma replace_content_prefix (suffix : string) :
  Py.replace ("content-" +:+ suffix) "content-" "" = Py.replace suffix "content-" "".
Proof. by destruct suffix. Qed.

Lemma replace_go_absent (old new s : string) :
  Py.contains old s = false -> Py.replace_go old new 0 s = s.
Proof.
  induction s as [|c s IH]; [done|].
  intros H. change (Py.contains old (String c s))
    with (String.prefix old (String c s) || Py.contains old s) in H.
  apply orb_false_iff in H as [Hp Hc].
  change (Py.replace_go old new 0 (String c s))
    with (if String.prefix old (String c s)
          then new +:+ Py.replace_go old new (Nat.pred (String.length old)) s
          else String c (Py.replace_go old new 0 s)).
  rewrite Hp. by rewrite IH.
Qed.

Section DeepBio.
Variable BeautifulSoup : string -> result node.
Variable client_post : option string -> result (Z * string).

Lemma parse_deep_faculty_run (email : option string) (s : schedule) (w : world) :
  parse_deep_faculty BeautifulSoup client_post email s w =
    (World (w_cache w) (w_calls w ++ [POST_PROFILE email]),
     Ok (bio_of BeautifulSoup client_post email)).
Proof.
  unfold parse_deep_faculty, try_except, bio_of, http_post, mbind, io_bind.
  destruct (client_post email) as [[status text]|e]; simpl; [|done].
  case_bool_decide; simpl; [|done].
  unfold lift. by destruct (BeautifulSoup text).
Qed.

Lemma bio_details_fold (divs : list node) (details : gmap string bio_value) (k : string) :
  foldl bio_step details divs !! k =
    match last (filter (fun d => bio_block_key d = k) divs) with
    | Some d => Some (bio_block_value d)
    | None => details !! k
    end.
Proof.
  revert details. induction divs as [|d divs IH] using rev_ind; intros details; [done|].
  rewrite foldl_app, filter_app. simpl. unfold bio_step at 1.
  destruct (decide (bio_block_key d = k)) as [Hk|Hk].
  - rewrite (filter_cons_True _ d) by done. rewrite filter_nil, last_snoc.
    rewrite <- Hk. apply lookup_insert_eq.
  - rewrite (filter_cons_False _ d) by done. rewrite filter_nil, app_nil_r.
    rewrite lookup_insert_ne by done. apply IH.
Qed.

Lemma content_block_id (div : node) :
  content_block div = true ->
  exists suffix, Soup.get div "id" = Some ("content-" +:+ suffix).
Proof.
  unfold content_block. intros [_ H]%andb_true_iff.
  destruct (Soup.get div "id") as [x|]; [|done].
  apply andb_true_iff in H as [_ H]. apply prefix_split in H as [r ->]. by exists r.
Qed.

(** C4 (as amended): [parse_deep_faculty] issues one POST and always
    returns, whatever the transport and the parser do: the empty mapping when
    the status is not 200; the mapping with the single entry
    ["error": "Deep fetch failed"] when the POST or the parser raises;
    otherwise the mapping of the content blocks of the page.  The key of a
    block is made from the part of its identifier after ["content-"] by
    removing every further ["content-"], turning underscores into spaces and
    title-casing; it is the label of the suffix when the suffix does not
    contain ["content-"].  The value under a key is that of the last block
    with this key: the texts of its list items if it has any, its whole text
    if not. *)
Theorem parse_deep_faculty_fail_soft (email : option string) (s : schedule) (w : world) :
  parse_deep_faculty BeautifulSoup client_post email s w =
    (World (w_cache w) (w_calls w ++ [POST_PROFILE email]),
     Ok (match client_post email with
         | Raise _ => DEEP_FETCH_FAILED
         | Ok (status, text) =>
             if bool_decide (status = 200) then
               match BeautifulSoup text with
               | Ok p_soup => bio_details p_soup
               | Raise _ => DEEP_FETCH_FAILED
               end
             else ∅
         end))
  /\ DEEP_FETCH_FAILED = {[ "error" := BioText "Deep fetch failed" ]}
  /\ (forall p_soup k,
        bio_details p_soup !! k =
          bio_block_value <$>
            last (filter (fun d => bio_block_key d = k)
                         (Soup.find_all content_block p_soup)))
  /\ (forall div, content_block div = true ->
        exists suffix,
          Soup.get div "id" = Some ("content-" +:+ suffix)
          /\ bio_block_key div = label_of_suffix (Py.replace suffix "content-" "")
          /\ (Py.contains "content-" suffix = false ->
              bio_block_key div = label_of_suffix suffix))
  /\ (forall div,
        bio_block_value div =
          match Soup.find_all (Soup.named ["li"]) div with
          | [] => BioText (Soup.get_text_strip div)
          | lis => BioItems (Soup.get_text_strip <$> lis)
          end).
Proof.
  split; [apply parse_deep_faculty_run|]. split; [done|]. split; [|split].
  - intros p_soup k. unfold bio_details. rewrite bio_details_fold.
    by destruct (last _).
  - intros div [suffix Hid]%content_block_id. exists suffix.
    split; [done|]. unfold bio_block_key, bio_key, label_of_suffix. rewrite Hid. simpl.
    rewrite replace_content_prefix. split; [done|].
    intros Hc. unfold Py.replace at 2. by rewrite replace_go_absent.
  - intros div. unfold bio_block_value. by destruct (Soup.find_all _ div).
Qed.

End DeepBio.

(** C4, the inputs that refute it as stated: a block whose identifier is
    ["content-content-x"] has the suffix ["content-x"], whose label is
    ["Content-X"], and is filed under ["X"]; and an answer with the status
    201, a success, is given the empty mapping whatever blocks it holds. *)
Lemma parse_deep_faculty_counterexample :
  label_of_suffix "content-x" = "Content-X"
  /\ bio_details repeated_prefix_profile = {[ "X" := BioText "Details" ]}
  /\ (forall s w,
        (parse_deep_faculty (fun _ => Ok repeated_prefix_profile)
           (fun _ => Ok (200, "")) (Some "a@rguktong.ac.in") s w).2
          = Ok {[ "X" := BioText "Details" ]}
        /\ (parse_deep_faculty (fun _ => Ok repeated_prefix_profile)
              (fun _ => Ok (201, "")) (Some "a@rguktong.ac.in") s w).2 = Ok ∅).
Proof.
  split; [reflexivity|]. split; [reflexivity|]. intros s w. split; reflexivity.
Qed.

(** ** The fan-out of the deep fetch *)

Lemma io_bind_run {A B} (m : io A) (f : A -> io B) (s : schedule) (w : world) :
  (m ≫= f) s w =
    match m s w with
    | (w', Ok a) => f a s w'
    | (w', Raise e) => (w', Raise e)
    end.
Proof. reflexivity. Qed.

Lemma omap_id_Some {A} (l : list A) : omap id (Some <$> l) = l.
Proof. induction l as [|x l IH]; [done|]. simpl. by f_equal. Qed.

Lemma zip_with_fmap_self {A B} (f : A -> B) (g : B -> A -> A) (l : list A) :
  zip_with g (f <$> l) l = (fun x => g (f x) x) <$> l.
Proof. induction l as [|x l IH]; [done|]. simpl. by f_equal. Qed.

Lemma collect_length {A} (results : list A) (order : list nat) (slots : list (option A)) :
  length (foldl (fun slots i => <[ i := results !! i ]> slots) slots order) = length slots.
Proof.
  revert slots. induction order as [|i order IH]; intros slots; [done|].
  simpl. by rewrite IH, length_insert.
Qed.

(** a slot holds the result of its own task as soon as the task is among
    the completed ones, and is untouched before *)
Lemma collect_lookup {A} (results : list A) (order : list nat)
    (slots : list (option A)) (j : nat) :
  (j < length slots)%nat ->
  foldl (fun slots i => <[ i := results !! i ]> slots) slots order !! j =
    if decide (j ∈ order) then Some (results !! j) else slots !! j.
Proof.
  revert slots. induction order as [|i order IH]; intros slots Hj.
  - by rewrite decide_False by apply not_elem_of_nil.
  - simpl. rewrite IH by (by rewrite length_insert).
    destruct (decide (j ∈ order)) as [Hin|Hin].
    + by rewrite decide_True by (by right).
    + destruct (decide (j = i)) as [->|Hne].
      * rewrite decide_True by left. by rewrite list_lookup_insert_eq.
      * rewrite decide_False by (by intros [?|?]%elem_of_cons).
        by rewrite list_lookup_insert_ne.
Qed.

(** whatever the order in which the tasks complete, every slot ends up with
    the result of the task at its position *)
Lemma collect_permutation {A} (results : list A) (order : list nat) :
  order ≡ₚ seq 0 (length results) ->
  collect results order = Some <$> results.
Proof.
  intros Hperm. unfold collect. apply list_eq. intros j.
  destruct (decide (j < length results)%nat) as [Hj|Hj].
  - rewrite collect_lookup by (by rewrite length_replicate).
    rewrite decide_True.
    + rewrite list_lookup_fmap. by destruct (lookup_lt_is_Some_2 results j Hj) as [x ->].
    + rewrite Hperm. apply elem_of_seq. lia.
  - rewrite !lookup_ge_None_2; [done|rewrite length_fmap; lia|].
    rewrite collect_length, length_replicate. lia.
Qed.

Lemma completion_order_permutation (finish : nat -> Z) (n : nat) :
  completion_order finish n ≡ₚ seq 0 n.
Proof. apply merge_sort_Permutation. Qed.

Lemma attach_bios_from (pre rest : list staff_record) (bios : list (gmap string bio_value)) :
  length bios = length rest ->
  attach_bios (pre ++ rest) (imap (fun i bio => (length pre + i, bio)%nat) bios) =
    Ok (pre ++ zip_with set_bio bios rest).
Proof.
  revert pre rest. induction bios as [|bio bios IH]; intros pre rest Hlen.
  - by destruct rest.
  - destruct rest as [|r rest]; [done|]. injection Hlen as Hlen.
    simpl. rewrite bool_decide_eq_true_2 by (rewrite length_app; simpl; lia).
    rewrite alter_app_r. simpl.
    rewrite !(cons_middle (set_bio bio r)), !app_assoc.
    etrans; [|apply (IH (pre ++ [set_bio bio r]) rest Hlen)].
    f_equal. apply imap_ext. intros i x _. simpl. rewrite length_app. simpl.
    f_equal. lia.
Qed.

Lemma attach_bios_enumerate (staff : list staff_record) (bios : list (gmap string bio_value)) :
  length bios = length staff ->
  attach_bios staff (imap pair bios) = Ok (zip_with set_bio bios staff).
Proof. intros Hlen. by apply (attach_bios_from [] staff bios). Qed.

Section FanOut.
Variable BeautifulSoup : string -> result node.
Variable client_post : option string -> result (Z * string).

Local Abbreviation fetch := (parse_deep_faculty BeautifulSoup client_post).
Local Abbreviation bio := (bio_of BeautifulSoup client_post).

(** running the tasks issues one POST per record, in the order of the
    records, and yields the bio of each *)
Lemma tasks_run (staff : list staff_record) (s : schedule) (w : world) :
  mapM (M := io) id ((fun r => fetch (sr_email r)) <$> staff) s w =
    (World (w_cache w) (w_calls w ++ ((fun r => POST_PROFILE (sr_email r)) <$> staff)),
     Ok ((fun r => bio (sr_email r)) <$> staff)).
Proof.
  revert w. induction staff as [|r staff IH]; intros w.
  - simpl. unfold mret, io_ret. rewrite app_nil_r. by destruct w.
  - simpl. rewrite io_bind_run. unfold id at 1. rewrite parse_deep_faculty_run.
    rewrite io_bind_run, IH. simpl. by rewrite <- app_assoc.
Qed.

Lemma gather_run (staff : list staff_record) (s : schedule) (w : world) :
  gather ((fun r => fetch (sr_email r)) <$> staff) s w =
    (World (w_cache w) (w_calls w ++ ((fun r => POST_PROFILE (sr_email r)) <$> staff)),
     Ok ((fun r => bio (sr_email r)) <$> staff)).
Proof.
  unfold gather. rewrite tasks_run.
  rewrite collect_permutation by apply completion_order_permutation.
  by rewrite omap_id_Some.
Qed.

Lemma deep_fan_out_run (deep : bool) (staff : list staff_record) (s : schedule) (w : world) :
  deep_fan_out BeautifulSoup client_post deep staff s w =
    (World (w_cache w)
           (w_calls w ++ if deep then (fun r => POST_PROFILE (sr_email r)) <$> staff else []),
     Ok (if deep then (fun r => set_bio (bio (sr_email r)) r) <$> staff else staff)).
Proof.
  destruct deep; simpl.
  - rewrite io_bind_run, gather_run. unfold lift.
    rewrite attach_bios_enumerate by (by rewrite length_fmap).
    by rewrite zip_with_fmap_self.
  - unfold mret, io_ret. rewrite app_nil_r. by destruct w.
Qed.

End FanOut.

(** ** The staff directory *)

Lemma first_forms_fresh (forms : list Soup.located) (earlier : list (option string)) :
  NoDup ((first_forms earlier forms).*1)
  /\ forall e, e ∈ (first_forms earlier forms).*1 -> e ∉ earlier.
Proof.
  revert earlier. induction forms as [|form forms IH]; intros earlier; simpl.
  - split; [constructor|]. by intros e ?%elem_of_nil.
  - destruct (form_email form) as [e|]; [|apply IH].
    case_bool_decide as He; [apply IH|].
    destruct (IH (e :: earlier)) as [Hnd Hfresh]. split.
    + simpl. constructor; [|done]. intros Hin%Hfresh. apply Hin. left.
    + intros e' [->|Hin]%elem_of_cons; [done|].
      intros He'. apply (Hfresh e' Hin). by right.
Qed.

(** an entry of [first_forms] stands for the first form with its email *)
Lemma first_forms_sound (forms : list Soup.located) (earlier : list (option string))
    (e : option string) (c : option node) :
  (e, c) ∈ first_forms earlier forms ->
  (e ∉ earlier)
  /\ exists i form,
       first_with_email forms i form e /\ c = Soup.find_parent staff_card form.
Proof.
  revert earlier. induction forms as [|form forms IH]; intros earlier; simpl.
  - by intros ?%elem_of_nil.
  - destruct (form_email form) as [e0|] eqn:Hform.
    + case_bool_decide as He0.
      * intros (Hfresh & i & form' & (Hi & He & Hfirst) & Hc)%IH.
        split; [done|]. exists (S i), form'. split; [|done].
        split; [done|]. split; [done|].
        intros [|j] form'' Hj Hlook; simpl in Hlook.
        -- injection Hlook as <-. rewrite Hform. intros [= ->]. done.
        -- apply (Hfirst j); [lia|done].
      * intros [[= -> ->]|Hin]%elem_of_cons.
        -- split; [done|]. exists 0%nat, form. split; [|done].
           split; [done|]. split; [done|]. intros j ? Hj. lia.
        -- apply IH in Hin as (Hfresh & i & form' & (Hi & He & Hfirst) & Hc).
           split; [by intros ?; apply Hfresh; right|].
           exists (S i), form'. split; [|done].
           split; [done|]. split; [done|].
           intros [|j] form'' Hj Hlook; simpl in Hlook.
           ++ injection Hlook as <-. rewrite Hform. intros [= ->].
              apply Hfresh. left.
           ++ apply (Hfirst j); [lia|done].
    + intros (Hfresh & i & form' & (Hi & He & Hfirst) & Hc)%IH.
      split; [done|]. exists (S i), form'. split; [|done].
      split; [done|]. split; [done|].
      intros [|j] form'' Hj Hlook; simpl in Hlook.
      * injection Hlook as <-. by rewrite Hform.
      * apply (Hfirst j); [lia|done].
Qed.

(** the first form with an email is an entry of [first_forms] *)
Lemma first_forms_complete (forms : list Soup.located) (earlier : list (option string))
    (i : nat) (form : Soup.located) (e : option string) :
  first_with_email forms i form e -> e ∉ earlier ->
  (e, Soup.find_parent staff_card form) ∈ first_forms earlier forms.
Proof.
  revert earlier i. induction forms as [|form0 forms IH]; intros earlier i.
  - by intros [? _].
  - intros (Hi & He & Hfirst) Hfresh. simpl. destruct i as [|i]; simpl in Hi.
    + injection Hi as ->. rewrite He. rewrite bool_decide_eq_false_2 by done. left.
    + assert (Hrest : first_with_email forms i form e).
      { split; [done|]. split; [done|]. intros j form' Hj Hlook.
        apply (Hfirst (S j)); [lia|done]. }
      destruct (form_email form0) as [e0|] eqn:Hform0; [|by apply (IH _ i)].
      assert (e0 <> e).
      { intros ->. by apply (Hfirst 0%nat form0); [lia| |]. }
      case_bool_decide; [by apply (IH _ i)|].
      right. apply (IH _ i); [done|]. by intros [?|?]%elem_of_cons.
Qed.

Lemma first_forms_order (forms : list Soup.located) (earlier : list (option string)) :
  (first_forms earlier forms).*1 `sublist_of` omap form_email forms.
Proof.
  revert earlier. induction forms as [|form forms IH]; intros earlier; simpl; [done|].
  destruct (form_email form) as [e|]; [|apply IH].
  case_bool_decide.
  - by apply sublist_cons.
  - simpl. by apply sublist_skip.
Qed.

Lemma carded_elem (firsts : list (option string * option node))
    (e : option string) (card : node) :
  (e, card) ∈ carded firsts <-> (e, Some card) ∈ firsts.
Proof.
  unfold carded. rewrite list_elem_of_omap. split.
  - intros ([e' [c|]] & Hin & Heq); simplify_eq/=. done.
  - intros Hin. by exists (e, Some card).
Qed.

Lemma carded_order (firsts : list (option string * option node)) :
  (carded firsts).*1 `sublist_of` firsts.*1.
Proof.
  induction firsts as [|[e [c|]] firsts IH]; simpl; [done|..].
  - by apply sublist_skip.
  - by apply sublist_cons.
Qed.

Lemma fst_unique {A B} (l : list (A * B)) (a : A) (b1 b2 : B) :
  NoDup (l.*1) -> (a, b1) ∈ l -> (a, b2) ∈ l -> b1 = b2.
Proof.
  induction l as [|[a' b'] l IH]; simpl; [by intros _ ?%elem_of_nil|].
  intros [Hnotin Hnd]%NoDup_cons H1%elem_of_cons H2%elem_of_cons.
  destruct H1 as [H1|H1], H2 as [H2|H2]; simplify_eq.
  - done.
  - exfalso. apply Hnotin. apply list_elem_of_fmap. by exists (a', b2).
  - exfalso. apply Hnotin. apply list_elem_of_fmap. by exists (a', b1).
  - by apply IH.
Qed.

(** the position of the first form with an email is determined *)
Lemma first_with_email_unique (forms : list Soup.located) (i j : nat)
    (form form' : Soup.located) (e : option string) :
  first_with_email forms i form e -> first_with_email forms j form' e -> i = j.
Proof.
  intros (Hi & He & Hfirst) (Hj & He' & Hfirst').
  destruct (Nat.lt_trichotomy i j) as [Hlt|[Heq|Hgt]]; [|done|].
  - by destruct (Hfirst' i form Hlt Hi).
  - by destruct (Hfirst j form' Hgt Hj).
Qed.

Lemma first_with_email_later (forms : list Soup.located) (form0 : Soup.located)
    (i : nat) (form : Soup.located) (e : option string) :
  form_email form0 <> Some e ->
  first_with_email forms i form e -> first_with_email (form0 :: forms) (S i) form e.
Proof.
  intros Hform0 (Hi & He & Hfirst). split; [done|]. split; [done|].
  intros [|j] form' Hj Hlook; simpl in Hlook.
  - by injection Hlook as <-.
  - apply (Hfirst j); [lia|done].
Qed.

Lemma increasing_lookup (l : list nat) (a b x y : nat) :
  StronglySorted lt l -> (a < b)%nat -> l !! a = Some x -> l !! b = Some y -> (x < y)%nat.
Proof.
  intros Hl. revert a b. induction Hl as [|z l _ IH Hz]; intros a b Hab Ha Hb; [done|].
  destruct b as [|b]; [lia|]. simpl in Hb. destruct a as [|a]; simpl in Ha.
  - injection Ha as ->. rewrite Forall_forall in Hz. apply Hz.
    by eapply list_elem_of_lookup_2.
  - apply (IH a b); [lia|done..].
Qed.

(** the records-to-be stand in the order of the forms they come from: the
    positions of these forms increase along the list *)
Lemma carded_first_positions (forms : list Soup.located) (earlier : list (option string)) :
  exists positions : list nat,
    StronglySorted lt positions
    /\ Forall2 (fun i ec => exists form, first_with_email forms i form ec.1)
               positions (carded (first_forms earlier forms)).
Proof.
  revert earlier. induction forms as [|form0 forms IH]; intros earlier.
  - exists []. split; constructor.
  - assert (Hshift : forall earlier',
              (forall e, e ∈ (first_forms earlier' forms).*1 -> form_email form0 <> Some e) ->
              exists positions,
                StronglySorted lt positions
                /\ Forall (lt 0) positions
                /\ Forall2 (fun i ec => exists form, first_with_email (form0 :: forms) i form ec.1)
                           positions (carded (first_forms earlier' forms))).
    { intros earlier' Hfresh. destruct (IH earlier') as (positions & Hsorted & Hall).
      exists (S <$> positions). split; [|split].
      - clear Hall. induction Hsorted as [|z l _ IHl Hz]; [constructor|].
        rewrite fmap_cons. constructor; [done|].
        apply Forall_fmap. eapply Forall_impl; [exact Hz|]. simpl. lia.
      - apply Forall_fmap, Forall_true. simpl. lia.
      - assert (Hside : forall ec, ec ∈ carded (first_forms earlier' forms) ->
                  form_email form0 <> Some ec.1).
        { intros [e card] Hin%carded_elem. apply Hfresh.
          apply list_elem_of_fmap. by exists (e, Some card). }
        clear -Hall Hside.
        induction Hall as [|i ec ps L [form Hform] _ IHall]; [constructor|].
        rewrite fmap_cons. constructor.
        + exists form. apply first_with_email_later; [apply Hside; left|done].
        + apply IHall. intros ec' Hin. apply Hside. by right. }
    simpl. destruct (form_email form0) as [e0|] eqn:Hform0.
    + case_bool_decide as He0.
      * destruct (Hshift earlier) as (positions & ? & _ & ?); [|by exists positions].
        intros e He [= ->]. by destruct (first_forms_fresh forms earlier) as [_ Hf]; apply (Hf e).
      * destruct (Hshift (e0 :: earlier)) as (positions & Hsorted & Hpos & Hall).
        { intros e He [= ->].
          destruct (first_forms_fresh forms (e :: earlier)) as [_ Hf].
          apply (Hf e He). left. }
        unfold carded. simpl. fold (carded (first_forms (e0 :: earlier) forms)).
        destruct (Soup.find_parent staff_card form0) as [card|]; simpl;
          [|by exists positions].
        exists (0%nat :: positions). split; [by constructor|].
        constructor; [|done]. exists form0. simpl.
        split; [done|]. split; [done|]. intros j ? Hj. lia.
    + destruct (Hshift earlier) as (positions & ? & _ & ?); [|by exists positions].
      by intros e _.
Qed.

Section Staff.
Variable urljoin : string -> string -> result string.

Lemma staff_of_card_email (e : option string) (card : node) (r : staff_record) :
  staff_of_card urljoin e card = Ok r -> sr_email r = e.
Proof.
  unfold staff_of_card. destruct (card_photo urljoin card); simpl; [|done].
  by intros [= <-].
Qed.

Lemma mapM_staff_emails (cards : list (option string * node)) (staff : list staff_record) :
  mapM (fun ec => staff_of_card urljoin ec.1 ec.2) cards = Ok staff ->
  sr_email <$> staff = cards.*1.
Proof.
  revert staff. induction cards as [|[e c] cards IH]; intros staff; simpl.
  - by intros [= <-].
  - destruct (staff_of_card urljoin e c) as [r|] eqn:Hr; simpl; [|done].
    destruct (mapM _ cards) as [staff'|]; simpl; [|done].
    intros [= <-]. simpl. f_equal; [by eapply staff_of_card_email|by apply IH].
Qed.

Lemma mapM_result_elem {A B} (f : A -> result B) (l : list A) (k : list B) :
  mapM f l = Ok k ->
  (forall x, x ∈ l -> exists y, y ∈ k /\ f x = Ok y)
  /\ (forall y, y ∈ k -> exists x, x ∈ l /\ f x = Ok y).
Proof.
  revert k. induction l as [|x l IH]; intros k; simpl.
  - intros [= <-]. split; by intros ? ?%elem_of_nil.
  - destruct (f x) as [y|] eqn:Hx; simpl; [|done].
    destruct (mapM f l) as [k'|]; simpl; [|done].
    intros [= <-]. destruct (IH k' eq_refl) as [IH1 IH2]. split.
    + intros x' [->|Hin]%elem_of_cons.
      * exists y. split; [left|done].
      * destruct (IH1 x' Hin) as (y' & ? & ?). exists y'. split; [by right|done].
    + intros y' [->|Hin]%elem_of_cons.
      * exists x. split; [left|done].
      * destruct (IH2 y' Hin) as (x' & ? & ?). exists x'. split; [by right|done].
Qed.

(** the loop appends the record of every first form that sits in a card *)
Lemma staff_loop_spec (forms : list Soup.located) (staff : list staff_record)
    (seen : gset (option string)) (earlier : list (option string)) :
  (forall e, e ∈ seen <-> e ∈ earlier) ->
  staff_loop urljoin staff seen forms =
    (fun new => staff ++ new) <$>
      mapM (fun ec => staff_of_card urljoin ec.1 ec.2) (carded (first_forms earlier forms)).
Proof.
  revert staff seen earlier.
  induction forms as [|form forms IH]; intros staff seen earlier Hseen; simpl.
  - by rewrite app_nil_r.
  - unfold form_email.
    destruct (Soup.find email_field (Soup.self form)) as [email_input|]; simpl;
      [|by apply IH].
    rewrite (bool_decide_ext _ _ (Hseen _)).
    case_bool_decide as He; [by apply IH|].
    assert (Hseen' : forall e, e ∈ seen ∪ {[Soup.get email_input "value"]}
                               <-> e ∈ Soup.get email_input "value" :: earlier).
    { intros e. rewrite elem_of_union, elem_of_singleton, elem_of_cons, Hseen. tauto. }
    destruct (Soup.find_parent staff_card form) as [card|]; simpl; [|by apply IH].
    destruct (staff_of_card urljoin _ card) as [r|]; simpl; [|done].
    rewrite (IH _ _ _ Hseen').
    destruct (mapM _ _) as [new|]; simpl; [|done].
    by rewrite <- app_assoc.
Qed.

Lemma staff_of_spec (soup : node) :
  staff_of urljoin soup =
    mapM (fun ec => staff_of_card urljoin ec.1 ec.2)
         (carded (first_forms [] (Soup.find_all_located profile_form soup))).
Proof.
  unfold staff_of. rewrite (staff_loop_spec _ _ _ []).
  - by destruct (mapM _ _).
  - intros e. split; [by intros ?%not_elem_of_empty|by intros ?%elem_of_nil].
Qed.

(** C6 (as amended): whenever the staff extraction returns, it has at most
    one record per email; every record it has comes from the first form, in
    document order, that carries its email, and from the card around that
    form; an email has a record exactly when the first form that carries it
    sits in a card (later forms with the same email add nothing, with or
    without a card); the records are in the document order of their forms:
    of two records, the one that stands first comes from the form that
    stands first among the forms [find_all] returns; a form without an email
    field gives none. *)
Theorem staff_first_occurrence_wins (soup : node) (staff : list staff_record) :
  staff_of urljoin soup = Ok staff ->
  let forms := Soup.find_all_located profile_form soup in
  NoDup (sr_email <$> staff)
  /\ (forall r, r ∈ staff ->
        exists i form card,
          first_with_email forms i form (sr_email r)
          /\ Soup.find_parent staff_card form = Some card
          /\ staff_of_card urljoin (sr_email r) card = Ok r)
  /\ (forall i form e,
        first_with_email forms i form e ->
        match Soup.find_parent staff_card form with
        | Some card => exists r, r ∈ staff /\ staff_of_card urljoin e card = Ok r
        | None => e ∉ sr_email <$> staff
        end)
  /\ (forall a b r r' i j form form',
        (a < b)%nat -> staff !! a = Some r -> staff !! b = Some r' ->
        first_with_email forms i form (sr_email r) ->
        first_with_email forms j form' (sr_email r') ->
        (i < j)%nat)
  /\ (sr_email <$> staff) `sublist_of` omap form_email forms
  /\ Soup.self <$> forms = Soup.find_all profile_form soup.
Proof.
  intros Hstaff forms. rewrite staff_of_spec in Hstaff. fold forms in Hstaff.
  pose proof (mapM_staff_emails _ _ Hstaff) as Hemails.
  destruct (mapM_result_elem _ _ _ Hstaff) as [Hfwd Hbwd].
  destruct (first_forms_fresh forms []) as [Hnd _].
  split; [|split; [|split; [|split; [|split]]]]; [| | | | |apply find_all_located_self].
  - rewrite Hemails. eapply sublist_NoDup; [done|apply carded_order].
  - intros r Hr. destruct (Hbwd r Hr) as ([e card] & Hin & Hof). simpl in Hof.
    pose proof (staff_of_card_email _ _ _ Hof) as <-.
    apply carded_elem, first_forms_sound in Hin as (_ & i & form & Hfirst & Hcard).
    by exists i, form, card.
  - intros i form e Hfirst.
    pose proof (first_forms_complete forms [] i form e Hfirst) as Hin.
    specialize (Hin ltac:(by intros ?%elem_of_nil)).
    destruct (Soup.find_parent staff_card form) as [card|].
    + apply carded_elem in Hin. destruct (Hfwd _ Hin) as (r & Hr & Hof). by exists r.
    + rewrite Hemails. intros ((e' & card) & -> & Hc)%list_elem_of_fmap.
      apply carded_elem in Hc. simpl in Hin.
      pose proof (fst_unique _ _ _ _ Hnd Hin Hc). done.
  - intros a b r r' i j form form' Hab Ha Hb Hi Hj.
    destruct (carded_first_positions forms []) as (positions & Hsorted & Hall).
    assert (Hpos : forall n r0, staff !! n = Some r0 ->
              exists p form0, positions !! n = Some p
                /\ first_with_email forms p form0 (sr_email r0)).
    { intros n r0 Hn.
      assert (Hlook : (carded (first_forms [] forms)).*1 !! n = Some (sr_email r0))
        by (by rewrite <- Hemails, list_lookup_fmap, Hn).
      rewrite list_lookup_fmap in Hlook.
      destruct (carded (first_forms [] forms) !! n) as [ec|] eqn:Hec; [|done].
      injection Hlook as Heq.
      destruct (Forall2_lookup_r _ _ _ _ _ Hall Hec) as (p & Hp & form0 & Hform0).
      exists p, form0. by rewrite <- Heq. }
    destruct (Hpos a r Ha) as (pa & fa & Hpa & Hfa).
    destruct (Hpos b r' Hb) as (pb & fb & Hpb & Hfb).
    rewrite (first_with_email_unique _ _ _ _ _ _ Hi Hfa).
    rewrite (first_with_email_unique _ _ _ _ _ _ Hj Hfb).
    by eapply increasing_lookup.
  - rewrite Hemails. etrans; [apply carded_order|apply first_forms_order].
Qed.

(** the records extracted from a page carry no bio *)
Lemma staff_of_no_bio (soup : node) (staff : list staff_record) :
  staff_of urljoin soup = Ok staff -> Forall (fun r => sr_bio r = None) staff.
Proof.
  rewrite staff_of_spec. intros Hstaff. apply Forall_forall. intros r Hr.
  destruct (mapM_result_elem _ _ _ Hstaff) as [_ Hback].
  destruct (Hback r Hr) as (ec & _ & Hec). unfold staff_of_card in Hec.
  destruct (card_photo urljoin ec.2); simpl in Hec; [|done]. by injection Hec as <-.
Qed.

End Staff.

(** C6, a witness: forms that carry the emails of A, of B and of A again
    give the record of A, from the first form, and then the record of B. *)
Lemma staff_first_occurrence_wins_witness :
  let urljoin := fun base ref => Ok (base +:+ ref) in
  let staff := [ {| sr_name := "Dr. A"; sr_email := Some "a@rguktong.ac.in";
                    sr_photo := None; sr_bio := None |};
                 {| sr_name := "Dr. B"; sr_email := Some "b@rguktong.ac.in";
                    sr_photo := None; sr_bio := None |} ] in
  let forms := Soup.find_all_located profile_form three_forms_page in
  NoDup (sr_email <$> staff)
  /\ (forall r, r ∈ staff ->
        exists i form card,
          first_with_email forms i form (sr_email r)
          /\ Soup.find_parent staff_card form = Some card
          /\ staff_of_card urljoin (sr_email r) card = Ok r)
  /\ (forall i form e,
        first_with_email forms i form e ->
        match Soup.find_parent staff_card form with
        | Some card => exists r, r ∈ staff /\ staff_of_card urljoin e card = Ok r
        | None => e ∉ sr_email <$> staff
        end)
  /\ (forall a b r r' i j form form',
        (a < b)%nat -> staff !! a = Some r -> staff !! b = Some r' ->
        first_with_email forms i form (sr_email r) ->
        first_with_email forms j form' (sr_email r') ->
        (i < j)%nat)
  /\ (sr_email <$> staff) `sublist_of` omap form_email forms
  /\ Soup.self <$> forms = Soup.find_all profile_form three_forms_page.
Proof.
  apply (staff_first_occurrence_wins (fun base ref => Ok (base +:+ ref)) three_forms_page).
  reflexivity.
Defined.

(** C6, the input that refutes it as stated: two profile forms carry the
    same email, the first outside any card, the second inside one; the first
    takes the email and gives no record, the second is dropped as a repeat,
    and no record is emitted for the email. *)
Lemma staff_first_form_without_card_counterexample :
  (form_email <$> Soup.find_all_located profile_form repeated_email_page)
    = [Some (Some "hod@rguktong.ac.in"); Some (Some "hod@rguktong.ac.in")]
  /\ (forall urljoin, staff_of urljoin repeated_email_page = Ok []).
Proof. split; [reflexivity|]. intros urljoin. reflexivity. Qed.

(** ** The response cache *)

Section CacheLaws.
Context {V : Type}.
Implicit Types (c : Cache.t V) (k : string) (v : V).

Lemma filter_none {A} (P : A -> Prop) `{!forall x, Decision (P x)} (l : list A) :
  (forall x, x ∈ l -> ~ P x) -> filter P l = [].
Proof.
  induction l as [|x l IH]; intros Hl; [done|].
  rewrite filter_cons_False by (apply Hl; left).
  apply IH. intros y Hy. apply Hl. by right.
Qed.

Lemma setitem_entries c k v now :
  exists kept,
    Cache.entries (Cache.setitem c k v now) = kept ++ [Cache.Entry k v (now + Cache.ttl c)]
    /\ (forall e, e ∈ kept -> e ∈ Cache.entries c /\ Cache.key e <> k)
    /\ (length kept <= Cache.maxsize c - 1)%nat.
Proof.
  unfold Cache.setitem. simpl.
  set (live := filter (fun e => now < Cache.expires e) (Cache.entries c)).
  set (others := filter (fun e => Cache.key e <> k) live).
  exists (drop (length others + 1 - Cache.maxsize c) others).
  split; [done|]. split.
  - intros e He. eapply elem_of_sublist in He; [|apply sublist_drop].
    apply list_elem_of_filter in He as [Hk He].
    apply list_elem_of_filter in He as [_ He]. done.
  - rewrite length_drop. lia.
Qed.

Lemma held_app_absent (kept : list (Cache.entry V)) (e : Cache.entry V) k :
  (forall e', e' ∈ kept -> Cache.key e' <> k) -> Cache.key e = k ->
  head (filter (fun e' => Cache.key e' = k) (kept ++ [e])) = Some e.
Proof.
  intros Hkept He. rewrite filter_app.
  rewrite (filter_none _ kept) by (intros x Hx; by apply Hkept).
  simpl. by rewrite filter_cons_True.
Qed.

(** the entry just written is the one held under its key *)
Lemma held_setitem c k v now :
  Cache.held (Cache.setitem c k v now) k = Some (Cache.Entry k v (now + Cache.ttl c)).
Proof.
  destruct (setitem_entries c k v now) as (kept & Heq & Hkept & _).
  unfold Cache.held. rewrite Heq. apply held_app_absent; [|done].
  intros e He. by apply Hkept.
Qed.

Lemma get_setitem c k v now t :
  Cache.get (Cache.setitem c k v now) k t =
    if bool_decide (t < now + Cache.ttl c) then Some v else None.
Proof. unfold Cache.get. by rewrite held_setitem. Qed.

Lemma setitem_config c k v now :
  Cache.maxsize (Cache.setitem c k v now) = Cache.maxsize c
  /\ Cache.ttl (Cache.setitem c k v now) = Cache.ttl c.
Proof. done. Qed.

Lemma setitem_size c k v now :
  (1 <= Cache.maxsize c)%nat ->
  (Cache.size (Cache.setitem c k v now) <= Cache.maxsize c)%nat.
Proof.
  intros Hmax. destruct (setitem_entries c k v now) as (kept & Heq & _ & Hlen).
  unfold Cache.size. rewrite Heq, length_app. simpl. lia.
Qed.

(** an entry held after a write was held before it, or is the one written *)
Lemma setitem_elem c k v now (e : Cache.entry V) :
  e ∈ Cache.entries (Cache.setitem c k v now) ->
  e ∈ Cache.entries c \/ e = Cache.Entry k v (now + Cache.ttl c).
Proof.
  destruct (setitem_entries c k v now) as (kept & Heq & Hkept & _).
  rewrite Heq. intros [Hin|Hin%list_elem_of_singleton]%elem_of_app; [left|by right].
  by apply Hkept.
Qed.

(** after a write the key written has the new entry and no other *)
Lemma setitem_key_unique c k v now (e : Cache.entry V) :
  e ∈ Cache.entries (Cache.setitem c k v now) -> Cache.key e = k ->
  e = Cache.Entry k v (now + Cache.ttl c).
Proof.
  destruct (setitem_entries c k v now) as (kept & Heq & Hkept & _).
  rewrite Heq. intros [Hin|Hin%list_elem_of_singleton]%elem_of_app Hk; [|done].
  by destruct (Hkept e Hin).
Qed.

Lemma held_elem c k (e : Cache.entry V) :
  Cache.held c k = Some e -> e ∈ Cache.entries c /\ Cache.key e = k.
Proof.
  unfold Cache.held. intros H%head_Some_elem_of.
  by apply list_elem_of_filter in H as [? ?].
Qed.

Lemma get_elem c k t v :
  Cache.get c k t = Some v ->
  exists e, e ∈ Cache.entries c /\ Cache.key e = k /\ Cache.value e = v /\ t < Cache.expires e.
Proof.
  unfold Cache.get. destruct (Cache.held c k) as [e|] eqn:He; [|done].
  case_bool_decide; [|done]. intros [= <-].
  apply held_elem in He as [? ?]. by exists e.
Qed.

(** *** Reads *)

Lemma touch_entries c k now :
  Cache.touch c k now = c
  \/ exists e, Cache.held c k = Some e /\ now < Cache.expires e
       /\ Cache.touch c k now =
            Cache.Make (Cache.maxsize c) (Cache.ttl c)
              (filter (fun e' => Cache.key e' <> k) (Cache.entries c) ++ [e]).
Proof.
  unfold Cache.touch. destruct (Cache.held c k) as [e|]; [|by left].
  case_bool_decide; [|by left]. right. by exists e.
Qed.

Lemma touch_config c k now :
  Cache.maxsize (Cache.touch c k now) = Cache.maxsize c
  /\ Cache.ttl (Cache.touch c k now) = Cache.ttl c.
Proof. by destruct (touch_entries c k now) as [->|(e & _ & _ & ->)]. Qed.

(** a read adds no entry *)
Lemma touch_elem c k now (e : Cache.entry V) :
  e ∈ Cache.entries (Cache.touch c k now) -> e ∈ Cache.entries c.
Proof.
  destruct (touch_entries c k now) as [->|(e' & [He' _]%held_elem & _ & ->)]; [done|].
  simpl. intros [[_ Hin]%list_elem_of_filter| ->%list_elem_of_singleton]%elem_of_app; done.
Qed.

Lemma touch_size c k now : (Cache.size (Cache.touch c k now) <= Cache.size c)%nat.
Proof.
  destruct (touch_entries c k now) as [->|(e & He & _ & ->)]; [done|].
  unfold Cache.size. simpl. rewrite length_app. simpl.
  pose proof (filter_app_complement (fun e' => Cache.key e' = k) (Cache.entries c)) as Hperm.
  apply Permutation_length in Hperm. rewrite length_app in Hperm.
  unfold Cache.held in He.
  destruct (filter (fun e' => Cache.key e' = k) (Cache.entries c)); [done|].
  simpl in Hperm. lia.
Qed.

Lemma filter_key_other (l : list (Cache.entry V)) k k' :
  k' <> k ->
  filter (fun e => Cache.key e = k') (filter (fun e => Cache.key e <> k) l)
    = filter (fun e => Cache.key e = k') l.
Proof.
  intros Hk. induction l as [|e l IH]; [done|].
  destruct (decide (Cache.key e = k')) as [He|He].
  - rewrite (filter_cons_True (fun e => Cache.key e <> k)) by congruence.
    rewrite !filter_cons_True by done. by f_equal.
  - rewrite (filter_cons_False (fun e => Cache.key e = k') e l) by done.
    destruct (decide (Cache.key e = k)).
    + by rewrite filter_cons_False by (by intros ?).
    + rewrite filter_cons_True by done. by rewrite filter_cons_False.
Qed.

Lemma filter_key_same (l : list (Cache.entry V)) k :
  filter (fun e => Cache.key e = k) (filter (fun e => Cache.key e <> k) l) = [].
Proof. apply filter_none. by intros e [? _]%list_elem_of_filter. Qed.

(** a read changes no lookup *)
Lemma held_touch c k now k' :
  Cache.held (Cache.touch c k now) k' = Cache.held c k'.
Proof.
  destruct (touch_entries c k now) as [->|(e & He & _ & ->)]; [done|].
  pose proof (held_elem _ _ _ He) as [_ Hkey].
  unfold Cache.held in *. simpl. rewrite filter_app.
  destruct (decide (k' = k)) as [->|Hk].
  - rewrite filter_key_same. simpl.
    by rewrite filter_cons_True, He.
  - rewrite filter_key_other by done.
    rewrite (filter_cons_False _ e) by congruence. by rewrite filter_nil, app_nil_r.
Qed.

Lemma get_touch c k now k' t :
  Cache.get (Cache.touch c k now) k' t = Cache.get c k' t.
Proof. unfold Cache.get. by rewrite held_touch. Qed.

Lemma filter_all {A} (P : A -> Prop) `{!forall x, Decision (P x)} (l : list A) :
  (forall x, x ∈ l -> P x) -> filter P l = l.
Proof.
  induction l as [|x l IH]; intros Hl; [done|].
  rewrite filter_cons_True by (apply Hl; left).
  f_equal. apply IH. intros y Hy. apply Hl. by right.
Qed.

(** the read of the entry just written changes nothing *)
Lemma touch_setitem c k v now t :
  Cache.touch (Cache.setitem c k v now) k t = Cache.setitem c k v now.
Proof.
  destruct (setitem_entries c k v now) as (kept & Heq & Hkept & _).
  unfold Cache.touch. rewrite held_setitem. cbn [Cache.expires].
  case_bool_decide; [|done].
  rewrite Heq, filter_app.
  rewrite (filter_all _ kept) by (intros e He; by apply Hkept).
  rewrite filter_cons_False by (simpl; by intros ?).
  rewrite filter_nil, app_nil_r, <- Heq.
  by destruct (Cache.setitem c k v now).
Qed.

(** *** Runs of operations *)

Lemma operate_elem c (op : cache_op V) (e : Cache.entry V) :
  e ∈ Cache.entries (operate c op) ->
  e ∈ Cache.entries c
  \/ exists k v now, op = Put k v now /\ e = Cache.Entry k v (now + Cache.ttl c).
Proof.
  destruct op as [k v now|k now]; simpl.
  - intros [?| ->]%setitem_elem; [by left|]. right. by exists k, v, now.
  - intros ?%touch_elem. by left.
Qed.

Lemma operate_config c (op : cache_op V) :
  Cache.maxsize (operate c op) = Cache.maxsize c
  /\ Cache.ttl (operate c op) = Cache.ttl c.
Proof. destruct op; [apply setitem_config|apply touch_config]. Qed.

Lemma operations_config c (ops : list (cache_op V)) :
  Cache.maxsize (operations c ops) = Cache.maxsize c
  /\ Cache.ttl (operations c ops) = Cache.ttl c.
Proof.
  revert c. induction ops as [|op ops IH]; intros c; [done|].
  simpl. destruct (IH (operate c op)) as [-> ->]. apply operate_config.
Qed.

Lemma operations_size c (ops : list (cache_op V)) :
  (1 <= Cache.maxsize c)%nat -> (Cache.size c <= Cache.maxsize c)%nat ->
  (Cache.size (operations c ops) <= Cache.maxsize c)%nat.
Proof.
  revert c. induction ops as [|op ops IH]; intros c Hmax Hsize; [done|].
  simpl. destruct (operate_config c op) as [Hm _].
  rewrite <- Hm. apply IH; rewrite Hm; [done|].
  destruct op as [k v now|k now]; simpl.
  - by apply setitem_size.
  - etrans; [apply touch_size|done].
Qed.

(** while other keys are written, and whatever is read, what is held under
    [k] is still the entry written for [k] *)
Lemma operations_other_keys c k v T (ops : list (cache_op V)) (e : Cache.entry V) :
  Forall (fun op => ~ overwrites k op) ops ->
  (forall e, e ∈ Cache.entries c -> Cache.key e = k -> e = Cache.Entry k v T) ->
  e ∈ Cache.entries (operations c ops) -> Cache.key e = k -> e = Cache.Entry k v T.
Proof.
  revert c. induction ops as [|op ops IH]; intros c Hops Hc; simpl.
  - apply Hc.
  - apply Forall_cons in Hops as [Hop Hops].
    apply IH; [done|]. intros e' [Hin|(k' & v' & now & -> & ->)]%operate_elem Hkey.
    + by apply Hc.
    + simpl in *. done.
Qed.

(** *** How long an entry stays *)

Lemma used_recently_held c k v expires recent :
  used_recently c k v expires recent ->
  Cache.held c k = Some (Cache.Entry k v expires).
Proof.
  intros (before & after & Heq & Hother & _). unfold Cache.held.
  rewrite Heq, filter_app.
  rewrite (filter_none _ before)
    by (intros e He; apply Hother, elem_of_app; by left).
  simpl. by rewrite filter_cons_True.
Qed.

Lemma used_recently_get c k v expires recent t :
  used_recently c k v expires recent ->
  Cache.get c k t = if bool_decide (t < expires) then Some v else None.
Proof. intros H. unfold Cache.get. by rewrite (used_recently_held _ _ _ _ _ H). Qed.

Lemma used_recently_mono c k v expires recent recent' :
  (recent <= recent')%nat ->
  used_recently c k v expires recent -> used_recently c k v expires recent'.
Proof.
  intros Hle (before & after & Heq & Hother & Hlen).
  exists before, after. split; [done|]. split; [done|lia].
Qed.

Lemma used_recently_setitem c k v now :
  used_recently (Cache.setitem c k v now) k v (now + Cache.ttl c) 0.
Proof.
  destruct (setitem_entries c k v now) as (kept & Heq & Hkept & _).
  exists kept, []. split; [done|]. split; [|done].
  intros e He. rewrite app_nil_r in He. by apply Hkept.
Qed.

(** a read makes one more entry more recent, at most *)
Lemma used_recently_touch c k v expires recent k' now :
  used_recently c k v expires recent ->
  used_recently (Cache.touch c k' now) k v expires (S recent).
Proof.
  intros Hc. destruct (touch_entries c k' now) as [->|(e & He & _ & ->)];
    [by eapply used_recently_mono; [|exact Hc]; lia|].
  pose proof (used_recently_held _ _ _ _ _ Hc) as Hheld.
  destruct Hc as (before & after & Heq & Hother & Hlen).
  set (P := fun e' : Cache.entry V => Cache.key e' <> k').
  destruct (decide (k' = k)) as [->|Hk].
  - assert (e = Cache.Entry k v expires) as -> by congruence.
    exists (filter P before ++ filter P after), []. simpl. split; [|split; [|lia]].
    + rewrite Heq, filter_app. rewrite filter_cons_False by (by intros ?).
      by rewrite <- app_assoc.
    + intros e'. rewrite app_nil_r.
      intros [[_ ?]%list_elem_of_filter|[_ ?]%list_elem_of_filter]%elem_of_app;
        apply Hother, elem_of_app; [by left|by right].
  - exists (filter P before), (filter P after ++ [e]). simpl. split; [|split].
    + rewrite Heq, filter_app. rewrite filter_cons_True by (unfold P; simpl; congruence).
      by rewrite <- app_assoc.
    + apply held_elem in He as [_ Hkey]. intros e'. rewrite app_assoc.
      intros [Hin| ->%list_elem_of_singleton]%elem_of_app; [|congruence].
      apply Hother.
      apply elem_of_app in Hin as [[_ ?]%list_elem_of_filter|[_ ?]%list_elem_of_filter];
        apply elem_of_app; [by left|by right].
    + rewrite length_app. simpl. pose proof (length_filter P after). lia.
Qed.

(** a write under another key, before the entry expires and while fewer
    entries than the cache holds are more recent, leaves the entry in *)
Lemma used_recently_put c k v expires recent k' v' now :
  used_recently c k v expires recent ->
  k' <> k -> now < expires -> (recent + 2 <= Cache.maxsize c)%nat ->
  used_recently (Cache.setitem c k' v' now) k v expires (S recent).
Proof.
  intros (before & after & Heq & Hother & Hlen) Hk Hnow Hroom.
  unfold Cache.setitem. simpl.
  set (live := fun e : Cache.entry V => now < Cache.expires e).
  set (P := fun e : Cache.entry V => Cache.key e <> k').
  set (E := Cache.Entry k v expires) in *.
  assert (Hothers : filter P (filter live (Cache.entries c))
                    = filter P (filter live before) ++ E :: filter P (filter live after)).
  { rewrite Heq, filter_app, (filter_cons_True live) by done.
    rewrite filter_app. by rewrite (filter_cons_True P) by (unfold P; simpl; congruence). }
  rewrite Hothers.
  set (bf := filter P (filter live before)) in *.
  set (af := filter P (filter live after)) in *.
  assert (Haf : (length af <= length after)%nat).
  { unfold af. etrans; apply length_filter. }
  rewrite length_app. simpl.
  rewrite drop_app_le by lia.
  exists (drop (length bf + S (length af) + 1 - Cache.maxsize c) bf),
         (af ++ [Cache.Entry k' v' (now + Cache.ttl c)]).
  split; [by rewrite <- app_assoc|]. split.
  - intros e. rewrite app_assoc.
    intros [Hin| ->%list_elem_of_singleton]%elem_of_app; [|simpl; congruence].
    apply Hother. apply elem_of_app in Hin as [Hin|Hin]; apply elem_of_app.
    + left. eapply elem_of_sublist in Hin; [|apply sublist_drop].
      apply list_elem_of_filter in Hin as [_ Hin].
      by apply list_elem_of_filter in Hin as [_ Hin].
    + right. apply list_elem_of_filter in Hin as [_ Hin].
      by apply list_elem_of_filter in Hin as [_ Hin].
  - rewrite length_app. simpl. lia.
Qed.

Lemma used_recently_operations c k v expires recent (ops : list (cache_op V)) :
  used_recently c k v expires recent ->
  Forall (fun op => ~ overwrites k op) ops ->
  Forall (fun op => op_time op < expires) ops ->
  (recent + length ops + 1 <= Cache.maxsize c)%nat ->
  used_recently (operations c ops) k v expires (recent + length ops).
Proof.
  revert c recent. induction ops as [|op ops IH]; intros c recent Hc Hops Htimes Hroom.
  - simpl. by rewrite Nat.add_0_r.
  - apply Forall_cons in Hops as [Hop Hops]. apply Forall_cons in Htimes as [Htime Htimes].
    simpl in Hroom. simpl.
    replace (recent + S (length ops))%nat with (S recent + length ops)%nat by lia.
    apply IH; [|done|done|destruct (operate_config c op) as [-> _]; lia].
    destruct op as [k' v' now|k' now]; simpl in *.
    + apply used_recently_put; [done|done|done|lia].
    + by apply used_recently_touch.
Qed.

(** C10 (as amended): in a cache of at most 200 entries that keeps them for
    3600 seconds, a value written under a key at time [T] is what a lookup
    of the key returns before [T + 3600]: at once after the write; after
    fewer than 200 further operations, which may be writes under other keys
    and reads of any key (they happen before the lookup, so before
    [T + 3600]); and after any number of them as long as the entry is still
    held (the cache displaces the least recently used entry to stay within
    its 200 entries).  From [T + 3600] on every lookup of the key finds it
    absent, whether or not the entry is still held.  The cache never holds
    more than 200 entries. *)
Theorem cache_honours_ttl c k v (T : Z) (ops : list (cache_op V)) :
  Cache.maxsize c = 200%nat -> Cache.ttl c = 3600 ->
  Forall (fun op => ~ overwrites k op) ops ->
  let written := Cache.setitem c k v T in
  let later := operations written ops in
  (forall t, t < T + 3600 -> Cache.get written k t = Some v)
  /\ ((length ops < 200)%nat -> Forall (fun op => op_time op < T + 3600) ops ->
      forall t, t < T + 3600 -> Cache.get later k t = Some v)
  /\ (forall t, t < T + 3600 -> is_Some (Cache.held later k) ->
        Cache.get later k t = Some v)
  /\ (forall t, T + 3600 <= t ->
        Cache.get later k t = None /\ Cache.contains later k t = false)
  /\ (Cache.size written <= 200)%nat /\ (Cache.size later <= 200)%nat.
Proof.
  intros Hmax Httl Hops written later.
  assert (Hheld : forall e, Cache.held later k = Some e -> e = Cache.Entry k v (T + 3600)).
  { intros e [Hin Hkey]%held_elem.
    apply (operations_other_keys written k v (T + 3600) ops); [done| |done..].
    intros e' He' Hk. rewrite <- Httl. by apply setitem_key_unique. }
  split; [|split; [|split; [|split; [|split]]]].
  - intros t Ht. unfold written. rewrite get_setitem, Httl.
    by rewrite bool_decide_eq_true_2.
  - intros Hfew Htimes t Ht.
    pose proof (used_recently_setitem c k v T) as Hwritten. rewrite Httl in Hwritten.
    apply (used_recently_operations _ _ _ _ _ ops) in Hwritten;
      [|done|done|simpl; rewrite Hmax; lia].
    unfold later, written.
    rewrite (used_recently_get _ _ _ _ _ t Hwritten). by rewrite bool_decide_eq_true_2.
  - intros t Ht [e He]. unfold Cache.get. rewrite He.
    rewrite (Hheld e He). simpl. by rewrite bool_decide_eq_true_2.
  - intros t Ht.
    assert (Hget : Cache.get later k t = None).
    { unfold Cache.get. destruct (Cache.held later k) as [e|]; [|done].
      rewrite (Hheld e eq_refl). simpl. rewrite bool_decide_eq_false_2; [done|lia]. }
    split; [done|]. unfold Cache.contains. rewrite Hget.
    apply bool_decide_eq_false_2. by intros [? ?].
  - unfold written. rewrite <- Hmax. apply setitem_size. lia.
  - unfold later.
    replace 200%nat with (Cache.maxsize written) by done.
    apply operations_size; simpl; [lia|].
    apply setitem_size. lia.
Qed.

End CacheLaws.

(** C10, a witness: the home page written at time 0, then the tenders, and
    a read of the tenders. *)
Lemma cache_honours_ttl_witness :
  let home := RHome {| hd_announcements := []; hd_stats := []; hd_images := [] |} in
  let ops := [Put "tenders" (RNotifications []) 5; Read "tenders" 6; Read "home" 7] in
  let written := Cache.setitem cache "home" home 0 in
  let later := operations written ops in
  (forall t, t < 0 + 3600 -> Cache.get written "home" t = Some home)
  /\ ((length ops < 200)%nat -> Forall (fun op => op_time op < 0 + 3600) ops ->
      forall t, t < 0 + 3600 -> Cache.get later "home" t = Some home)
  /\ (forall t, t < 0 + 3600 -> is_Some (Cache.held later "home") ->
        Cache.get later "home" t = Some home)
  /\ (forall t, 0 + 3600 <= t ->
        Cache.get later "home" t = None /\ Cache.contains later "home" t = false)
  /\ (Cache.size written <= 200)%nat /\ (Cache.size later <= 200)%nat.
Proof.
  apply (cache_honours_ttl cache "home"
           (RHome {| hd_announcements := []; hd_stats := []; hd_images := [] |})
           0 [Put "tenders" (RNotifications []) 5; Read "tenders" 6; Read "home" 7]).
  - reflexivity.
  - reflexivity.
  - repeat constructor; simpl; [discriminate|tauto..].
Defined.

(** C10, the input that refutes it as stated: the home page is written at
    time 0 and two hundred other pages at time 1; at time 2, long before
    3600, the home page is no longer returned, because the cache keeps 200
    entries and it was the least recently used. *)
Lemma cache_capacity_counterexample :
  let home := RHome {| hd_announcements := []; hd_stats := []; hd_images := [] |} in
  let written := Cache.setitem cache "home" home 0 in
  let later := operations written other_pages in
  Cache.get written "home" 2 = Some home
  /\ Forall (fun op => ~ overwrites "home" op) other_pages
  /\ Cache.get later "home" 2 = None
  /\ Cache.size later = 200%nat.
Proof.
  split; [reflexivity|]. split; [|split; vm_compute; reflexivity].
  apply Forall_fmap, Forall_forall. intros i _. simpl. discriminate.
Qed.

(** ** The endpoints *)

Section Endpoints.
Variable urljoin : string -> string -> result string.
Variable BeautifulSoup : string -> result node.
Variable client_get : string -> result string.
Variable client_post : option string -> result (Z * string).

Local Abbreviation handle' := (handle urljoin BeautifulSoup client_get client_post).
Local Abbreviation answer' := (answer urljoin BeautifulSoup client_get client_post).
Local Abbreviation fetched' := (fetched urljoin BeautifulSoup client_get client_post).
Local Abbreviation calls_of' := (calls_of urljoin BeautifulSoup client_get).
Local Abbreviation reachable' := (reachable urljoin BeautifulSoup client_get client_post).

Ltac run_io :=
  unfold mbind, io_bind, mret, io_ret, lift, cache_contains, cache_getitem,
    cache_setitem, http_get; simpl.

(** every handler answers from the cache when its key is there, and
    otherwise fetches, computes, stores and returns *)
Lemma handle_answer (r : request) (s : schedule) (w : world) :
  handle' r s w = answer' r s w.
Proof.
  destruct w as [c calls].
  destruct r as [|page|page|dept_code deep|type]; unfold answer; simpl.
  - unfold home_api. run_io.
    destruct (Cache.contains c "home" (t_check s)); [done|].
    unfold page_of. destruct (client_get BASE_URL) as [resp|]; simpl; [|done].
    destruct (BeautifulSoup resp) as [soup|]; simpl; [|done].
    by destruct (home_data_of urljoin soup).
  - unfold institute_info. run_io.
    destruct (Cache.contains c page (t_check s)); [done|].
    unfold page_of, institute_url.
    destruct (client_get _) as [resp|]; simpl; [|done].
    destruct (BeautifulSoup resp) as [soup|]; simpl; [|done].
    by destruct (institute_data_of urljoin page soup).
  - unfold academic_records. run_io.
    destruct (Cache.contains c _ (t_check s)); [done|].
    unfold page_of, institute_url.
    destruct (client_get _) as [resp|]; simpl; [|done].
    destruct (BeautifulSoup resp) as [soup|]; simpl; [|done].
    by destruct (academic_links_of urljoin soup).
  - unfold department_staff. run_io.
    destruct (Cache.contains c _ (t_check s)); [done|].
    unfold page_of, department_url.
    destruct (client_get _) as [resp|]; simpl; [|done].
    destruct (BeautifulSoup resp) as [soup|]; simpl; [|done].
    destruct (staff_of urljoin soup) as [staff|]; simpl; [|done].
    rewrite deep_fan_out_run. simpl. rewrite <- app_assoc. simpl.
    by destruct (default false deep).
  - unfold news_tenders_careers. run_io.
    destruct (Cache.contains c _ (t_check s)); [done|].
    unfold institute_url.
    destruct (client_get _) as [resp|]; simpl; [|done].
    by destruct (parse_generic_table urljoin BeautifulSoup resp).
Qed.

(** a request whose key is not in the cache issues its upstream calls *)
Lemma miss_fetches (r : request) (s : schedule) (w : world) :
  Cache.contains (w_cache w) (cache_key_of r) (t_check s) = false ->
  w_calls (handle' r s w).1 = w_calls w ++ calls_of' r /\ calls_of' r <> [].
Proof.
  intros Hmiss. rewrite handle_answer. unfold answer. rewrite Hmiss. simpl.
  split; [done|]. by destruct r.
Qed.

(** C5: without [deep] the staff list is returned as it is, without any
    bio and without any call; with [deep] one POST is issued for every
    record, in the order of the records, and when all have completed the
    record at position [i] is the record that was at position [i], with the
    same name, email and photo, and its bio is the bio fetched for its own
    email, whatever the times at which the fetches complete.  So
    [/api/departments/{dept_code}], when it has extracted a staff list,
    whose records have no bio, answers with that list, unchanged or with
    the bios, and with these calls. *)
Theorem deep_fan_out_by_position (deep : bool) (staff : list staff_record)
    (s : schedule) (w : world) :
  deep_fan_out BeautifulSoup client_post deep staff s w =
    (World (w_cache w)
           (w_calls w ++ if deep then (fun r => POST_PROFILE (sr_email r)) <$> staff else []),
     Ok (if deep
         then (fun r => set_bio (bio_of BeautifulSoup client_post (sr_email r)) r) <$> staff
         else staff))
  /\ (forall staff', (deep_fan_out BeautifulSoup client_post deep staff s w).2 = Ok staff' ->
        length staff' = length staff
        /\ forall i r, staff !! i = Some r ->
             exists r',
               staff' !! i = Some r'
               /\ r' = (if deep
                        then set_bio (bio_of BeautifulSoup client_post (sr_email r)) r
                        else r)
               /\ sr_name r' = sr_name r /\ sr_email r' = sr_email r
               /\ sr_photo r' = sr_photo r
               /\ sr_bio r' = if deep
                              then Some (bio_of BeautifulSoup client_post (sr_email r))
                              else sr_bio r)
  /\ (forall i r, staff !! i = Some r ->
        (parse_deep_faculty BeautifulSoup client_post (sr_email r) s w).2
          = Ok (bio_of BeautifulSoup client_post (sr_email r)))
  /\ (forall dept_code soup,
        Cache.contains (w_cache w) (dept_cache_key dept_code deep) (t_check s) = false ->
        page_of BeautifulSoup client_get (department_url dept_code) = Ok soup ->
        staff_of urljoin soup = Ok staff ->
        let res :=
          RDepartment
            {| dd_dept := dept_code;
               dd_faculties :=
                 if deep
                 then (fun r => set_bio (bio_of BeautifulSoup client_post (sr_email r)) r)
                        <$> staff
                 else staff |} in
        Forall (fun r => sr_bio r = None) staff
        /\ handle' (GetDepartment dept_code (Some deep)) s w =
             (World (Cache.setitem (w_cache w) (dept_cache_key dept_code deep) res (t_store s))
                    (w_calls w ++ GET (department_url dept_code) ::
                       if deep then (fun r => POST_PROFILE (sr_email r)) <$> staff else []),
              Ok res)).
Proof.
  split; [apply deep_fan_out_run|]. split; [|split].
  - intros staff'. rewrite deep_fan_out_run. simpl. intros [= <-].
    split; [destruct deep; [by rewrite length_fmap|done]|].
    intros i r Hr. destruct deep; eexists.
    + split; [by rewrite list_lookup_fmap, Hr|done].
    + split; [exact Hr|done].
  - intros i r _. by rewrite parse_deep_faculty_run.
  - intros dept_code soup Hmiss Hsoup Hstaff res.
    split; [by eapply staff_of_no_bio|]. rewrite handle_answer.
    unfold answer. simpl. rewrite Hmiss, Hsoup. simpl. by rewrite Hstaff.
Qed.

(** *** Every URL goes through [get_abs_url] *)

Lemma get_abs_url_emitted (raw u : option string) :
  get_abs_url urljoin raw = Ok u -> emitted_url urljoin u.
Proof.
  destruct raw as [p|]; [|by intros [= <-]]. unfold get_abs_url.
  destruct (bool_decide (p = "")) eqn:H1; [by intros [= <-]|].
  destruct (bool_decide (p = "#")) eqn:H2; [by intros [= <-]|].
  apply bool_decide_eq_false in H1, H2. simpl.
  destruct (Py.startswith p "http") eqn:Hp; simpl.
  - intros [= <-]. by left.
  - destruct (urljoin BASE_URL p) as [j|] eqn:Hj; simpl; [|done].
    intros [= <-]. right. by exists p.
Qed.

Lemma mapM_result_Forall {A B} (f : A -> result B) (P : B -> Prop)
    (l : list A) (k : list B) :
  (forall x y, f x = Ok y -> P y) -> mapM f l = Ok k -> Forall P k.
Proof.
  intros Hf Hk. apply Forall_forall. intros y Hy.
  destruct (mapM_result_elem f l k Hk) as [_ Hback].
  destruct (Hback y Hy) as (x & _ & Hx). by eapply Hf.
Qed.

Lemma card_photo_emitted (card : node) (u : option string) :
  card_photo urljoin card = Ok u -> emitted_url urljoin u.
Proof.
  unfold card_photo. destruct (Soup.find _ card) as [img|]; [|by intros [= <-]].
  destruct (Soup.item img "src") as [src|]; simpl; [|done].
  apply get_abs_url_emitted.
Qed.

Lemma table_rows_emitted (html : string) (rows : list table_row) :
  parse_generic_table urljoin BeautifulSoup html = Ok rows ->
  Forall (emitted_url urljoin) (le_url <$> (rows ≫= tr_links)).
Proof.
  unfold parse_generic_table.
  destruct (BeautifulSoup html) as [soup|]; simpl; [|done].
  destruct (Soup.find _ soup) as [table|]; [|by intros [= <-]; constructor].
  rewrite table_loop_spec.
  destruct (mapM _ _) as [new|] eqn:Hnew; simpl; [|done]. intros [= <-].
  apply Forall_fmap, Forall_bind.
  eapply mapM_result_Forall; [|exact Hnew].
  intros row r. unfold table_row_of.
  destruct (mapM (table_link urljoin) _) as [links|] eqn:Hlinks; simpl; [|done].
  intros [= <-]. simpl.
  eapply mapM_result_Forall; [|exact Hlinks].
  intros a l. unfold table_link.
  destruct (Soup.item a "href") as [href|]; simpl; [|done].
  destruct (get_abs_url urljoin (Some href)) as [u|] eqn:Hu; simpl; [|done].
  intros [= <-]. simpl. by eapply get_abs_url_emitted.
Qed.

Lemma home_data_emitted (soup : node) (d : home_data) :
  home_data_of urljoin soup = Ok d ->
  Forall (emitted_url urljoin) ((an_link <$> hd_announcements d) ++ hd_images d).
Proof.
  unfold home_data_of.
  set (anns := match Soup.find (Soup.named ["marquee"]) soup with
               | Some _ => _ | None => _ end).
  destruct anns as [announcements|] eqn:Hanns; simpl; [|done].
  destruct (mapM (home_stat) _) as [stats|]; simpl; [|done].
  destruct (mapM (home_image urljoin) _) as [images|] eqn:Himages; simpl; [|done].
  intros [= <-]. simpl. apply Forall_app. split.
  - apply Forall_fmap. subst anns.
    destruct (Soup.find _ soup); [|by injection Hanns as <-].
    destruct (Soup.find_all _ soup) as [|m ?]; [done|].
    eapply mapM_result_Forall; [|exact Hanns].
    intros a an. unfold home_announcement.
    destruct (Soup.item a "href") as [href|]; simpl; [|done].
    destruct (get_abs_url urljoin (Some href)) as [u|] eqn:Hu; simpl; [|done].
    intros [= <-]. simpl. by eapply get_abs_url_emitted.
  - eapply mapM_result_Forall; [|exact Himages].
    intros img u. unfold home_image.
    destruct (Soup.item img "src") as [src|]; simpl; [|done].
    apply get_abs_url_emitted.
Qed.

Lemma institute_cards_emitted (divs : list node) (cards cards' : list profile_card) :
  Forall (fun c => emitted_url urljoin (pc_photo c)) cards ->
  institute_card_loop urljoin cards divs = Ok cards' ->
  Forall (fun c => emitted_url urljoin (pc_photo c)) cards'.
Proof.
  revert cards. induction divs as [|d divs IH]; intros cards Hcards; simpl.
  - by intros [= <-].
  - unfold institute_card_step.
    destruct (Soup.find _ d) as [name_tag|]; simpl; [|by apply IH].
    destruct (card_photo urljoin d) as [photo|] eqn:Hphoto; simpl; [|done].
    apply IH. apply Forall_app. split; [done|].
    apply Forall_singleton. simpl. by eapply card_photo_emitted.
Qed.

Lemma academic_section_emitted (siblings : list node) (links : list group_link) :
  academic_section_links urljoin siblings = Ok links ->
  Forall (fun l => emitted_url urljoin (gl_url l)) links.
Proof.
  revert links. induction siblings as [|curr rest IH]; intros links; simpl.
  - by intros [= <-].
  - destruct (Soup.truthy curr && negb (Soup.named ["h1"; "h3"] curr));
      [|by intros [= <-]].
    set (here := if Soup.named ["a"] curr then _ else _).
    destruct here as [h|] eqn:Hhere; simpl; [|done].
    destruct (academic_section_links urljoin rest) as [more|]; simpl; [|done].
    intros [= <-]. apply Forall_app. split; [|by apply IH].
    subst here. destruct (Soup.named ["a"] curr); [|by injection Hhere as <-].
    destruct (Soup.item curr "href") as [href|]; simpl in Hhere; [|done].
    destruct (get_abs_url urljoin (Some href)) as [u|] eqn:Hu; simpl in Hhere; [|done].
    injection Hhere as <-. apply Forall_singleton. simpl.
    by eapply get_abs_url_emitted.
Qed.

Lemma academic_links_emitted (soup : node) (groups : list link_group) :
  academic_links_of urljoin soup = Ok groups ->
  Forall (emitted_url urljoin) (gl_url <$> (groups ≫= lg_links)).
Proof.
  unfold academic_links_of.
  destruct (Soup.find _ soup) as [content_area|]; [|by intros [= <-]; constructor].
  intros Hgroups. apply Forall_fmap, Forall_bind.
  eapply mapM_result_Forall; [|exact Hgroups].
  intros h g. unfold academic_group.
  destruct (academic_section_links urljoin _) as [links|] eqn:Hlinks; simpl; [|done].
  intros [= <-]. simpl. by eapply academic_section_emitted.
Qed.

Lemma staff_emitted (soup : node) (staff : list staff_record) :
  staff_of urljoin soup = Ok staff ->
  Forall (fun r => emitted_url urljoin (sr_photo r)) staff.
Proof.
  rewrite staff_of_spec. apply mapM_result_Forall.
  intros [e card] r. unfold staff_of_card. simpl.
  destruct (card_photo urljoin card) as [photo|] eqn:Hphoto; simpl; [|done].
  intros [= <-]. simpl. by eapply card_photo_emitted.
Qed.

(** what a handler computes from the upstream has its URLs normalised *)
Lemma fetched_emitted (r : request) (resp : response) :
  fetched' r = Ok resp -> Forall (emitted_url urljoin) (urls resp).
Proof.
  destruct r as [|page|page|dept_code deep|type]; simpl.
  - destruct (page_of _ _ _) as [soup|]; simpl; [|done].
    destruct (home_data_of urljoin soup) as [d|] eqn:Hd; simpl; [|done].
    intros [= <-]. by eapply home_data_emitted.
  - destruct (page_of _ _ _) as [soup|]; simpl; [|done].
    unfold institute_data_of.
    destruct (institute_card_loop urljoin [] _) as [cards|] eqn:Hc; simpl; [|done].
    intros [= <-]. simpl. apply Forall_fmap.
    eapply institute_cards_emitted; [|exact Hc]. constructor.
  - destruct (page_of _ _ _) as [soup|]; simpl; [|done].
    destruct (academic_links_of urljoin soup) as [groups|] eqn:Hg; simpl; [|done].
    intros [= <-]. by eapply academic_links_emitted.
  - destruct (page_of _ _ _) as [soup|]; simpl; [|done].
    destruct (staff_of urljoin soup) as [staff|] eqn:Hs; simpl; [|done].
    intros [= <-]. simpl. apply Forall_fmap.
    pose proof (staff_emitted _ _ Hs) as Hstaff.
    destruct (default false deep); [|done].
    apply Forall_fmap. simpl. eapply Forall_impl; [exact Hstaff|done].
  - destruct (client_get _) as [text|]; simpl; [|done].
    destruct (parse_generic_table urljoin BeautifulSoup text) as [rows|] eqn:Hr;
      simpl; [|done].
    intros [= <-]. by eapply table_rows_emitted.
Qed.

Lemma answer_normalised (r : request) (s : schedule) (w : world) :
  cache_normalised urljoin w -> cache_normalised urljoin (answer' r s w).1.
Proof.
  intros Hw. unfold answer.
  destruct (Cache.contains _ _ _); [intros e He%touch_elem; by apply Hw|]. simpl.
  destruct (fetched _ _ _ _ r) as [resp|] eqn:Hresp; [|done].
  intros e [He| ->]%setitem_elem; [by apply Hw|].
  simpl. by apply (fetched_emitted r).
Qed.

Lemma reachable_normalised (w : world) :
  reachable' w -> cache_normalised urljoin w.
Proof.
  induction 1 as [|w r s _ IH].
  - by intros e ?%elem_of_nil.
  - rewrite handle_answer. by apply answer_normalised.
Qed.

Lemma reachable_config (w : world) :
  reachable' w ->
  Cache.maxsize (w_cache w) = 200%nat /\ Cache.ttl (w_cache w) = 3600.
Proof.
  induction 1 as [|w r s _ IH]; [done|].
  rewrite handle_answer. unfold answer.
  destruct (Cache.contains _ _ _); simpl.
  - by destruct (touch_config (w_cache w) (cache_key_of r) (t_read s)) as [-> ->].
  - by destruct (fetched _ _ _ _ r).
Qed.

(** what a request that misses the cache and returns leaves behind *)
Lemma miss_world (r : request) (s : schedule) (w : world) (resp : response) :
  Cache.contains (w_cache w) (cache_key_of r) (t_check s) = false ->
  (handle' r s w).2 = Ok resp ->
  (handle' r s w).1 =
    World (Cache.setitem (w_cache w) (cache_key_of r) resp (t_store s))
          (w_calls w ++ calls_of' r)
  /\ fetched' r = Ok resp.
Proof.
  rewrite handle_answer. unfold answer. intros ->. simpl. by intros ->.
Qed.

(** a response written at a miss is what any request with the same key
    gets next, while the entry lives *)
Lemma served_by_key (w : world) (r r' : request) (s1 s2 : schedule) (resp : response) :
  reachable' w ->
  Cache.contains (w_cache w) (cache_key_of r) (t_check s1) = false ->
  (handle' r s1 w).2 = Ok resp ->
  cache_key_of r' = cache_key_of r ->
  t_check s2 < t_store s1 + 3600 -> t_read s2 < t_store s1 + 3600 ->
  handle' r' s2 (handle' r s1 w).1 = ((handle' r s1 w).1, Ok resp).
Proof.
  intros Hw Hmiss Hresp Hkey Hcheck Hread.
  apply reachable_config in Hw as [_ Httl].
  destruct (miss_world r s1 w resp Hmiss Hresp) as [-> _].
  rewrite (handle_answer r'). unfold answer. rewrite Hkey. cbn [w_cache w_calls].
  unfold Cache.contains, Cache.getitem. rewrite !get_setitem, Httl, touch_setitem.
  rewrite (bool_decide_eq_true_2 (t_check s2 < _)) by done.
  rewrite (bool_decide_eq_true_2 (t_read s2 < _)) by done.
  rewrite bool_decide_eq_true_2 by (by eexists). done.
Qed.

(** C9 (as amended): in every state the service can reach, every URL of a
    response an endpoint returns, from the cache or from the upstream
    (announcement links, images, photos, table links, academic links), is
    [None], or a reference that starts with [http] passed through as it is,
    or what [urljoin] made of the base address and a reference that is
    neither empty nor ["#"]; a reference that is empty or ["#"] comes out as
    [None], and an empty string comes out only if [urljoin] returned it. *)
Theorem emitted_urls_normalised (w : world) (r : request) (s : schedule)
    (resp : response) :
  reachable' w -> (handle' r s w).2 = Ok resp ->
  Forall (emitted_url urljoin) (urls resp)
  /\ (forall raw, raw = None \/ raw = Some "" \/ raw = Some "#" ->
        get_abs_url urljoin raw = Ok None)
  /\ (forall raw, get_abs_url urljoin raw = Ok (Some "") ->
        exists p, urljoin BASE_URL p = Ok "").
Proof.
  intros Hw Hresp. split; [|split].
  - apply reachable_normalised in Hw. rewrite handle_answer in Hresp.
    unfold answer in Hresp.
    destruct (Cache.contains _ _ _); simpl in Hresp.
    + unfold Cache.getitem in Hresp.
      destruct (Cache.get _ _ _) as [v|] eqn:Hget; [|done]. injection Hresp as ->.
      apply get_elem in Hget as (e & He & _ & <- & _). by apply Hw.
    + by apply (fetched_emitted r).
  - apply get_abs_url_absent.
  - intros raw Hraw%get_abs_url_emitted. destruct Hraw as [?|(p & _ & _ & _ & Hp)]; [done|].
    by exists p.
Qed.

(** C1: a request to [/api/institute/{page}] whose page is spelled like a
    notification type has the cache key of that notification request; once
    the notifications have been fetched, it is answered, for an hour, with
    their table, and nothing is fetched for it. *)
Theorem institute_answered_from_notifications (w : world) (type : string)
    (s1 s2 : schedule) (rows : list table_row) :
  reachable' w ->
  Cache.contains (w_cache w) type (t_check s1) = false ->
  (handle' (GetNotifications (Some type)) s1 w).2 = Ok (RNotifications rows) ->
  t_check s2 < t_store s1 + 3600 -> t_read s2 < t_store s1 + 3600 ->
  let w1 := (handle' (GetNotifications (Some type)) s1 w).1 in
  cache_key_of (GetInstitute type) = cache_key_of (GetNotifications (Some type))
  /\ handle' (GetInstitute type) s2 w1 = (w1, Ok (RNotifications rows)).
Proof.
  intros Hw Hmiss Hrows Hcheck Hread w1. split; [done|].
  by apply (served_by_key w (GetNotifications (Some type)) (GetInstitute type)).
Qed.

(** C2: the handler of [/api/notifications] is entered with whatever
    [type] the query carries; when the key is not in the cache it fetches
    the page of that type, listed or not: for [type=foo], on the empty cache,
    it issues the GET for ["foo"]. *)
Theorem notifications_type_unchecked (type : string) (s : schedule) (w : world) :
  handle' (GetNotifications (Some type)) s w
    = news_tenders_careers urljoin BeautifulSoup client_get type s w
  /\ (Cache.contains (w_cache w) type (t_check s) = false ->
      w_calls (handle' (GetNotifications (Some type)) s w).1
        = w_calls w ++ [GET (BASE_URL +:+ "instituteinfo.php?data=" +:+ type)])
  /\ ("foo" ∉ NOTIFICATION_TYPES)
  /\ w_calls (handle' (GetNotifications (Some "foo")) s (World cache [])).1
       = [GET "https://rguktong.ac.in/instituteinfo.php?data=foo"].
Proof.
  split; [done|]. split; [|split].
  - intros Hmiss. rewrite handle_answer. unfold answer. simpl. by rewrite Hmiss.
  - unfold NOTIFICATION_TYPES. intros H. repeat (apply elem_of_cons in H as [H|H]; [done|]).
    by apply elem_of_nil in H.
  - rewrite handle_answer. reflexivity.
Qed.

End Endpoints.

(** the keys of the department endpoint tell the department and the flag *)
Lemma dept_flag_inj (a b : string) (x y : bool) :
  a +:+ "_" +:+ Py.str_bool x = b +:+ "_" +:+ Py.str_bool y -> a = b /\ x = y.
Proof.
  revert b. induction a as [|c a IH]; intros b H.
  - destruct x, y; do 7 (try destruct b as [|? b]; simplify_eq/=; try done).
  - destruct b as [|c' b].
    + destruct x, y; do 7 (try destruct a as [|? a]; simplify_eq/=; try done).
    + injection H as -> H. by apply IH in H as [-> ->].
Qed.

Lemma dept_cache_key_inj (dept_code dept_code' : string) (deep deep' : bool) :
  dept_cache_key dept_code deep = dept_cache_key dept_code' deep' ->
  dept_code = dept_code' /\ deep = deep'.
Proof. unfold dept_cache_key. intros [= H]. by apply dept_flag_inj. Qed.

(** the keys of the academics and department endpoints start with the name
    of the endpoint; the key of the institute endpoint is the bare page, and
    meets every other key *)
Lemma cache_keys_shared :
  cache_key_of (GetDepartment "CSE" (Some true))
    <> cache_key_of (GetDepartment "CSE" (Some false))
  /\ cache_key_of (GetInstitute "home") = cache_key_of GetHome
  /\ cache_key_of (GetInstitute "careers") = cache_key_of (GetNotifications (Some "careers"))
  /\ cache_key_of (GetInstitute "acad_curicula") = cache_key_of (GetAcademics "curicula")
  /\ cache_key_of (GetInstitute "dept_CSE_True")
       = cache_key_of (GetDepartment "CSE" (Some true)).
Proof. repeat split. discriminate. Qed.

(** C9, a witness: the notifications served from the three-row page. *)
Lemma emitted_urls_normalised_witness :
  let urljoin := fun base ref => Ok (base +:+ ref) in
  Forall (emitted_url urljoin)
    (urls (RNotifications
             [ {| tr_title := "Supply of lab equipment"; tr_date := "01-02-2025";
                  tr_links := [ {| le_text := "View"; le_url := None |} ] |} ]))
  /\ (forall raw, raw = None \/ raw = Some "" \/ raw = Some "#" ->
        get_abs_url urljoin raw = Ok None)
  /\ (forall raw, get_abs_url urljoin raw = Ok (Some "") ->
        exists p, urljoin BASE_URL p = Ok "").
Proof.
  apply (emitted_urls_normalised (fun base ref => Ok (base +:+ ref))
           (fun _ => Ok three_row_page) (fun _ => Ok "")
           (fun _ => Raise (TransportError "unused"))
           (World cache []) (GetNotifications None) (at_time 0)).
  - apply reachable_start.
  - reflexivity.
Defined.

(** C9, the input that refutes it as stated: the home page has an image
    whose source is the relative reference ["httpd/logo.png"]; it has no
    scheme, and it is emitted as it is, without being joined to the base. *)
Lemma emitted_url_counterexample :
  has_scheme "httpd/logo.png" = false
  /\ (forall urljoin client_post s,
        (handle urljoin (fun _ => Ok httpd_logo_page) (fun _ => Ok "") client_post
           GetHome s (World cache [])).2
        = Ok (RHome {| hd_announcements := []; hd_stats := [];
                       hd_images := [Some "httpd/logo.png"] |}))
  /\ "httpd/logo.png" <> BASE_URL +:+ "httpd/logo.png".
Proof. split; [reflexivity|]. split; [reflexivity|discriminate]. Qed.

(** C1, a witness: the tenders are fetched at time 0; a minute later
    [/api/institute/tenders] is answered with the table of tenders. *)
Lemma institute_answered_from_notifications_witness :
  let urljoin := fun base ref => Ok (base +:+ ref) in
  let handle' := handle urljoin (fun _ => Ok three_row_page) (fun _ => Ok "")
                   (fun _ => Raise (TransportError "unused")) in
  let rows := [ {| tr_title := "Supply of lab equipment"; tr_date := "01-02-2025";
                   tr_links := [ {| le_text := "View"; le_url := None |} ] |} ] in
  let w1 := (handle' (GetNotifications (Some "tenders")) (at_time 0) (World cache [])).1 in
  cache_key_of (GetInstitute "tenders") = cache_key_of (GetNotifications (Some "tenders"))
  /\ handle' (GetInstitute "tenders") (at_time 60) w1 = (w1, Ok (RNotifications rows)).
Proof.
  apply (institute_answered_from_notifications (fun base ref => Ok (base +:+ ref))
           (fun _ => Ok three_row_page) (fun _ => Ok "")
           (fun _ => Raise (TransportError "unused"))
           (World cache []) "tenders" (at_time 0) (at_time 60)).
  - apply reachable_start.
  - reflexivity.
  - reflexivity.
  - reflexivity.
  - reflexivity.
Defined.

(** ** Requests and the cache *)

Lemma setitem_keys_unique {V} (c : Cache.t V) (k : string) (v : V) (now : Z) :
  NoDup (Cache.key <$> Cache.entries c) ->
  NoDup (Cache.key <$> Cache.entries (Cache.setitem c k v now)).
Proof.
  intros Hnd. unfold Cache.setitem. simpl.
  set (live := filter (fun e => now < Cache.expires e) (Cache.entries c)).
  set (others := filter (fun e => Cache.key e <> k) live).
  rewrite fmap_app. apply NoDup_app. split; [|split].
  - eapply sublist_NoDup; [exact Hnd|]. apply fmap_sublist.
    etrans; [apply sublist_drop|]. etrans; apply sublist_filter.
  - intros k' (e & -> & He)%list_elem_of_fmap [Hk|Hk%elem_of_nil]%elem_of_cons; [|done].
    simpl in Hk. eapply elem_of_sublist in He; [|apply sublist_drop].
    by apply list_elem_of_filter in He as [? _].
  - apply NoDup_singleton.
Qed.

(** with one entry per key, the entry held under the key of an entry is
    that entry *)
Lemma held_unique {V} (c : Cache.t V) (e : Cache.entry V) :
  NoDup (Cache.key <$> Cache.entries c) -> e ∈ Cache.entries c ->
  Cache.held c (Cache.key e) = Some e.
Proof.
  unfold Cache.held. induction (Cache.entries c) as [|e' l IH]; simpl.
  - by intros _ ?%elem_of_nil.
  - intros [Hnotin Hnd]%NoDup_cons [->|Hin]%elem_of_cons.
    + by rewrite filter_cons_True.
    + rewrite filter_cons_False; [by apply IH|].
      intros Heq. apply Hnotin. rewrite Heq. apply list_elem_of_fmap. by exists e.
Qed.

Lemma touch_keys_unique {V} (c : Cache.t V) (k : string) (now : Z) :
  NoDup (Cache.key <$> Cache.entries c) ->
  NoDup (Cache.key <$> Cache.entries (Cache.touch c k now)).
Proof.
  intros Hnd. destruct (touch_entries c k now) as [->|(e & He & _ & ->)]; [done|].
  apply held_elem in He as [_ Hkey]. simpl.
  rewrite fmap_app. apply NoDup_app. split; [|split].
  - eapply sublist_NoDup; [exact Hnd|]. apply fmap_sublist, sublist_filter.
  - intros k' (e' & -> & [He' _]%list_elem_of_filter)%list_elem_of_fmap
      [Hk|Hk%elem_of_nil]%elem_of_cons; [|done].
    congruence.
  - apply NoDup_singleton.
Qed.

(** a read that finds nothing leaves the cache as it is *)
Lemma touch_absent {V} (c : Cache.t V) (k : string) (now : Z) :
  Cache.get c k now = None -> Cache.touch c k now = c.
Proof.
  unfold Cache.get, Cache.touch. destruct (Cache.held c k) as [e|]; [|done].
  by case_bool_decide.
Qed.

(** a read that finds its entry leaves it last *)
Lemma touch_last {V} (c : Cache.t V) (k : string) (now : Z) (v : V) :
  Cache.get c k now = Some v ->
  exists e, last (Cache.entries (Cache.touch c k now)) = Some e
    /\ Cache.key e = k /\ Cache.value e = v.
Proof.
  unfold Cache.get, Cache.touch. destruct (Cache.held c k) as [e|] eqn:He; [|done].
  case_bool_decide; [|done]. intros [= <-]. simpl.
  exists e. rewrite last_snoc. by apply held_elem in He as [_ ?].
Qed.

Section Caching.
Variable urljoin : string -> string -> result string.
Variable BeautifulSoup : string -> result node.
Variable client_get : string -> result string.
Variable client_post : option string -> result (Z * string).

Local Abbreviation handle' := (handle urljoin BeautifulSoup client_get client_post).
Local Abbreviation fetched' := (fetched urljoin BeautifulSoup client_get client_post).
Local Abbreviation calls_of' := (calls_of urljoin BeautifulSoup client_get).
Local Abbreviation reachable' := (reachable urljoin BeautifulSoup client_get client_post).
Local Abbreviation serve' := (serve urljoin BeautifulSoup client_get client_post).

Lemma handle_run (r : request) (s : schedule) (w : world) :
  handle' r s w = answer urljoin BeautifulSoup client_get client_post r s w.
Proof. apply handle_answer. Qed.

(** X1: a request whose key the cache holds at the membership test issues
    no upstream call, and no lookup finds anything else after it than
    before it: the cache has neither gained nor lost a value.  It returns
    the cached value if the entry is still alive when it is read, and the
    entry is then the most recently used; it raises [KeyError] for its key
    if the entry has expired in between, and the cache is then as it was. *)
Theorem cache_hit_short_circuits (r : request) (s : schedule) (w : world) :
  Cache.contains (w_cache w) (cache_key_of r) (t_check s) = true ->
  let w' := (handle' r s w).1 in
  w_calls w' = w_calls w
  /\ (forall k t, Cache.get (w_cache w') k t = Cache.get (w_cache w) k t)
  /\ (Cache.size (w_cache w') <= Cache.size (w_cache w))%nat
  /\ (forall v, Cache.get (w_cache w) (cache_key_of r) (t_read s) = Some v ->
        (handle' r s w).2 = Ok v
        /\ exists e, last (Cache.entries (w_cache w')) = Some e
             /\ Cache.key e = cache_key_of r /\ Cache.value e = v)
  /\ (Cache.contains (w_cache w) (cache_key_of r) (t_read s) = false ->
        (handle' r s w).2 = Raise (KeyError (cache_key_of r)) /\ w' = w)
  /\ (t_read s = t_check s -> returns (handle' r s w).2).
Proof.
  intros Hhit w'. subst w'. rewrite handle_run. unfold answer. rewrite Hhit.
  cbn [fst snd w_calls w_cache]. unfold Cache.getitem.
  split; [done|]. split; [intros k t; apply get_touch|].
  split; [apply touch_size|]. split; [|split].
  - intros v Hv. rewrite Hv. split; [done|]. by apply touch_last.
  - unfold Cache.contains. intros Hgone%bool_decide_eq_false.
    destruct (Cache.get _ _ (t_read s)) as [v|] eqn:Hget; [exfalso; apply Hgone; by exists v|].
    split; [done|]. rewrite touch_absent by done. by destruct w.
  - intros ->. apply bool_decide_eq_true in Hhit as [v ->]. apply returns_ok.
Qed.

(** X2: a request that raises writes nothing to the cache, whether the
    transport, the parser or the extraction failed. *)
Theorem failure_caches_nothing (r : request) (s : schedule) (w : world) (e : exn) :
  (handle' r s w).2 = Raise e ->
  w_cache (handle' r s w).1 = w_cache w
  /\ forall t, Cache.contains (w_cache (handle' r s w).1) (cache_key_of r) t
               = Cache.contains (w_cache w) (cache_key_of r) t.
Proof.
  rewrite handle_run. unfold answer.
  destruct (Cache.contains _ _ _); simpl.
  - unfold Cache.getitem.
    destruct (Cache.get _ _ (t_read s)) eqn:Hget; [done|]. intros _.
    by rewrite touch_absent.
  - intros ->. done.
Qed.

Lemma handle_config (r : request) (s : schedule) (w : world) :
  Cache.maxsize (w_cache (handle' r s w).1) = Cache.maxsize (w_cache w)
  /\ Cache.ttl (w_cache (handle' r s w).1) = Cache.ttl (w_cache w).
Proof.
  rewrite handle_run. unfold answer.
  destruct (Cache.contains _ _ _); simpl; [apply touch_config|].
  by destruct (fetched _ _ _ _ r).
Qed.

(** a request leaves the entry of [k] in, with one more entry more recent
    at most, when it comes before the entry expires and the cache has room
    for the more recent entries *)
Lemma handle_used_recently (r : request) (s : schedule) (w : world)
    (k : string) (v : response) (expires : Z) (recent : nat) :
  used_recently (w_cache w) k v expires recent ->
  (recent + 2 <= Cache.maxsize (w_cache w))%nat ->
  before expires s ->
  used_recently (w_cache (handle' r s w).1) k v expires (S recent).
Proof.
  intros Hk Hroom (Hcheck & Hread & Hstore). rewrite handle_run. unfold answer.
  destruct (Cache.contains _ _ _) eqn:Hhit; simpl.
  - by apply used_recently_touch.
  - destruct (fetched _ _ _ _ r) as [resp|];
      [|by eapply used_recently_mono; [|exact Hk]; lia].
    apply used_recently_put; [done| |done|done].
    intros Hsame. rewrite Hsame in Hhit. unfold Cache.contains in Hhit.
    rewrite (used_recently_get _ _ _ _ _ (t_check s) Hk) in Hhit.
    rewrite (bool_decide_eq_true_2 (t_check s < expires)) in Hhit by done.
    apply bool_decide_eq_false in Hhit. apply Hhit. by eexists.
Qed.

Lemma serve_config (requests : list (request * schedule)) (w : world) :
  Cache.maxsize (w_cache (serve' requests w)) = Cache.maxsize (w_cache w)
  /\ Cache.ttl (w_cache (serve' requests w)) = Cache.ttl (w_cache w).
Proof.
  revert w. induction requests as [|[r s] requests IH]; intros w; [done|].
  simpl. destruct (IH (handle' r s w).1) as [-> ->]. apply handle_config.
Qed.

Lemma serve_used_recently (requests : list (request * schedule)) (w : world)
    (k : string) (v : response) (expires : Z) (recent : nat) :
  used_recently (w_cache w) k v expires recent ->
  (recent + length requests + 1 <= Cache.maxsize (w_cache w))%nat ->
  Forall (fun rs => before expires rs.2) requests ->
  used_recently (w_cache (serve' requests w)) k v expires (recent + length requests).
Proof.
  revert w recent. induction requests as [|[r s] requests IH]; intros w recent Hk Hroom Htimes.
  - simpl. by rewrite Nat.add_0_r.
  - apply Forall_cons in Htimes as [Htime Htimes]. simpl in *.
    replace (recent + S (length requests))%nat with (S recent + length requests)%nat by lia.
    apply IH; [|destruct (handle_config r s w) as [-> _]; lia|done].
    apply handle_used_recently; [done|lia|done].
Qed.

(** a response fetched at a miss is still in the cache after fewer than
    200 further requests that came before its entry expires *)
Lemma fetched_stays (w : world) (r : request) (s : schedule) (resp : response)
    (between : list (request * schedule)) :
  reachable' w ->
  Cache.contains (w_cache w) (cache_key_of r) (t_check s) = false ->
  (handle' r s w).2 = Ok resp ->
  (length between < 200)%nat ->
  Forall (fun rs => before (t_store s + 3600) rs.2) between ->
  used_recently (w_cache (serve' between (handle' r s w).1))
    (cache_key_of r) resp (t_store s + 3600) (length between).
Proof.
  intros Hw Hmiss Hresp Hfew Htimes.
  apply reachable_config in Hw as [Hmax Httl].
  rewrite handle_run in *. unfold answer in *. rewrite Hmiss in *. simpl in *.
  rewrite Hresp.
  apply (serve_used_recently between _ _ _ _ 0%nat); [|simpl; lia|done].
  simpl. rewrite <- Httl. apply used_recently_setitem.
Qed.

(** a request whose entry is in the cache, answered before the entry
    expires *)
Lemma hit_used_recently (r : request) (s : schedule) (w : world)
    (resp : response) (expires : Z) (recent : nat) :
  used_recently (w_cache w) (cache_key_of r) resp expires recent ->
  t_check s < expires -> t_read s < expires ->
  (handle' r s w).2 = Ok resp /\ w_calls (handle' r s w).1 = w_calls w.
Proof.
  intros Hk Hcheck Hread. rewrite handle_run. unfold answer.
  unfold Cache.contains, Cache.getitem.
  rewrite !(used_recently_get _ _ _ _ _ _ Hk).
  rewrite (bool_decide_eq_true_2 (t_check s < expires)) by done.
  rewrite (bool_decide_eq_true_2 (t_read s < expires)) by done.
  by rewrite bool_decide_eq_true_2 by (by eexists).
Qed.


Lemma reachable_keys_unique (w : world) :
  reachable' w ->
  NoDup (Cache.key <$> Cache.entries (w_cache w))
  /\ (Cache.size (w_cache w) <= 200)%nat.
Proof.
  induction 1 as [|w r s Hw [Hnd Hsize]].
  - split; [constructor|unfold Cache.size; simpl; lia].
  - pose proof (reachable_config _ _ _ _ _ Hw) as [Hmax _].
    rewrite handle_run. unfold answer.
    destruct (Cache.contains _ _ _); simpl.
    { split; [by apply touch_keys_unique|]. etrans; [apply touch_size|done]. }
    destruct (fetched _ _ _ _ r) as [resp|]; [|done].
    split; [by apply setitem_keys_unique|].
    rewrite <- Hmax. apply setitem_size. lia.
Qed.

(** X4: in every state the service reaches, the cache has one entry per
    key and at most 200 entries, and a lookup of the key of an entry returns
    the value of that entry exactly while the entry has not expired. *)
Theorem reachable_cache_bounded (w : world) :
  reachable' w ->
  NoDup (Cache.key <$> Cache.entries (w_cache w))
  /\ (Cache.size (w_cache w) <= 200)%nat
  /\ forall e t, e ∈ Cache.entries (w_cache w) ->
       Cache.get (w_cache w) (Cache.key e) t
         = if bool_decide (t < Cache.expires e) then Some (Cache.value e) else None.
Proof.
  intros Hw. destruct (reachable_keys_unique w Hw) as [Hnd Hsize].
  split; [done|]. split; [done|].
  intros e t He. unfold Cache.get. by rewrite held_unique.
Qed.

(** X5: [/health] issues no upstream call and writes nothing to the
    cache; in every state the service reaches it reports ["online"] and a
    count of at most 200, which is the number of keys a lookup at that time
    would find. *)
Theorem health_counts_live_keys (w : world) (s : schedule) :
  reachable' w ->
  (health s w).1 = w
  /\ exists d, (health s w).2 = Ok d
       /\ he_status d = "online"
       /\ (he_cache_entries d <= 200)%nat
       /\ he_cache_entries d =
            length (filter (fun k => Cache.contains (w_cache w) k (t_check s) = true)
                           (Cache.key <$> Cache.entries (w_cache w))).
Proof.
  intros Hw. split; [done|]. eexists. split; [done|]. split; [done|]. simpl.
  destruct (reachable_keys_unique w Hw) as [Hnd Hsize]. unfold cache_len. split.
  - etrans; [apply length_filter|]. exact Hsize.
  - rewrite <- (length_fmap Cache.key). f_equal.
    assert (Hheld : forall e, e ∈ Cache.entries (w_cache w) ->
              Cache.held (w_cache w) (Cache.key e) = Some e)
      by (intros e He; by apply held_unique).
    clear Hnd Hsize. unfold Cache.contains, Cache.get.
    induction (Cache.entries (w_cache w)) as [|e l IH] in Hheld |- *; [done|].
    rewrite fmap_cons, !filter_cons.
    rewrite (Hheld e) by left.
    destruct (decide (t_check s < Cache.expires e)) as [Hlive|Hdead].
    + rewrite (bool_decide_eq_true_2 (t_check s < Cache.expires e)) by done.
      rewrite decide_True by done.
      rewrite fmap_cons. f_equal. apply IH.
      intros e' He'. apply Hheld. by right.
    + rewrite (bool_decide_eq_false_2 (t_check s < Cache.expires e)) by done.
      rewrite decide_False by done.
      apply IH. intros e' He'. apply Hheld. by right.
Qed.

Lemma key_decides_fetch (r r' : request) :
  same_endpoint r r' = true -> cache_key_of r = cache_key_of r' ->
  fetched' r = fetched' r' /\ calls_of' r = calls_of' r'.
Proof.
  destruct r as [|p|p|d x|t], r' as [|p'|p'|d' x'|t']; try done; simpl; intros _.
  - by intros ->.
  - by intros ->%(inj (String.app "acad_")).
  - by intros [-> ->]%dept_cache_key_inj.
  - by intros ->.
Qed.

(** X6: two requests to the same endpoint that have the same cache key are
    handled alike in every state and at every time: the same calls, the
    same write to the cache, the same result.  So within an endpoint a
    cached value is only ever served to a request it answers; a request for
    notifications without [type] is the request for ["news_updates"]. *)
Theorem key_decides_within_endpoint (r r' : request) (s : schedule) (w : world) :
  same_endpoint r r' = true -> cache_key_of r = cache_key_of r' ->
  handle' r s w = handle' r' s w.
Proof.
  intros Hsame Hkey. destruct (key_decides_fetch r r' Hsame Hkey) as [Hf Hc].
  rewrite !handle_run. unfold answer. by rewrite Hkey, Hf, Hc.
Qed.

Lemma calls_of_shape (r : request) :
  calls_of' r =
    GET (upstream_url r) ::
    match r, fetched' r with
    | GetDepartment _ (Some true), Ok (RDepartment d) =>
        (fun f => POST_PROFILE (sr_email f)) <$> dd_faculties d
    | _, _ => []
    end.
Proof.
  destruct r as [|p|p|d x|t]; try done.
  unfold calls_of, fetched, upstream_url. f_equal.
  destruct (page_of _ _ _) as [soup|]; simpl; [|by destruct x as [[]|]].
  destruct (staff_of urljoin soup) as [staff|]; simpl; [|by destruct x as [[]|]].
  destruct x as [[]|]; simpl; [|done..].
  by rewrite <- list_fmap_compose.
Qed.

(** X7: a request that misses the cache issues one GET, to the page of its
    endpoint, and nothing else, except that a department request with
    [deep] that extracts a staff list then issues one POST per member of the
    list it returns, in the order of the list; the GET is issued also when
    the request then raises. *)
Theorem upstream_calls_shape (r : request) (s : schedule) (w : world) :
  Cache.contains (w_cache w) (cache_key_of r) (t_check s) = false ->
  w_calls (handle' r s w).1 =
    w_calls w ++
    GET (upstream_url r) ::
    match r, (handle' r s w).2 with
    | GetDepartment _ (Some true), Ok (RDepartment d) =>
        (fun f => POST_PROFILE (sr_email f)) <$> dd_faculties d
    | _, _ => []
    end.
Proof.
  intros Hmiss.
  assert (Hres : (handle' r s w).2 = fetched' r)
    by (rewrite handle_run; unfold answer; by rewrite Hmiss).
  assert (Hcalls : w_calls (handle' r s w).1 = w_calls w ++ calls_of' r)
    by (rewrite handle_run; unfold answer; by rewrite Hmiss).
  rewrite Hcalls, calls_of_shape.
  destruct r as [|p|p|d [[]|]|t]; try done. by rewrite Hres.
Qed.

End Caching.

(** X1, a witness: the notifications fetched at time 0 and asked for
    again one second before the hour, the read falling on the hour. *)
Lemma cache_hit_short_circuits_witness :
  let handle' := handle join_plain (fun _ => Ok three_row_page) (fun _ => Ok "")
                   unreachable_post in
  let r := GetNotifications None in
  let w := (handle' r (at_time 0) (World cache [])).1 in
  let s := {| t_check := 3599; t_read := 3600; t_store := 3600;
              finish := fun _ => 3600 |} in
  let w' := (handle' r s w).1 in
  w_calls w' = w_calls w
  /\ (forall k t, Cache.get (w_cache w') k t = Cache.get (w_cache w) k t)
  /\ (Cache.size (w_cache w') <= Cache.size (w_cache w))%nat
  /\ (forall v, Cache.get (w_cache w) (cache_key_of r) (t_read s) = Some v ->
        (handle' r s w).2 = Ok v
        /\ exists e, last (Cache.entries (w_cache w')) = Some e
             /\ Cache.key e = cache_key_of r /\ Cache.value e = v)
  /\ (Cache.contains (w_cache w) (cache_key_of r) (t_read s) = false ->
        (handle' r s w).2 = Raise (KeyError (cache_key_of r)) /\ w' = w)
  /\ (t_read s = t_check s -> returns (handle' r s w).2).
Proof.
  intros handle' r w s.
  apply (cache_hit_short_circuits join_plain (fun _ => Ok three_row_page)
           (fun _ => Ok "") unreachable_post r s w).
  reflexivity.
Defined.

(** X2, a witness: the home page asked for while the upstream is down. *)
Lemma failure_caches_nothing_witness :
  let handle' := handle join_plain (fun _ => Ok bare_page) unreachable_get
                   unreachable_post in
  let w := World cache [] in
  w_cache (handle' GetHome (at_time 0) w).1 = w_cache w
  /\ forall t, Cache.contains (w_cache (handle' GetHome (at_time 0) w).1)
                 (cache_key_of GetHome) t
               = Cache.contains (w_cache w) (cache_key_of GetHome) t.
Proof.
  intros handle' w.
  apply (failure_caches_nothing join_plain (fun _ => Ok bare_page) unreachable_get
           unreachable_post GetHome (at_time 0) w (TransportError "connect timeout")).
  reflexivity.
Defined.


(** X4, a witness: the state after the first request. *)
Lemma reachable_cache_bounded_witness :
  let w := (handle join_plain (fun _ => Ok three_row_page) (fun _ => Ok "")
              unreachable_post (GetNotifications None) (at_time 0) (World cache [])).1 in
  NoDup (Cache.key <$> Cache.entries (w_cache w))
  /\ (Cache.size (w_cache w) <= 200)%nat
  /\ forall e t, e ∈ Cache.entries (w_cache w) ->
       Cache.get (w_cache w) (Cache.key e) t
         = if bool_decide (t < Cache.expires e) then Some (Cache.value e) else None.
Proof.
  intros w.
  apply (reachable_cache_bounded join_plain (fun _ => Ok three_row_page)
           (fun _ => Ok "") unreachable_post w).
  apply reachable_request, reachable_start.
Defined.

(** X5, a witness: [/health] ten seconds after the first request. *)
Lemma health_counts_live_keys_witness :
  let w := (handle join_plain (fun _ => Ok three_row_page) (fun _ => Ok "")
              unreachable_post (GetNotifications None) (at_time 0) (World cache [])).1 in
  let s := at_time 10 in
  (health s w).1 = w
  /\ exists d, (health s w).2 = Ok d
       /\ he_status d = "online"
       /\ (he_cache_entries d <= 200)%nat
       /\ he_cache_entries d =
            length (filter (fun k => Cache.contains (w_cache w) k (t_check s) = true)
                           (Cache.key <$> Cache.entries (w_cache w))).
Proof.
  intros w s.
  apply (health_counts_live_keys join_plain (fun _ => Ok three_row_page)
           (fun _ => Ok "") unreachable_post w s).
  apply reachable_request, reachable_start.
Defined.

(** X6, a witness: the notifications without [type] and with the default
    spelled out. *)
Lemma key_decides_within_endpoint_witness :
  let handle' := handle join_plain (fun _ => Ok three_row_page) (fun _ => Ok "")
                   unreachable_post in
  handle' (GetNotifications None) (at_time 0) (World cache [])
    = handle' (GetNotifications (Some "news_updates")) (at_time 0) (World cache []).
Proof.
  intros handle'.
  apply (key_decides_within_endpoint join_plain (fun _ => Ok three_row_page)
           (fun _ => Ok "") unreachable_post
           (GetNotifications None) (GetNotifications (Some "news_updates"))
           (at_time 0) (World cache [])).
  - reflexivity.
  - reflexivity.
Defined.

(** X7, a witness: a department asked for with [deep] while the profile
    service is down. *)
Lemma upstream_calls_shape_witness :
  let handle' := handle join_plain (fun _ => Ok two_cards_page) (fun _ => Ok "")
                   unreachable_post in
  let r := GetDepartment "cse" (Some true) in
  let w := World cache [] in
  w_calls (handle' r (at_time 0) w).1 =
    w_calls w ++
    GET (upstream_url r) ::
    match r, (handle' r (at_time 0) w).2 with
    | GetDepartment _ (Some true), Ok (RDepartment d) =>
        (fun f => POST_PROFILE (sr_email f)) <$> dd_faculties d
    | _, _ => []
    end.
Proof.
  intros handle' r w.
  apply (upstream_calls_shape join_plain (fun _ => Ok two_cards_page)
           (fun _ => Ok "") unreachable_post r (at_time 0) w).
  reflexivity.
Defined.

Lemma to_upper_idemp (c : ascii) : Py.to_upper (Py.to_upper c) = Py.to_upper c.
Proof. by destruct c as [[] [] [] [] [] [] [] []]. Qed.

Lemma upper_idemp (s : string) : Py.upper (Py.upper s) = Py.upper s.
Proof. induction s as [|c s IH]; [done|]. simpl. by rewrite to_upper_idemp, IH. Qed.

(** X8: the cache key of a department request tells the code as it was
    sent and the flag, while the page fetched depends on the code only up to
    case: ["cse"] and ["CSE"] fetch the same page and are cached apart, as are
    the same code with and without [deep].  The codes of [DEPARTMENTS] are
    in upper case already and differ from one another. *)
Theorem department_key_and_page (a b : string) (x y : bool) :
  (dept_cache_key a x = dept_cache_key b y <-> a = b /\ x = y)
  /\ (Py.upper a = Py.upper b -> department_url a = department_url b)
  /\ department_url (Py.upper a) = department_url a
  /\ Forall (fun d => Py.upper d = d) DEPARTMENTS
  /\ NoDup DEPARTMENTS.
Proof.
  split; [|split; [|split; [|split]]].
  - split; [apply dept_cache_key_inj|by intros [-> ->]].
  - unfold department_url. by intros ->.
  - unfold department_url. by rewrite upper_idemp.
  - by repeat constructor.
  - apply (bool_decide_unpack _). by vm_compute.
Qed.

(** ** What the extractions need of a page *)

Lemma returns_bind {A B} (m : result A) (f : A -> result B) :
  returns (m ≫= f) <-> exists a, m = Ok a /\ returns (f a).
Proof.
  destruct m as [a|e]; simpl.
  - split; [by exists a|by intros (? & [= <-] & ?)].
  - split; [by intros [? ?]|by intros (? & ? & ?)].
Qed.

Lemma mapM_returns_iff {A B} (f : A -> result B) (l : list A) :
  returns (mapM f l) <-> forall x, x ∈ l -> returns (f x).
Proof.
  split; [|apply mapM_returns].
  intros [k Hk] x Hx. destruct (mapM_result_elem f l k Hk) as [Hall _].
  destruct (Hall x Hx) as (y & _ & ->). apply returns_ok.
Qed.

Lemma mapM_result_Forall2 {A B} (f : A -> result B) (l : list A) (k : list B) :
  mapM f l = Ok k -> Forall2 (fun x y => f x = Ok y) l k.
Proof.
  revert k. induction l as [|x l IH]; intros k; simpl.
  - intros [= <-]. constructor.
  - destruct (f x) as [y|] eqn:Hx; simpl; [|done].
    destruct (mapM f l) as [k'|]; simpl; [|done].
    intros [= <-]. constructor; [done|by apply IH].
Qed.

Section Extraction.
Variable urljoin : string -> string -> result string.

Lemma get_abs_url_none (p : string) :
  get_abs_url urljoin (Some p) = Ok None <-> p = "" \/ p = "#".
Proof.
  split; [|intros [-> | ->]; done].
  unfold get_abs_url.
  destruct (bool_decide (p = "")) eqn:H1; [apply bool_decide_eq_true in H1; by left|].
  destruct (bool_decide (p = "#")) eqn:H2; [apply bool_decide_eq_true in H2; by right|].
  simpl. destruct (Py.startswith p "http"); simpl; [done|].
  by destruct (urljoin BASE_URL p).
Qed.

(** a reference resolves unless [urljoin] is called on it and raises *)
Lemma resolves_iff (p : string) :
  resolves urljoin p <->
  p = "" \/ p = "#" \/ Py.startswith p "http" = true \/ returns (urljoin BASE_URL p).
Proof.
  unfold resolves, get_abs_url.
  destruct (bool_decide (p = "")) eqn:H1;
    [apply bool_decide_eq_true in H1; split; [by left|intros _; apply returns_ok]|].
  destruct (bool_decide (p = "#")) eqn:H2;
    [apply bool_decide_eq_true in H2; split; [by right; left|intros _; apply returns_ok]|].
  apply bool_decide_eq_false in H1, H2. simpl.
  destruct (Py.startswith p "http") eqn:Hp; simpl.
  - split; [by right; right; left|intros _; apply returns_ok].
  - destruct (urljoin BASE_URL p) as [j|e]; simpl.
    + split; [intros _; right; right; right; apply returns_ok|intros _; apply returns_ok].
    + split; [by intros [? ?]|]. intros [?|[?|[?|[? ?]]]]; done.
Qed.

Lemma item_raise (n : node) (k : string) (e : exn) :
  Soup.item n k = Raise e -> e = KeyError k.
Proof. unfold Soup.item. destruct (Soup.get n k); [done|by intros [= <-]]. Qed.

(** the URL under an attribute: [get_abs_url(tag[k])] *)
Lemma attr_url_returns (n : node) (k : string) :
  returns (p ← Soup.item n k; get_abs_url urljoin (Some p)) <-> attr_resolves urljoin n k.
Proof.
  unfold attr_resolves, resolves, Soup.item. destruct (Soup.get n k) as [p|]; simpl.
  - split; [intros H; by exists p|by intros (? & [= <-] & ?)].
  - split; [by intros [? ?]|by intros (? & ? & _)].
Qed.

Lemma attr_url_raise (n : node) (k : string) (e : exn) :
  (p ← Soup.item n k; get_abs_url urljoin (Some p)) = Raise e ->
  e = KeyError k \/ join_raises urljoin e.
Proof.
  destruct (Soup.item n k) as [p|e'] eqn:Hitem; simpl.
  - intros ?%get_abs_url_raise. by right.
  - intros [= <-]. left. by eapply item_raise.
Qed.

(** an entry made of the URL under an attribute *)
Lemma attr_entry_returns {A} (n : node) (k : string) (f : option string -> A) :
  returns (p ← Soup.item n k; url ← get_abs_url urljoin (Some p); mret (f url))
  <-> attr_resolves urljoin n k.
Proof.
  rewrite <- attr_url_returns.
  destruct (Soup.item n k) as [p|]; simpl; [|split; by intros [? ?]].
  destruct (get_abs_url urljoin (Some p)) as [u|]; simpl; [|split; by intros [? ?]].
  split; intros _; apply returns_ok.
Qed.

Lemma attr_entry_raise {A} (n : node) (k : string) (f : option string -> A) (e : exn) :
  (p ← Soup.item n k; url ← get_abs_url urljoin (Some p); mret (f url)) = Raise e ->
  e = KeyError k \/ join_raises urljoin e.
Proof.
  intros H. apply (attr_url_raise n k).
  destruct (Soup.item n k) as [p|]; simpl in *; [|by injection H as ->].
  destruct (get_abs_url urljoin (Some p)); simpl in *; [done|by injection H as ->].
Qed.

Lemma home_data_of_eq (soup : node) :
  home_data_of urljoin soup =
    (announcements ← mapM (home_announcement urljoin) (home_anchors soup);
     stats ← mapM home_stat (home_counters soup);
     images ← mapM (home_image urljoin) (home_images soup);
     mret {| hd_announcements := announcements; hd_stats := stats;
             hd_images := images |}).
Proof.
  unfold home_data_of, home_anchors, Soup.find.
  by destruct (Soup.find_all (Soup.named ["marquee"]) soup).
Qed.

Lemma home_stat_returns (s : Soup.located) :
  returns (home_stat s) <->
  is_Some (Soup.find_next (Soup.named ["p"]) s)
  /\ is_Some (Soup.get (Soup.self s) "data-purecounter-end").
Proof.
  unfold home_stat, Soup.item.
  destruct (Soup.find_next _ s) as [p|]; simpl;
    [|split; [by intros [? ?]|by intros [[? ?] _]]].
  destruct (Soup.get _ _) as [v|]; simpl.
  - split; [by split; eexists|intros _; apply returns_ok].
  - split; [by intros [? ?]|by intros [_ [? ?]]].
Qed.

Lemma home_stat_raise (s : Soup.located) (e : exn) :
  home_stat s = Raise e -> e = AttributeError \/ e = KeyError "data-purecounter-end".
Proof.
  unfold home_stat.
  destruct (Soup.find_next _ s); simpl; [|intros [= <-]; by left].
  destruct (Soup.item _ _) eqn:Hitem; simpl; [done|].
  intros [= <-]. right. by eapply item_raise.
Qed.

(** X9: [/api/home] extracts a page exactly when every anchor of the first
    [marquee] has an [href] that resolves, every counter has a [p] after it
    in the document and a [data-purecounter-end], and the source of every
    image that has one resolves; a reference resolves unless [urljoin] is
    called on it and raises.  A page without [marquee] has no anchors to
    fail on.  When the extraction fails, it raises [KeyError] for one of
    the two attributes, [AttributeError] for the missing [p], or what
    [urljoin] raised. *)
Theorem home_extraction_fails_on (soup : node) :
  (returns (home_data_of urljoin soup) <->
     (forall a, a ∈ home_anchors soup -> attr_resolves urljoin a "href")
     /\ (forall s, s ∈ home_counters soup ->
           is_Some (Soup.find_next (Soup.named ["p"]) s)
           /\ is_Some (Soup.get (Soup.self s) "data-purecounter-end"))
     /\ (forall img, img ∈ home_images soup -> attr_resolves urljoin img "src"))
  /\ (forall e, home_data_of urljoin soup = Raise e ->
        e = KeyError "href" \/ e = AttributeError
        \/ e = KeyError "data-purecounter-end" \/ join_raises urljoin e)
  /\ (Soup.find (Soup.named ["marquee"]) soup = None -> home_anchors soup = [])
  /\ (forall p, resolves urljoin p <->
        p = "" \/ p = "#" \/ Py.startswith p "http" = true
        \/ returns (urljoin BASE_URL p))
  /\ (forall img, img ∈ home_images soup -> is_Some (Soup.get img "src")).
Proof.
  rewrite home_data_of_eq. split; [|split; [|split; [|split]]].
  - rewrite returns_bind. split.
    + intros (anns & Hanns & Hrest).
      apply returns_bind in Hrest as (stats & Hstats & Hrest).
      apply returns_bind in Hrest as (imgs & Himgs & _).
      split; [|split].
      * intros a Ha. apply (attr_entry_returns a "href"
                              (fun link => {| an_text := Soup.get_text_strip a;
                                              an_link := link |})).
        revert a Ha. apply mapM_returns_iff. by exists anns.
      * intros c Hc. apply home_stat_returns.
        revert c Hc. apply mapM_returns_iff. by exists stats.
      * intros img Himg. apply attr_url_returns.
        revert img Himg. apply mapM_returns_iff. by exists imgs.
    + intros (Hanchors & Hcounters & Himages).
      destruct (mapM_returns (home_announcement urljoin) (home_anchors soup)) as [anns Hanns].
      { intros a Ha. by apply (attr_entry_returns a "href" _), Hanchors. }
      destruct (mapM_returns home_stat (home_counters soup)) as [stats Hstats];
        [intros c Hc; by apply home_stat_returns, Hcounters|].
      destruct (mapM_returns (home_image urljoin) (home_images soup)) as [imgs Himgs];
        [intros img Himg; by apply attr_url_returns, Himages|].
      exists anns. split; [done|]. rewrite Hstats, Himgs. apply returns_ok.
  - intros e.
    destruct (mapM (home_announcement urljoin) _) as [anns|e1] eqn:Hanns; simpl.
    + destruct (mapM home_stat _) as [stats|e2] eqn:Hstats; simpl.
      * destruct (mapM (home_image urljoin) _) as [imgs|e3] eqn:Himgs; simpl; [done|].
        intros [= <-]. apply mapM_raise in Himgs as (img & Himg & Hraise).
        apply list_elem_of_filter in Himg as [Hsrc _].
        unfold home_image, Soup.item in Hraise.
        destruct (Soup.get img "src") as [src|]; [|done]. simpl in Hraise.
        apply get_abs_url_raise in Hraise. tauto.
      * intros [= <-]. apply mapM_raise in Hstats as (c & _ & Hraise).
        apply home_stat_raise in Hraise. tauto.
    + intros [= <-]. apply mapM_raise in Hanns as (a & _ & Hraise).
      apply (attr_entry_raise a "href") in Hraise. tauto.
  - unfold Soup.find, home_anchors. by destruct (Soup.find_all _ soup).
  - apply resolves_iff.
  - intros img [Hsrc _]%list_elem_of_filter.
    by destruct (Soup.get img "src").
Qed.

(** X10: what [/api/home] returns follows the page in document order: one
    announcement per anchor of the first [marquee] and of no later one, one
    stat per counter, labelled by the first [p] after it, and one image
    entry per [img] of the document whose [src] is there and not empty.  An
    entry for the source ["#"] is kept, as null; an entry is null for no
    other source. *)
Theorem home_lists_follow_page (soup : node) (d : home_data) :
  home_data_of urljoin soup = Ok d ->
  Forall2 (fun a an =>
             an_text an = Soup.get_text_strip a
             /\ exists href, Soup.get a "href" = Some href
                  /\ get_abs_url urljoin (Some href) = Ok (an_link an))
          (home_anchors soup) (hd_announcements d)
  /\ Forall2 (fun c st =>
                Soup.get (Soup.self c) "data-purecounter-end" = Some (st_value st)
                /\ exists p, Soup.find_next (Soup.named ["p"]) c = Some p
                     /\ st_label st = Soup.get_text_strip p)
             (home_counters soup) (hd_stats d)
  /\ Forall2 (fun img u =>
                exists src, Soup.get img "src" = Some src /\ src <> ""
                  /\ get_abs_url urljoin (Some src) = Ok u
                  /\ (u = None <-> src = "#"))
             (home_images soup) (hd_images d).
Proof.
  rewrite home_data_of_eq.
  destruct (mapM (home_announcement urljoin) _) as [anns|] eqn:Hanns; simpl; [|done].
  destruct (mapM home_stat _) as [stats|] eqn:Hstats; simpl; [|done].
  destruct (mapM (home_image urljoin) _) as [imgs|] eqn:Himgs; simpl; [|done].
  intros [= <-]. simpl. split; [|split].
  - eapply Forall2_impl; [by apply mapM_result_Forall2|].
    intros a an. unfold home_announcement, Soup.item. simpl.
    destruct (Soup.get a "href") as [href|]; simpl; [|done].
    destruct (get_abs_url urljoin (Some href)) as [u|] eqn:Hu; simpl; [|done].
    intros [= <-]. split; [done|]. by exists href.
  - eapply Forall2_impl; [by apply mapM_result_Forall2|].
    intros c st. unfold home_stat, Soup.item. simpl.
    destruct (Soup.find_next _ c) as [p|]; simpl; [|done].
    destruct (Soup.get _ _) as [v|]; simpl; [|done].
    intros [= <-]. split; [done|]. by exists p.
  - apply mapM_result_Forall2 in Himgs.
    assert (Hsrc : Forall (fun img => truthy_attr (Soup.get img "src") = true)
                          (home_images soup)).
    { apply Forall_forall. by intros img [? _]%list_elem_of_filter. }
    induction Himgs as [|img u imgs' us Himg _ IH]; [constructor|].
    apply Forall_cons in Hsrc as [Hhere Hsrc]. constructor; [|by apply IH].
    unfold home_image, Soup.item in Himg.
    destruct (Soup.get img "src") as [src|]; [|done]. simpl in *.
    exists src. split; [done|].
    apply negb_true_iff, bool_decide_eq_false in Hhere.
    split; [done|]. split; [done|]. split.
    + intros ->. apply get_abs_url_none in Himg as [?|?]; done.
    + intros ->. unfold get_abs_url in Himg. simpl in Himg. by injection Himg.
Qed.

Lemma card_photo_returns (card : node) :
  returns (card_photo urljoin card) <-> photo_resolves urljoin card.
Proof.
  unfold card_photo, photo_resolves.
  destruct (Soup.find (Soup.named ["img"]) card) as [img|].
  - rewrite attr_url_returns. split; [by intros H img' [= <-]|by intros H; apply H].
  - split; [by intros _ img' [=]|intros _; apply returns_ok].
Qed.

Lemma card_photo_raise (card : node) (e : exn) :
  card_photo urljoin card = Raise e -> e = KeyError "src" \/ join_raises urljoin e.
Proof.
  unfold card_photo. destruct (Soup.find _ card) as [img|]; [|done].
  apply attr_url_raise.
Qed.

Lemma staff_of_card_returns (email : option string) (card : node) :
  returns (staff_of_card urljoin email card) <-> photo_resolves urljoin card.
Proof.
  rewrite <- card_photo_returns. unfold staff_of_card. rewrite returns_bind.
  split; [intros (photo & -> & _); apply returns_ok|].
  intros [photo ->]. exists photo. split; [done|apply returns_ok].
Qed.

(** X11: the staff extraction of [/api/departments/{dept_code}] returns
    exactly when, in every card that gives a record (the card around the
    first form of an email), the first image, if there is one, has a [src]
    that resolves; forms that give no record cannot make it fail.  It
    fails with [KeyError] for ["src"] or with what [urljoin] raised.  A
    record has the name ["Unknown"] when its card has no [h5] or [h3], and
    no bio. *)
Theorem staff_extraction_fails_on (soup : node) :
  let cards := carded (first_forms [] (Soup.find_all_located profile_form soup)) in
  (returns (staff_of urljoin soup) <->
     forall ec, ec ∈ cards -> photo_resolves urljoin ec.2)
  /\ (forall e, staff_of urljoin soup = Raise e ->
        e = KeyError "src" \/ join_raises urljoin e)
  /\ (forall staff, staff_of urljoin soup = Ok staff ->
        Forall2 (fun ec r =>
                   sr_email r = ec.1 /\ sr_bio r = None
                   /\ card_photo urljoin ec.2 = Ok (sr_photo r)
                   /\ sr_name r = match Soup.find (Soup.named ["h5"; "h3"]) ec.2 with
                                  | Some t => Soup.get_text_strip t
                                  | None => "Unknown"
                                  end)
                cards staff).
Proof.
  intros cards. rewrite staff_of_spec. fold cards. split; [|split].
  - rewrite mapM_returns_iff.
    split; intros H ec Hec; by apply (staff_of_card_returns ec.1 ec.2), H.
  - intros e (ec & _ & Hraise)%mapM_raise. unfold staff_of_card in Hraise.
    destruct (card_photo urljoin ec.2) as [photo|e'] eqn:Hphoto; simpl in Hraise; [done|].
    injection Hraise as <-. by eapply card_photo_raise.
  - intros staff Hstaff. eapply Forall2_impl; [by apply mapM_result_Forall2|].
    intros ec r. unfold staff_of_card.
    destruct (card_photo urljoin ec.2) as [photo|]; simpl; [|done].
    by intros [= <-].
Qed.

Lemma mapM_cons_eq {A B} (f : A -> result B) (x : A) (l : list A) :
  mapM f (x :: l) = (y ← f x; k ← mapM f l; mret (y :: k)).
Proof. reflexivity. Qed.

Lemma profile_of_named (d name_tag : node) :
  card_name d = Some name_tag ->
  profile_of urljoin d =
    (photo ← card_photo urljoin d;
     mret {| pc_name := Soup.get_text_strip name_tag;
             pc_photo := photo;
             pc_text := Soup.get_text_strip <$> Soup.find_all (Soup.named ["p"]) d |}).
Proof. unfold profile_of. by intros ->. Qed.

Lemma institute_card_loop_spec (divs : list node) (cards : list profile_card) :
  institute_card_loop urljoin cards divs =
    (fun new => cards ++ new) <$>
      mapM (profile_of urljoin) (filter (fun d => is_Some (card_name d)) divs).
Proof.
  revert cards. induction divs as [|d divs IH]; intros cards.
  - simpl. by rewrite app_nil_r.
  - change (institute_card_loop urljoin cards (d :: divs))
      with (cards' ← institute_card_step urljoin cards d;
            institute_card_loop urljoin cards' divs).
    unfold institute_card_step. fold (card_name d).
    destruct (card_name d) as [name_tag|] eqn:Hname.
    + rewrite filter_cons_True by (by rewrite Hname).
      rewrite mapM_cons_eq, (profile_of_named d name_tag Hname).
      destruct (card_photo urljoin d) as [photo|]; simpl; [|done].
      rewrite IH. destruct (mapM _ _) as [new|]; simpl; [|done].
      by rewrite <- app_assoc.
    + rewrite filter_cons_False by (rewrite Hname; by intros [? ?]).
      simpl. apply IH.
Qed.

(** X12: [/api/institute/{page}] extracts a page exactly when every info
    card that has a name ([h3] or [h2]) has, on its first image if it has
    an image, a [src] that resolves; a card without a name is passed over
    whatever it holds, and the sections cannot fail.  It fails with
    [KeyError] for ["src"] or with what [urljoin] raised.  What it returns
    has the page as sent, the sections of the page, and one profile per
    card with a name, in document order. *)
Theorem institute_extraction_fails_on (page : string) (soup : node) :
  (returns (institute_data_of urljoin page soup) <->
     forall card, card ∈ named_cards soup -> photo_resolves urljoin card)
  /\ (forall e, institute_data_of urljoin page soup = Raise e ->
        e = KeyError "src" \/ join_raises urljoin e)
  /\ (forall d, institute_data_of urljoin page soup = Ok d ->
        in_page d = page /\ in_sections d = institute_sections soup
        /\ Forall2 (fun card pc =>
                      (exists name_tag, card_name card = Some name_tag
                         /\ pc_name pc = Soup.get_text_strip name_tag)
                      /\ card_photo urljoin card = Ok (pc_photo pc)
                      /\ pc_text pc = Soup.get_text_strip <$>
                                        Soup.find_all (Soup.named ["p"]) card)
                   (named_cards soup) (in_profiles d)).
Proof.
  unfold institute_data_of. rewrite institute_card_loop_spec.
  fold (info_cards soup). fold (named_cards soup).
  assert (Hprofile : forall card,
            returns (profile_of urljoin card) <-> photo_resolves urljoin card).
  { intros card. rewrite <- card_photo_returns. unfold profile_of. rewrite returns_bind.
    split; [intros (photo & -> & _); apply returns_ok|].
    intros [photo ->]. exists photo. split; [done|apply returns_ok]. }
  split; [|split].
  - split.
    + intros Hret card Hcard. apply (Hprofile card). revert card Hcard.
      apply mapM_returns_iff.
      destruct (mapM (profile_of urljoin) (named_cards soup)) as [cards|]; simpl in Hret;
        [apply returns_ok|by destruct Hret].
    + intros Hcards.
      destruct (mapM_returns (profile_of urljoin) (named_cards soup)) as [cards ->];
        [intros card Hcard; by apply (Hprofile card), Hcards|].
      apply returns_ok.
  - intros e. destruct (mapM (profile_of urljoin) _) as [cards|e'] eqn:Hcards; simpl; [done|].
    intros [= <-]. apply mapM_raise in Hcards as (card & _ & Hraise).
    unfold profile_of in Hraise.
    destruct (card_photo urljoin card) as [photo|e''] eqn:Hphoto; simpl in Hraise; [done|].
    injection Hraise as <-. by eapply card_photo_raise.
  - intros d. destruct (mapM (profile_of urljoin) _) as [cards|] eqn:Hcards; simpl; [|done].
    intros [= <-]. simpl. split; [done|]. split; [done|].
    apply mapM_result_Forall2 in Hcards.
    assert (Hnamed : Forall (fun d => is_Some (card_name d)) (named_cards soup)).
    { apply Forall_forall. by intros card [? _]%list_elem_of_filter. }
    induction Hcards as [|card pc cs pcs Hpc _ IH]; [constructor|].
    apply Forall_cons in Hnamed as [[name_tag Hname] Hnamed].
    constructor; [|by apply IH].
    rewrite (profile_of_named card name_tag Hname) in Hpc.
    destruct (card_photo urljoin card) as [photo|]; simpl in Hpc; [|done].
    injection Hpc as <-. simpl. split; [by exists name_tag|done].
Qed.





End Extraction.

(** ** Keys shared between endpoints, and what stays in the cache *)

Section Sharing.
Variable urljoin : string -> string -> result string.
Variable BeautifulSoup : string -> result node.
Variable client_get : string -> result string.
Variable client_post : option string -> result (Z * string).

Local Abbreviation handle' := (handle urljoin BeautifulSoup client_get client_post).
Local Abbreviation reachable' := (reachable urljoin BeautifulSoup client_get client_post).
Local Abbreviation serve' := (serve urljoin BeautifulSoup client_get client_post).

(** X15: whatever an endpoint has fetched is served, while its entry
    lives, to every request with the same key, of whatever endpoint, without
    a call: always to [/api/institute/{key}] and to
    [/api/notifications?type={key}], whose keys are the bare parameter.  The
    keys of [/api/home], [/api/academics] and [/api/departments] start with
    the name of the endpoint, and two of them are equal only within one
    endpoint. *)
Theorem any_entry_served_as_institute (w : world) (r : request) (s1 s2 : schedule)
    (resp : response) :
  reachable' w ->
  Cache.contains (w_cache w) (cache_key_of r) (t_check s1) = false ->
  (handle' r s1 w).2 = Ok resp ->
  t_check s2 < t_store s1 + 3600 -> t_read s2 < t_store s1 + 3600 ->
  let w1 := (handle' r s1 w).1 in
  handle' (GetInstitute (cache_key_of r)) s2 w1 = (w1, Ok resp)
  /\ handle' (GetNotifications (Some (cache_key_of r))) s2 w1 = (w1, Ok resp)
  /\ (forall r', cache_key_of r' = cache_key_of r -> handle' r' s2 w1 = (w1, Ok resp))
  /\ (forall r1 r2, keyed_by_endpoint r1 = true -> keyed_by_endpoint r2 = true ->
        cache_key_of r1 = cache_key_of r2 -> same_endpoint r1 r2 = true).
Proof.
  intros Hw Hmiss Hresp Hcheck Hread w1. subst w1.
  split; [by apply served_by_key|]. split; [by apply served_by_key|].
  split; [intros r' Hkey; by apply served_by_key|].
  intros [|p|p|d x|t] [|p'|p'|d' x'|t']; simpl; try done.
  all: unfold dept_cache_key; intros _ _ [=].
Qed.

(** X16: a department request with [deep] whose page gives a staff list
    returns and is cached even when fetches of bios fail: the record of a
    member whose fetch failed is the record extracted from the page with the
    bio [{"error": "Deep fetch failed"}], and the request is answered with the
    same records, without another attempt, when it is repeated before 3600
    seconds have passed and fewer than 200 other requests have been handled
    in between. *)
Theorem failed_bio_is_cached (w : world) (dept_code : string) (s1 s2 : schedule)
    (soup : node) (staff : list staff_record) (between : list (request * schedule)) :
  reachable' w ->
  Cache.contains (w_cache w) (dept_cache_key dept_code true) (t_check s1) = false ->
  page_of BeautifulSoup client_get (department_url dept_code) = Ok soup ->
  staff_of urljoin soup = Ok staff ->
  (length between < 200)%nat ->
  Forall (fun rs => before (t_store s1 + 3600) rs.2) between ->
  t_check s2 < t_store s1 + 3600 -> t_read s2 < t_store s1 + 3600 ->
  let r := GetDepartment dept_code (Some true) in
  let w1 := serve' between (handle' r s1 w).1 in
  exists d,
    (handle' r s1 w).2 = Ok (RDepartment d)
    /\ (handle' r s2 w1).2 = Ok (RDepartment d)
    /\ w_calls (handle' r s2 w1).1 = w_calls w1
    /\ dd_dept d = dept_code
    /\ length (dd_faculties d) = length staff
    /\ forall i m e, staff !! i = Some m -> client_post (sr_email m) = Raise e ->
         exists f, dd_faculties d !! i = Some f
           /\ sr_bio f = Some {[ "error" := BioText "Deep fetch failed" ]}
           /\ sr_name f = sr_name m /\ sr_email f = sr_email m
           /\ sr_photo f = sr_photo m.
Proof.
  intros Hw Hmiss Hsoup Hstaff Hfew Htimes Hcheck Hread r w1.
  set (d := {| dd_dept := dept_code;
               dd_faculties :=
                 (fun m => set_bio (bio_of BeautifulSoup client_post (sr_email m)) m)
                   <$> staff |}).
  assert (Hresp : (handle' r s1 w).2 = Ok (RDepartment d)).
  { subst r. rewrite handle_answer. unfold answer. simpl.
    rewrite Hmiss, Hsoup. simpl. by rewrite Hstaff. }
  pose proof (fetched_stays urljoin BeautifulSoup client_get client_post
                w r s1 (RDepartment d) between Hw Hmiss Hresp Hfew Htimes) as Hk.
  fold w1 in Hk.
  destruct (hit_used_recently urljoin BeautifulSoup client_get client_post
              r s2 w1 _ _ _ Hk Hcheck Hread) as [Hagain Hcalls].
  exists d. split; [done|]. split; [done|]. split; [done|].
  split; [done|]. split; [subst d; simpl; by rewrite length_fmap|].
  intros i m e Hm Hpost. eexists. split.
  - subst d. simpl. by rewrite list_lookup_fmap, Hm.
  - simpl. unfold bio_of. by rewrite Hpost.
Qed.

End Sharing.

(** ** The bios of a department *)

Lemma to_upper_not_lower (c : ascii) : Py.islower (Py.to_upper c) = false.
Proof. by destruct c as [[] [] [] [] [] [] [] []]. Qed.

(** a title-cased string does not start with a lower-case letter *)
Lemma title_head_not_lower (s : string) :
  match Py.title s with
  | String c _ => Py.islower c = false
  | EmptyString => True
  end.
Proof.
  destruct s as [|c s]; [done|]. unfold Py.title. simpl.
  destruct (Py.islower c) eqn:Hlower; [apply to_upper_not_lower|].
  by destruct (Py.isupper c).
Qed.

Lemma bio_details_no_error (p_soup : node) : bio_details p_soup !! "error" = None.
Proof.
  unfold bio_details. rewrite bio_details_fold.
  destruct (last _) as [d|] eqn:Hlast; [|done].
  apply last_Some_elem_of, list_elem_of_filter in Hlast as [Hkey _].
  unfold bio_block_key, bio_key in Hkey.
  pose proof (title_head_not_lower
                (Py.replace (Py.replace (default "" (Soup.get d "id")) "content-" "") "_" " "))
    as Hhead.
  rewrite Hkey in Hhead. done.
Qed.

Section Bios.
Variable urljoin : string -> string -> result string.
Variable BeautifulSoup : string -> result node.
Variable client_get : string -> result string.
Variable client_post : option string -> result (Z * string).

Local Abbreviation handle' := (handle urljoin BeautifulSoup client_get client_post).

(** X17: the key ["error"] is the fetcher's own: the bio of a page that
    was parsed never has it, since the keys of the blocks are title-cased.
    So the fetcher returns the mapping with ["error"] exactly when the POST
    raised or the page of a 200 response could not be parsed, and never for
    a status other than 200. *)
Theorem bio_error_key_reserved (email : option string) (s : schedule) (w : world) :
  (forall p_soup, bio_details p_soup !! "error" = None)
  /\ ((parse_deep_faculty BeautifulSoup client_post email s w).2 = Ok DEEP_FETCH_FAILED <->
        (exists e, client_post email = Raise e)
        \/ (exists text e, client_post email = Ok (200, text)
                           /\ BeautifulSoup text = Raise e)).
Proof.
  split; [apply bio_details_no_error|].
  assert (Hreal : forall p_soup, bio_details p_soup <> DEEP_FETCH_FAILED).
  { intros p_soup Heq. pose proof (bio_details_no_error p_soup) as Hnone.
    rewrite Heq in Hnone. done. }
  rewrite parse_deep_faculty_run. unfold bio_of. simpl.
  destruct (client_post email) as [[status text]|e] eqn:Hpost.
  - case_bool_decide as Hstatus.
    + subst status. destruct (BeautifulSoup text) as [p_soup|e] eqn:Hsoup.
      * split.
        -- intros [= Heq]. by apply Hreal in Heq.
        -- intros [[e ?]|(text' & e & [= <-] & ?)]; [done|congruence].
      * split; [|done]. intros _. right. by exists text, e.
    + split; [done|].
      intros [[e ?]|(text' & e & [= ? _] & _)]; done.
  - split; [|done]. intros _. left. by exists e.
Qed.

(** X18: what [/api/departments/{dept_code}] computes at a miss names the
    department as it was sent, and its records carry a bio exactly when the
    request had [deep=true]. *)
Theorem bio_present_iff_deep (dept_code : string) (deep : option bool)
    (s : schedule) (w : world) (resp : response) :
  Cache.contains (w_cache w) (cache_key_of (GetDepartment dept_code deep)) (t_check s)
    = false ->
  (handle' (GetDepartment dept_code deep) s w).2 = Ok resp ->
  exists d, resp = RDepartment d /\ dd_dept d = dept_code
    /\ Forall (fun f => is_Some (sr_bio f) <-> deep = Some true) (dd_faculties d).
Proof.
  intros Hmiss. rewrite handle_answer. unfold answer. rewrite Hmiss.
  cbn [snd fetched].
  destruct (page_of _ _ _) as [soup|]; simpl; [|done].
  destruct (staff_of urljoin soup) as [staff|] eqn:Hstaff; simpl; [|done].
  intros [= <-]. eexists. split; [done|]. split; [done|]. simpl.
  pose proof (staff_of_no_bio _ _ _ Hstaff) as Hnone.
  destruct deep as [[]|]; simpl.
  - apply Forall_fmap, Forall_true. intros f. simpl. split; [done|by eexists].
  - eapply Forall_impl; [exact Hnone|]. intros f ->. split; [by intros [? ?]|done].
  - eapply Forall_impl; [exact Hnone|]. intros f ->. split; [by intros [? ?]|done].
Qed.

End Bios.

(** ** The theorems at work on sample pages *)

(** X10, a witness: the sample home page and what is extracted from it. *)
Lemma home_lists_follow_page_witness :
  let d := {| hd_announcements :=
                [ {| an_text := "Admissions open";
                     an_link := Some "https://rguktong.ac.in/notice.pdf" |} ];
              hd_stats := [ {| st_label := "Students"; st_value := "6000" |} ];
              hd_images := [None; Some "https://rguktong.ac.in/assets/img/logo.png"] |} in
  Forall2 (fun a an =>
             an_text an = Soup.get_text_strip a
             /\ exists href, Soup.get a "href" = Some href
                  /\ get_abs_url join_plain (Some href) = Ok (an_link an))
          (home_anchors home_page) (hd_announcements d)
  /\ Forall2 (fun c st =>
                Soup.get (Soup.self c) "data-purecounter-end" = Some (st_value st)
                /\ exists p, Soup.find_next (Soup.named ["p"]) c = Some p
                     /\ st_label st = Soup.get_text_strip p)
             (home_counters home_page) (hd_stats d)
  /\ Forall2 (fun img u =>
                exists src, Soup.get img "src" = Some src /\ src <> ""
                  /\ get_abs_url join_plain (Some src) = Ok u
                  /\ (u = None <-> src = "#"))
             (home_images home_page) (hd_images d).
Proof.
  intros d. apply (home_lists_follow_page join_plain home_page d). reflexivity.
Defined.



(** X15, a witness: the home page fetched as the process starts, and the
    institute page ["home"] asked for a minute later. *)
Lemma any_entry_served_as_institute_witness :
  let handle' := handle join_plain (fun _ => Ok home_page) (fun _ => Ok "")
                   unreachable_post in
  let resp := RHome
                {| hd_announcements :=
                     [ {| an_text := "Admissions open";
                          an_link := Some "https://rguktong.ac.in/notice.pdf" |} ];
                   hd_stats := [ {| st_label := "Students"; st_value := "6000" |} ];
                   hd_images :=
                     [None; Some "https://rguktong.ac.in/assets/img/logo.png"] |} in
  let w1 := (handle' GetHome (at_time 0) (World cache [])).1 in
  handle' (GetInstitute (cache_key_of GetHome)) (at_time 60) w1 = (w1, Ok resp)
  /\ handle' (GetNotifications (Some (cache_key_of GetHome))) (at_time 60) w1 = (w1, Ok resp)
  /\ (forall r', cache_key_of r' = cache_key_of GetHome ->
        handle' r' (at_time 60) w1 = (w1, Ok resp))
  /\ (forall r1 r2, keyed_by_endpoint r1 = true -> keyed_by_endpoint r2 = true ->
        cache_key_of r1 = cache_key_of r2 -> same_endpoint r1 r2 = true).
Proof.
  intros handle' resp w1.
  apply (any_entry_served_as_institute join_plain (fun _ => Ok home_page)
           (fun _ => Ok "") unreachable_post (World cache []) GetHome
           (at_time 0) (at_time 60) resp).
  - apply reachable_start.
  - reflexivity.
  - reflexivity.
  - reflexivity.
  - reflexivity.
Defined.

(** X16, a witness: a department asked for with [deep] while the profile
    service is down, then the home page, and the department again a minute
    after the first time. *)
Lemma failed_bio_is_cached_witness :
  let handle' := handle join_plain (fun _ => Ok two_cards_page) (fun _ => Ok "")
                   unreachable_post in
  let staff := [ {| sr_name := "Dr. A"; sr_email := Some "a@rguktong.ac.in";
                    sr_photo := None; sr_bio := None |} ] in
  let r := GetDepartment "cse" (Some true) in
  let w1 := serve join_plain (fun _ => Ok two_cards_page) (fun _ => Ok "")
              unreachable_post [(GetHome, at_time 10)]
              (handle' r (at_time 0) (World cache [])).1 in
  exists d,
    (handle' r (at_time 0) (World cache [])).2 = Ok (RDepartment d)
    /\ (handle' r (at_time 60) w1).2 = Ok (RDepartment d)
    /\ w_calls (handle' r (at_time 60) w1).1 = w_calls w1
    /\ dd_dept d = "cse"
    /\ length (dd_faculties d) = length staff
    /\ forall i m e, staff !! i = Some m -> unreachable_post (sr_email m) = Raise e ->
         exists f, dd_faculties d !! i = Some f
           /\ sr_bio f = Some {[ "error" := BioText "Deep fetch failed" ]}
           /\ sr_name f = sr_name m /\ sr_email f = sr_email m
           /\ sr_photo f = sr_photo m.
Proof.
  intros handle' staff r w1.
  apply (failed_bio_is_cached join_plain (fun _ => Ok two_cards_page)
           (fun _ => Ok "") unreachable_post (World cache []) "cse"
           (at_time 0) (at_time 60) two_cards_page staff [(GetHome, at_time 10)]).
  - apply reachable_start.
  - reflexivity.
  - reflexivity.
  - reflexivity.
  - simpl. lia.
  - repeat constructor; simpl; lia.
  - reflexivity.
  - reflexivity.
Defined.

(** X18, a witness: a department asked for without [deep]. *)
Lemma bio_present_iff_deep_witness :
  let resp := RDepartment
                {| dd_dept := "cse";
                   dd_faculties :=
                     [ {| sr_name := "Dr. A"; sr_email := Some "a@rguktong.ac.in";
                          sr_photo := None; sr_bio := None |} ] |} in
  exists d, resp = RDepartment d /\ dd_dept d = "cse"
    /\ Forall (fun f => is_Some (sr_bio f) <-> @None bool = Some true) (dd_faculties d).
Proof.
  intros resp.
  apply (bio_present_iff_deep join_plain (fun _ => Ok two_cards_page) (fun _ => Ok "")
           unreachable_post "cse" None (at_time 0) (World cache []) resp).
  - reflexivity.
  - reflexivity.
Defined.
